(** * keyleds: the render target and the device render loop

    A shallow embedding of [keyledsd/RenderLoop.cxx]: the aligned colour
    buffer ([RenderTarget]), the per-tick diff ([RenderLoop::render]) and the
    error-recovery wrapper ([RenderLoop::run]).

    Conventions.
    - [std::size_t] values are integers in [0, 2^64); every arithmetic
      operation of the source on them is followed by [wrap].
    - The heap maps an allocation (a region identifier) to the colour cells
      it holds.  A pointer is [nullptr] or a region with a cell offset.
    - Device operations belong to an external collaborator: they are the
      methods of the class [DeviceOps], and every invocation is recorded in
      a call log kept next to the device.
    - A computation of the loop either returns, raises a C++ exception, or
      faults (a precondition violation such as addressing outside a buffer).
      The state reached is kept in all three cases. *)

From Stdlib Require Import ZArith Lia.
From stdpp Require Import base option list gmap strings.

Local Open Scope Z_scope.

(** ** Machine integers *)

Definition size_t_modulus : Z := 2 ^ 64.

Definition wrap (z : Z) : Z := z mod size_t_modulus.

Definition is_size_t (z : Z) : Prop := 0 <= z < size_t_modulus.

(** ** Colours *)

(** [keyleds::RGBAColor]: four 8-bit channels, tightly packed
    ([static_assert(sizeof(keyleds::RGBAColor) == 4)]). *)
Record RGBAColor := mkRGBA { red : Z; green : Z; blue : Z; alpha : Z }.

Definition sizeof_RGBAColor : Z := 4.

Global Instance RGBAColor_eq_dec : EqDecision RGBAColor.
Proof. solve_decision. Defined.

(** Modelled from the spec: [operator!=] of [RGBAColor] lives in
    [keyledsd/colors.h], which is not available; the spec says colours are
    "compared by exact field equality". *)
Definition RGBAColor_neq (a b : RGBAColor) : bool :=
  negb (bool_decide (red a = red b /\ green a = green b /\
                     blue a = blue b /\ alpha a = alpha b)).

(** Modelled from the spec: [Device::ColorDirective] is declared in
    [keyledsd/Device.h], which is not available.  A write directive is "a
    (key identifier, red, green, blue) tuple"; line 159 fills these four
    fields in this order. *)
Record ColorDirective := mkDirective
  { d_id : Z; d_red : Z; d_green : Z; d_blue : Z }.

Global Instance ColorDirective_eq_dec : EqDecision ColorDirective.
Proof. solve_decision. Defined.

(** ** Heap and pointers *)

Inductive pointer :=
  | nullptr
  | Ptr (region : nat) (offset : Z).

Global Instance pointer_eq_dec : EqDecision pointer.
Proof. solve_decision. Defined.

Abbreviation heap := (gmap nat (list RGBAColor)).

(** [&p[k]] *)
Definition ptr_index (p : pointer) (k : Z) : pointer :=
  match p with
  | nullptr => nullptr
  | Ptr r off => Ptr r (off + k)
  end.

(** Reading [*p]: valid only inside a live region. *)
Definition load (h : heap) (p : pointer) : option RGBAColor :=
  match p with
  | nullptr => None
  | Ptr r off =>
      cells ← h !! r;
      if decide (0 <= off) then cells !! Z.to_nat off else None
  end.

(** Writing [*p = c]: valid only inside a live region. *)
Definition store (h : heap) (p : pointer) (c : RGBAColor) : option heap :=
  match p with
  | nullptr => None
  | Ptr r off =>
      cells ← h !! r;
      if decide (0 <= off /\ (Z.to_nat off < length cells)%nat)
      then Some (<[r := <[Z.to_nat off := c]> cells]> h)
      else None
  end.

(** What the allocator answers: no memory, or a fresh region whose cells
    hold whatever the allocator left there. *)
Inductive alloc_reply :=
  | NoMemory
  | Allocated (contents : nat -> RGBAColor).

(** [posix_memalign(&p, alignment, size)]: on success the region holds
    [size / sizeof(RGBAColor)] cells and nothing is written to them. *)
Definition posix_memalign (alignment size : Z) (reply : alloc_reply) (h : heap)
  : option (pointer * heap) :=
  match reply with
  | NoMemory => None
  | Allocated contents =>
      let r := fresh (dom h) in
      Some (Ptr r 0,
            <[r := contents <$> seq 0 (Z.to_nat (size / sizeof_RGBAColor))]> h)
  end.

(** [free(p)]: nothing for [nullptr]; releases a region given its start;
    anything else is a fault. *)
Definition free (p : pointer) (h : heap) : option heap :=
  match p with
  | nullptr => Some h
  | Ptr r off =>
      if decide (off = 0 /\ is_Some (h !! r)) then Some (delete r h) else None
  end.

(** ** RenderTarget *)

Module RenderTarget.

Definition align_bytes : Z := 32.
Definition align_colors : Z := align_bytes / sizeof_RGBAColor.

Record t := mk
  { m_colors : pointer;
    m_nbColors : Z;
    m_blocks : list pointer }.

(** [static std::size_t align(std::size_t value, std::size_t alignment)] *)
Definition align (value alignment : Z) : Z :=
  Z.land (wrap (wrap (value + alignment) - 1))
         (wrap (Z.lnot (wrap (alignment - 1)))).

(** First loop of the constructor: the number of colours required. *)
Definition required_colors (block_sizes : list Z) : Z :=
  foldl (fun totalColors nbColors =>
           align (wrap (totalColors + nbColors)) align_colors)
        0 block_sizes.

(** Second loop of the constructor: one pointer per block. *)
Definition block_pointers (colors : pointer) (block_sizes : list Z)
  : list pointer :=
  fst (foldl (fun '(blocks, totalColors) nbColors =>
                (blocks ++ [ptr_index colors totalColors],
                 align (wrap (totalColors + nbColors)) align_colors))
             ([], 0) block_sizes).

(** [RenderTarget::RenderTarget(const std::vector<std::size_t> &)];
    [None] stands for [throw std::bad_alloc()]. *)
Definition create (block_sizes : list Z) (reply : alloc_reply) (h : heap)
  : option (t * heap) :=
  let totalColors := required_colors block_sizes in
  match posix_memalign align_bytes (wrap (totalColors * sizeof_RGBAColor))
                       reply h with
  | None => None
  | Some (colors, h') =>
      Some ({| m_colors := colors;
               m_nbColors := totalColors;
               m_blocks := block_pointers colors block_sizes |}, h')
  end.

(** [RenderTarget::RenderTarget(RenderTarget && other)]: returns the new
    object and what is left of [other].  The moved-from vector of block
    pointers is left empty. *)
Definition move (other : t) : t * t :=
  let this_colors := nullptr in
  let '(this_colors, other_colors) := (m_colors other, this_colors) in
  ({| m_colors := this_colors;
      m_nbColors := m_nbColors other;
      m_blocks := m_blocks other |},
   {| m_colors := other_colors;
      m_nbColors := m_nbColors other;
      m_blocks := [] |}).

(** [RenderTarget::~RenderTarget()] *)
Definition destroy (rt : t) (h : heap) : option heap := free (m_colors rt) h.

(** [keyleds::swap(RenderTarget &, RenderTarget &)] *)
Definition swap (lhs rhs : t) : t * t :=
  ({| m_colors := m_colors rhs;
      m_nbColors := m_nbColors rhs;
      m_blocks := m_blocks rhs |},
   {| m_colors := m_colors lhs;
      m_nbColors := m_nbColors lhs;
      m_blocks := m_blocks lhs |}).

Definition size (rt : t) : Z := m_nbColors rt.

(** [operator[](idx)]: [m_colors[idx]] *)
Definition at_index (rt : t) (idx : Z) : pointer :=
  ptr_index (m_colors rt) idx.

(** Modelled from the spec: the accessor [get(blockIndex, keyIndex)] is
    declared in a header that is not available; it is "direct addressed
    access" through the block pointer the constructor stored, that is
    [m_blocks[bidx][idx]].  An absent block is [None]. *)
Definition get (rt : t) (bidx idx : nat) : option pointer :=
  block ← m_blocks rt !! bidx;
  Some (ptr_index block (Z.of_nat idx)).

(** Reading and writing through [get]. *)
Definition read (h : heap) (rt : t) (bidx idx : nat) : option RGBAColor :=
  p ← get rt bidx idx; load h p.

Definition write (h : heap) (rt : t) (bidx idx : nat) (c : RGBAColor)
  : option heap :=
  p ← get rt bidx idx; store h p c.

End RenderTarget.

(** ** Exceptions and errors *)

(** Modelled from the spec: [keyleds_error_t] is declared in [keyleds.h],
    which is not available.  "Errors [...] carry an error code and, where
    applicable, an underlying system error number"; the loop names two of
    the codes and treats every other one alike. *)
Inductive keyleds_error_t :=
  | KEYLEDS_ERROR_ERRNO
  | KEYLEDS_ERROR_TIMEDOUT
  | KEYLEDS_ERROR_other (code : Z).

Global Instance keyleds_error_t_eq_dec : EqDecision keyleds_error_t.
Proof. solve_decision. Defined.

(** [ENODEV] of [<cerrno>] (Linux). *)
Definition ENODEV : Z := 19.

(** The exceptions the loop distinguishes: [Device::error], caught first,
    and any other [std::exception]. *)
Inductive exn :=
  | DeviceError (code : keyleds_error_t) (what : string)
  | StdException (what : string).

Inductive outcome (A : Type) :=
  | Returned (a : A)
  | Raised (e : exn)
  | Faulted
  | OutOfFuel.
Arguments Returned {A} a.
Arguments Raised {A} e.
Arguments Faulted {A}.
Arguments OutOfFuel {A}.

(** ** The device collaborator *)

(** Modelled from the spec: [Device::KeyBlock] is declared in
    [keyledsd/Device.h], which is not available; a block descriptor exposes
    "[keys()] -> ordered sequence of key identifiers". *)
Record KeyBlock := mkBlock { keys : list Z }.

(** Modelled from the spec: [keyleds::Device] is declared in
    [keyledsd/Device.h], which is not available.  These are the operations
    "the core consumes": [flush], [setColors], [commitColors] and
    [getColors] may raise, [setTimeout] returns nothing, [resync] reports
    "success/failure".  [D] is the transport's internal state; it includes
    the thread's [errno], which line 198 reads. *)
Class DeviceOps (D : Type) := {
  flush : D -> option exn * D;
  setColors : KeyBlock -> list ColorDirective -> D -> option exn * D;
  commitColors : D -> option exn * D;
  getColors : KeyBlock -> D -> (exn + list ColorDirective) * D;
  setTimeout : Z -> D -> D;
  resync : D -> bool * D;
  errno : D -> Z
}.

Inductive device_call :=
  | call_flush
  | call_setColors (block : KeyBlock) (directives : list ColorDirective)
  | call_commitColors
  | call_getColors (block : KeyBlock)
  | call_setTimeout (us : Z)
  | call_resync.

(** A device: its fixed block layout, the transport state and the record of
    every operation invoked on it so far. *)
Record Device (D : Type) := mkDevice
  { blocks : list KeyBlock;
    hw : D;
    calls : list device_call }.
Arguments mkDevice {D} _ _ _.
Arguments blocks {D} _.
Arguments hw {D} _.
Arguments calls {D} _.

(** ** Renderers and the scheduler *)

(** Modelled from the spec: the [Renderer] interface is declared in a
    header that is not available.  Its single operation
    [render(elapsedNanoseconds, target)] "paints zero or more cells of
    target": a renderer looks at the target through [get] and paints a list
    of cells [(block, index, colour)], in order. *)
Definition Renderer : Type :=
  Z -> (nat -> nat -> option RGBAColor) -> list (nat * nat * RGBAColor).

(** What happens around the loop's thread, in order: the scheduler fires a
    tick with the elapsed time, or another thread installs renderers.  When
    nothing is left the loop has been asked to stop. *)
Inductive event :=
  | Tick (nanosec : Z)
  | InstallRenderers (renderers : list Renderer).

(** ** The render loop object and the world it runs in *)

Record RenderLoop := mkLoop
  { m_renderers : list Renderer;
    m_state : RenderTarget.t;
    m_buffer : RenderTarget.t;
    m_directives : list ColorDirective }.

Record world (D : Type) := mkWorld
  { mem : heap;
    device : Device D;
    loop : RenderLoop;
    errors : list string;
    pending : list event }.
Arguments mkWorld {D} _ _ _ _ _.
Arguments mem {D} _.
Arguments device {D} _.
Arguments loop {D} _.
Arguments errors {D} _.
Arguments pending {D} _.

Definition set_mem {D} (h : heap) (w : world D) : world D :=
  mkWorld h (device w) (loop w) (errors w) (pending w).
Definition set_device {D} (d : Device D) (w : world D) : world D :=
  mkWorld (mem w) d (loop w) (errors w) (pending w).
Definition set_loop {D} (l : RenderLoop) (w : world D) : world D :=
  mkWorld (mem w) (device w) l (errors w) (pending w).
Definition set_errors {D} (e : list string) (w : world D) : world D :=
  mkWorld (mem w) (device w) (loop w) e (pending w).
Definition set_pending {D} (p : list event) (w : world D) : world D :=
  mkWorld (mem w) (device w) (loop w) (errors w) p.

(** ** Computations *)

Definition M (D A : Type) : Type := world D -> outcome A * world D.

Definition ret {D A} (a : A) : M D A := fun w => (Returned a, w).

Definition bind {D A B} (m : M D A) (k : A -> M D B) : M D B :=
  fun w =>
    match m w with
    | (Returned a, w') => k a w'
    | (Raised e, w') => (Raised e, w')
    | (Faulted, w') => (Faulted, w')
    | (OutOfFuel, w') => (OutOfFuel, w')
    end.

Notation "'let*' x ':=' m 'in' k" := (bind m (fun x => k))
  (at level 10, x name, m at level 100, k at level 200, only parsing).
Notation "m '>>' k" := (bind m (fun _ => k))
  (at level 80, right associativity, only parsing).

Definition gets {D A} (f : world D -> A) : M D A := fun w => (Returned (f w), w).
Definition modify {D} (f : world D -> world D) : M D unit :=
  fun w => (Returned tt, f w).
Definition throw {D A} (e : exn) : M D A := fun w => (Raised e, w).
Definition fault {D A} : M D A := fun w => (Faulted, w).
Definition out_of_fuel {D A} : M D A := fun w => (OutOfFuel, w).

(** A value that must exist; its absence is a precondition violation. *)
Definition expect {D A} (o : option A) : M D A :=
  match o with Some a => ret a | None => fault end.

(** [try { body } catch (...) { handler }]: [handler e = None] when no
    [catch] clause matches [e]. *)
Definition try_catch {D A} (body : M D A) (handler : exn -> option (M D A))
  : M D A :=
  fun w =>
    match body w with
    | (Raised e, w') =>
        match handler e with
        | Some h => h w'
        | None => (Raised e, w')
        end
    | r => r
    end.

(** [for (x : xs) body] and [for (i = 0; i < n; ++i) body] over [seq 0 n]. *)
Fixpoint for_each {D A} (xs : list A) (body : A -> M D unit) : M D unit :=
  match xs with
  | [] => ret tt
  | x :: rest => body x >> for_each rest body
  end.

(** The same loop carrying a local variable. *)
Fixpoint for_fold {D A B} (xs : list A) (acc : B) (body : A -> B -> M D B)
  : M D B :=
  match xs with
  | [] => ret acc
  | x :: rest => let* acc' := body x acc in for_fold rest acc' body
  end.

(** Modelled from the spec: the macro [ERROR] comes from [logging.h], which
    is not available; a fault produces "one log line with the error
    description".  The line is the concatenation of the arguments. *)
Definition ERROR {D} (line : string) : M D unit :=
  modify (fun w => set_errors (errors w ++ [line]) w).

(** ** Device operations as the loop invokes them *)

Definition record_call {D} (c : device_call) (hw' : D) (w : world D) : world D :=
  set_device (mkDevice (blocks (device w)) hw' (calls (device w) ++ [c])) w.

Definition raising {D} (c : device_call) (op : D -> option exn * D) : M D unit :=
  fun w =>
    let '(r, hw') := op (hw (device w)) in
    (match r with None => Returned tt | Some e => Raised e end,
     record_call c hw' w).

Definition device_flush {D} `{DeviceOps D} : M D unit :=
  raising call_flush flush.

Definition device_setColors {D} `{DeviceOps D}
  (block : KeyBlock) (directives : list ColorDirective) : M D unit :=
  raising (call_setColors block directives) (setColors block directives).

Definition device_commitColors {D} `{DeviceOps D} : M D unit :=
  raising call_commitColors commitColors.

Definition device_getColors {D} `{DeviceOps D} (block : KeyBlock)
  : M D (list ColorDirective) :=
  fun w =>
    let '(r, hw') := getColors block (hw (device w)) in
    (match r with inr colors => Returned colors | inl e => Raised e end,
     record_call (call_getColors block) hw' w).

Definition device_setTimeout {D} `{DeviceOps D} (us : Z) : M D unit :=
  fun w =>
    (Returned tt,
     record_call (call_setTimeout us) (setTimeout us (hw (device w))) w).

Definition device_resync {D} `{DeviceOps D} : M D bool :=
  fun w =>
    let '(ok, hw') := resync (hw (device w)) in
    (Returned ok, record_call call_resync hw' w).

(** ** RenderLoop *)

(** [RenderLoop::renderTargetFor(const Device &)] *)
Definition renderTargetFor {D} (dev : Device D) (reply : alloc_reply) (h : heap)
  : option (RenderTarget.t * heap) :=
  let block_sizes :=
    foldl (fun sizes block => sizes ++ [Z.of_nat (length (keys block))])
          [] (blocks dev) in
  RenderTarget.create block_sizes reply h.

(** [RenderLoop::RenderLoop(Device &, renderer_list, unsigned fps)]:
    [m_state] is built before [m_buffer]; [None] when an allocation fails.
    [m_directives.reserve(max)] only sets a capacity. *)
Definition RenderLoop_create {D} (dev : Device D) (renderers : list Renderer)
  (reply_state reply_buffer : alloc_reply) (h : heap)
  : option (RenderLoop * heap) :=
  match renderTargetFor dev reply_state h with
  | None => None
  | Some (state, h1) =>
      match renderTargetFor dev reply_buffer h1 with
      | None => None
      | Some (buffer, h2) =>
          Some ({| m_renderers := renderers;
                   m_state := state;
                   m_buffer := buffer;
                   m_directives := [] |}, h2)
      end
  end.

(** Lines 107-110 of the constructor: the capacity reserved for
    [m_directives], the largest number of keys of a block. *)
Definition directives_reserve {D} (dev : Device D) : Z :=
  foldl (fun max block => Z.max max (Z.of_nat (length (keys block))))
        0 (blocks dev).

(** [RenderLoop::setRenderers(renderer_list)] *)
Definition setRenderers {D} (renderers : list Renderer) : M D unit :=
  modify (fun w =>
    set_loop {| m_renderers := renderers;
                m_state := m_state (loop w);
                m_buffer := m_buffer (loop w);
                m_directives := m_directives (loop w) |} w).

(** [color = ...] through the reference returned by [get]. *)
Definition target_read {D} (target : RenderTarget.t) (bidx idx : nat)
  : M D RGBAColor :=
  let* h := gets mem in expect (RenderTarget.read h target bidx idx).

Definition target_update {D} (target : RenderTarget.t) (bidx idx : nat)
  (f : RGBAColor -> RGBAColor) : M D unit :=
  let* h := gets mem in
  let* old := expect (RenderTarget.read h target bidx idx) in
  let* h' := expect (RenderTarget.write h target bidx idx (f old)) in
  modify (set_mem h').

(** [renderer->render(nanosec, target)] *)
Definition Renderer_render {D} (renderer : Renderer) (nanosec : Z)
  (target : RenderTarget.t) : M D unit :=
  let* h := gets mem in
  for_each (renderer nanosec (RenderTarget.read h target))
           (fun '(bidx, idx, c) => target_update target bidx idx (fun _ => c)).

Definition directives_clear {D} : M D unit :=
  modify (fun w =>
    set_loop {| m_renderers := m_renderers (loop w);
                m_state := m_state (loop w);
                m_buffer := m_buffer (loop w);
                m_directives := [] |} w).

Definition directives_push_back {D} (d : ColorDirective) : M D unit :=
  modify (fun w =>
    set_loop {| m_renderers := m_renderers (loop w);
                m_state := m_state (loop w);
                m_buffer := m_buffer (loop w);
                m_directives := m_directives (loop w) ++ [d] |} w).

(** [swap(m_state, m_buffer)] *)
Definition swap_state_buffer {D} : M D unit :=
  modify (fun w =>
    let '(state, buffer) :=
      RenderTarget.swap (m_state (loop w)) (m_buffer (loop w)) in
    set_loop {| m_renderers := m_renderers (loop w);
                m_state := state;
                m_buffer := buffer;
                m_directives := m_directives (loop w) |} w).

(** Lines 139-141: every renderer paints into [m_buffer]. *)
Definition run_renderers {D} (nanosec : Z) : M D unit :=
  let* renderers := gets (fun w => m_renderers (loop w)) in
  for_each renderers (fun renderer =>
    let* buffer := gets (fun w => m_buffer (loop w)) in
    Renderer_render renderer nanosec buffer).

(** Lines 156-161: the body of the loop over the keys of a block. *)
Definition diff_key {D} (block : KeyBlock) (bidx idx : nat) : M D unit :=
  let* buffer := gets (fun w => m_buffer (loop w)) in
  let* state := gets (fun w => m_state (loop w)) in
  let* color := target_read buffer bidx idx in
  let* current := target_read state bidx idx in
  if RGBAColor_neq color current then
    let* key := expect (keys block !! idx) in
    directives_push_back
      {| d_id := key; d_red := red color;
         d_green := green color; d_blue := blue color |}
  else ret tt.

(** Lines 152-166: the body of the loop over blocks. *)
Definition diff_block {D} `{DeviceOps D} (bidx : nat) (hasChanges : bool)
  : M D bool :=
  let* block := let* bs := gets (fun w => blocks (device w)) in expect (bs !! bidx) in
  let nKeys := length (keys block) in
  directives_clear >>
  for_each (seq 0 nKeys) (diff_key block bidx) >>
  let* directives := gets (fun w => m_directives (loop w)) in
  if negb (bool_decide (directives = [])) then
    device_setColors block directives >>
    ret true
  else ret hasChanges.

(** Lines 144-172: what [render] does when renderers are installed. *)
Definition diff_and_send {D} `{DeviceOps D} : M D unit :=
  device_flush >>
  let* nBlocks := gets (fun w => length (blocks (device w))) in
  let* hasChanges := for_fold (seq 0 nBlocks) false diff_block in
  (if hasChanges : bool then device_commitColors else ret tt) >>
  swap_state_buffer.

(** [bool RenderLoop::render(unsigned long nanosec)] *)
Definition render {D} `{DeviceOps D} (nanosec : Z) : M D bool :=
  let* hasRenderers :=
    gets (fun w => negb (bool_decide (m_renderers (loop w) = []))) in
  run_renderers nanosec >>
  (if hasRenderers : bool then diff_and_send else ret tt) >>
  ret true.

(** Lines 215-219: the four assignments through [auto & color]. *)
Definition store_device_color {D} (state : RenderTarget.t)
  (block_idx idx : nat) (c : ColorDirective) : M D unit :=
  target_update state block_idx idx
    (fun color => mkRGBA (d_red c) (green color) (blue color) (alpha color)) >>
  target_update state block_idx idx
    (fun color => mkRGBA (red color) (d_green c) (blue color) (alpha color)) >>
  target_update state block_idx idx
    (fun color => mkRGBA (red color) (green color) (d_blue c) (alpha color)) >>
  target_update state block_idx idx
    (fun color => mkRGBA (red color) (green color) (blue color) 255).

(** Lines 212-220: the body of the loop over blocks. *)
Definition read_block_state {D} `{DeviceOps D} (bs : list KeyBlock)
  (state : RenderTarget.t) (block_idx : nat) : M D unit :=
  let* block := expect (bs !! block_idx) in
  let* colors := device_getColors block in
  for_each (seq 0 (length colors)) (fun idx =>
    let* c := expect (colors !! idx) in
    store_device_color state block_idx idx c).

(** [void RenderLoop::getDeviceState(RenderTarget & state)] *)
Definition getDeviceState {D} `{DeviceOps D} (state : RenderTarget.t) : M D unit :=
  let* bs := gets (fun w => blocks (device w)) in
  for_each (seq 0 (length bs)) (read_block_state bs state).

(** Modelled from the spec: [tools::AnimationLoop::run] is not available.
    The spec's periodic invoker repeatedly "invoke[s] the step callback with
    the elapsed time since the previous invocation" and returns when "the
    callback signals stop" or a stop was requested, which it "observes at
    the next iteration boundary".  Sleeping is not represented; the elapsed
    times and the activity of other threads come from [pending]. *)
Fixpoint AnimationLoop_steps {D} `{DeviceOps D} (events : list event) : M D unit :=
  match events with
  | [] => ret tt
  | ev :: rest =>
      modify (set_pending rest) >>
      match ev with
      | InstallRenderers renderers =>
          setRenderers renderers >> AnimationLoop_steps rest
      | Tick nanosec =>
          let* continue := render nanosec in
          if continue : bool then AnimationLoop_steps rest else ret tt
      end
  end.

Definition AnimationLoop_run {D} `{DeviceOps D} : M D unit :=
  let* events := gets pending in AnimationLoop_steps events.

(** Lines 190-195, one pass of the [for (;;)] loop:
    [try { AnimationLoop::run(); break; }
     catch (Device::error &) { if (!m_device.resync()) { throw; } }].
    The result tells whether the loop goes round again. *)
Definition attempt {D} `{DeviceOps D} : M D bool :=
  try_catch (AnimationLoop_run >> ret false)
    (fun error =>
       match error with
       | DeviceError _ _ =>
           Some (let* ok := device_resync in
                 if ok : bool then ret true else throw error)
       | StdException _ => None
       end).

(** Lines 189-196: the [for (;;)] loop. *)
Fixpoint recovery_loop {D} `{DeviceOps D} (fuel : nat) : M D unit :=
  match fuel with
  | O => out_of_fuel
  | S fuel' =>
      let* again := attempt in
      if again : bool then recovery_loop fuel' else ret tt
  end.

(** The [for (;;)] loop with all the passes it needs: every pass that is
    repeated has consumed an event, so one more pass than there are pending
    events is always enough. *)
Definition recovery {D} `{DeviceOps D} : M D unit :=
  let* events := gets pending in recovery_loop (S (length events)).

(** The condition of lines 198-199. *)
Definition expected_at_exit (code : keyleds_error_t) (errno_now : Z) : bool :=
  (bool_decide (code = KEYLEDS_ERROR_ERRNO) && bool_decide (errno_now = ENODEV))
  || bool_decide (code = KEYLEDS_ERROR_TIMEDOUT).

(** Lines 197-204: the two [catch] clauses around the recovery loop. *)
Definition exit_handler {D} `{DeviceOps D} (error : exn) : option (M D unit) :=
  match error with
  | DeviceError code what =>
      Some (let* errno_now := gets (fun w => errno (hw (device w))) in
            if negb (expected_at_exit code errno_now)
            then ERROR ("device error: " +:+ what)
            else ret tt)
  | StdException what => Some (ERROR what)
  end.

(** Lines 186-204: what [run] does once the device state has been read. *)
Definition run_periodic {D} `{DeviceOps D} : M D unit :=
  device_setTimeout 0 >>
  try_catch recovery exit_handler.

(** [void RenderLoop::run()] *)
Definition run {D} `{DeviceOps D} : M D unit :=
  let* returned :=
    try_catch (let* state := gets (fun w => m_state (loop w)) in
               getDeviceState state >> ret false)
      (fun error =>
         match error with
         | DeviceError _ what => Some (ERROR ("device error: " +:+ what) >> ret true)
         | StdException _ => None
         end) in
  if returned : bool then ret tt else run_periodic.

(** ** The specification's vocabulary *)

(** "Rounded up to a multiple of the alignment-derived cell count". *)
Definition round_up (x : Z) : Z :=
  RenderTarget.align_colors *
  ((x + RenderTarget.align_colors - 1) / RenderTarget.align_colors).

(** The layout the specification describes, in unbounded arithmetic: the
    start of every block, and the padded total, from a running total. *)
Fixpoint layout_from (total : Z) (block_sizes : list Z) : list Z * Z :=
  match block_sizes with
  | [] => ([], total)
  | nbColors :: rest =>
      let '(starts, final) := layout_from (round_up (total + nbColors)) rest in
      (total :: starts, final)
  end.

Definition block_starts (block_sizes : list Z) : list Z :=
  fst (layout_from 0 block_sizes).

Definition padded_total (block_sizes : list Z) : Z :=
  snd (layout_from 0 block_sizes).

Definition total_keys (block_sizes : list Z) : Z := foldr Z.add 0 block_sizes.

(** What C3 says of a target [rt] built from [sizes], taking the heap from
    [h] to [h']: one fresh region [r] holds all the cells; the first block
    starts at cell 0 and each later one at the previous block's end rounded
    up; every start is a multiple of [align_colors] = 8; [size()] is the
    number of cells allocated and at least the number of keys; valid
    (block, index) pairs address cells of the region, different pairs
    different cells. *)
Definition laid_out (sizes : list Z) (h : heap) (rt : RenderTarget.t)
  (h' : heap) : Prop :=
  exists (r : nat) (cells : list RGBAColor),
    h !! r = None /\ h' = <[r := cells]> h /\
    RenderTarget.m_colors rt = Ptr r 0 /\
    RenderTarget.m_blocks rt = Ptr r <$> block_starts sizes /\
    length (block_starts sizes) = length sizes /\
    (forall start, block_starts sizes !! 0%nat = Some start -> start = 0) /\
    (forall b n start next,
        sizes !! b = Some n -> block_starts sizes !! b = Some start ->
        block_starts sizes !! S b = Some next -> next = round_up (start + n)) /\
    Forall (fun start => start mod RenderTarget.align_colors = 0)
           (block_starts sizes) /\
    RenderTarget.align_colors = 8 /\
    RenderTarget.size rt = Z.of_nat (length cells) /\
    total_keys sizes <= RenderTarget.size rt /\
    (forall b n i, sizes !! b = Some n -> Z.of_nat i < n ->
       exists k, RenderTarget.get rt b i = Some (Ptr r k) /\
                 0 <= k < Z.of_nat (length cells)) /\
    (forall b n i b' n' i' p,
       sizes !! b = Some n -> Z.of_nat i < n ->
       sizes !! b' = Some n' -> Z.of_nat i' < n' ->
       RenderTarget.get rt b i = Some p -> RenderTarget.get rt b' i' = Some p ->
       b = b' /\ i = i').

(** The block-size sequence of a device: one key count per block. *)
Definition key_counts (bs : list KeyBlock) : list Z :=
  (fun block => Z.of_nat (length (keys block))) <$> bs.

(** A target over region [r] laid out for [sizes]. *)
Definition target_in (r : nat) (sizes : list Z) : RenderTarget.t :=
  RenderTarget.mk (Ptr r 0) (padded_total sizes) (Ptr r <$> block_starts sizes).

(** "On mismatch append a directive carrying the key identifier and RGB
    channels": the directive key [idx] of block [bidx] gives rise to, if
    any. *)
Definition directive_for (h : heap) (buffer state : RenderTarget.t)
  (block : KeyBlock) (bidx idx : nat) : option ColorDirective :=
  key ← keys block !! idx;
  color ← RenderTarget.read h buffer bidx idx;
  current ← RenderTarget.read h state bidx idx;
  if decide (color = current) then None
  else Some (mkDirective key (red color) (green color) (blue color)).

(** The directives of one block, in key order. *)
Definition block_directives (h : heap) (buffer state : RenderTarget.t)
  (bidx : nat) (block : KeyBlock) : list ColorDirective :=
  omap (directive_for h buffer state block bidx) (seq 0 (length (keys block))).

(** "If any directives were produced for the block, send them to the device
    for that block". *)
Definition block_calls (h : heap) (buffer state : RenderTarget.t)
  (bidx : nat) (block : KeyBlock) : list device_call :=
  let directives := block_directives h buffer state bidx block in
  if decide (directives = []) then []
  else [call_setColors block directives].

(** The device operations of the diff of blocks [first, first + length bs). *)
Fixpoint diff_calls (h : heap) (buffer state : RenderTarget.t)
  (first : nat) (bs : list KeyBlock) : list device_call :=
  match bs with
  | [] => []
  | block :: rest =>
      block_calls h buffer state first block
      ++ diff_calls h buffer state (S first) rest
  end.

(** "If any block produced directives, commit the accumulated writes". *)
Definition commit_calls (sent : list device_call) : list device_call :=
  if decide (sent = []) then [] else [call_commitColors].

(** Every cell a (block, index) pair of the device can address is readable
    through the target. *)
Definition addressable (h : heap) (target : RenderTarget.t)
  (bs : list KeyBlock) : Prop :=
  forall (bidx idx : nat) (block : KeyBlock),
    bs !! bidx = Some block -> (idx < length (keys block))%nat ->
    is_Some (RenderTarget.read h target bidx idx).

(** What the device answers to one [getColors] per block, in block order:
    the colours of every block, or the first exception raised. *)
Fixpoint read_colors {D} `{DeviceOps D} (bs : list KeyBlock) (d : D)
  : (exn + list (list ColorDirective)) * D :=
  match bs with
  | [] => (inr [], d)
  | block :: rest =>
      match getColors block d with
      | (inl e, d') => (inl e, d')
      | (inr colors, d') =>
          match read_colors rest d' with
          | (inl e, d'') => (inl e, d'')
          | (inr more, d'') => (inr (colors :: more), d'')
          end
      end
  end.

(** Different valid (block, index) pairs address different cells. *)
Definition distinct_cells (target : RenderTarget.t) (bs : list KeyBlock) : Prop :=
  forall bidx block idx bidx' block' idx' p,
    bs !! bidx = Some block -> (idx < length (keys block))%nat ->
    bs !! bidx' = Some block' -> (idx' < length (keys block'))%nat ->
    RenderTarget.get target bidx idx = Some p ->
    RenderTarget.get target bidx' idx' = Some p ->
    bidx = bidx' /\ idx = idx'.

(** The colours [getDeviceState] leaves in a cell. *)
Definition opaque (c : ColorDirective) : RGBAColor :=
  mkRGBA (d_red c) (d_green c) (d_blue c) 255.

(** The error line [run] prints for an exception that ends the periodic
    phase, if any. *)
Definition exit_lines (error : exn) (errno_now : Z) : list string :=
  match error with
  | DeviceError code what =>
      if decide ((code = KEYLEDS_ERROR_ERRNO /\ errno_now = ENODEV)
                 \/ code = KEYLEDS_ERROR_TIMEDOUT)
      then [] else ["device error: " +:+ what]
  | StdException what => [what]
  end.

(** Sample colours for the examples. *)
Definition black : RGBAColor := mkRGBA 0 0 0 0.
Definition red_color : RGBAColor := mkRGBA 255 0 0 255.
Definition blue_color : RGBAColor := mkRGBA 0 0 255 255.

(** ** A scripted device

    A stand-in for the hardware: [failures] decides, call after call,
    whether the next raising operation succeeds; [resyncs] answers
    successive [resync] calls; [lit] holds the colours last sent. *)
Record Scripted := mkScripted
  { failures : list (option exn);
    resyncs : list bool;
    sys_errno : Z;
    lit : list ColorDirective }.

Definition Scripted_next (d : Scripted) : option exn * Scripted :=
  match failures d with
  | [] => (None, d)
  | r :: rest => (r, mkScripted rest (resyncs d) (sys_errno d) (lit d))
  end.

Definition Scripted_color (d : Scripted) (key : Z) : ColorDirective :=
  default (mkDirective key 0 0 0)
          (head (filter (fun c => d_id c = key) (lit d))).

Global Instance Scripted_ops : DeviceOps Scripted := {|
  flush := Scripted_next;
  setColors := fun block directives d =>
    match Scripted_next d with
    | (None, d') =>
        (None, mkScripted (failures d') (resyncs d') (sys_errno d')
                          (directives ++ lit d'))
    | r => r
    end;
  commitColors := Scripted_next;
  getColors := fun block d =>
    match Scripted_next d with
    | (None, d') => (inr (Scripted_color d' <$> keys block), d')
    | (Some e, d') => (inl e, d')
    end;
  setTimeout := fun _ d => d;
  resync := fun d =>
    match resyncs d with
    | [] => (false, d)
    | ok :: rest => (ok, mkScripted (failures d) rest (sys_errno d) (lit d))
    end;
  errno := sys_errno
|}.

(** ** A sample keyboard

    Two blocks of five and three keys behind a scripted device, and a loop
    built for it by the constructor. *)
Definition sample_blocks : list KeyBlock :=
  [mkBlock [10; 11; 12; 13; 14]; mkBlock [20; 21; 22]].

Definition sample_device (d : Scripted) : Device Scripted :=
  mkDevice sample_blocks d [].

Definition reliable : Scripted := mkScripted [] [] 0 [].

(** A renderer that paints key 3 of block 0 red and key 0 of block 1 blue. *)
Definition painter : Renderer :=
  fun _ _ => [(0%nat, 3%nat, red_color); (1%nat, 0%nat, blue_color)].

Definition sample_world (renderers : list Renderer) (d : Scripted)
  (events : list event) (in_state in_buffer : nat -> RGBAColor)
  : world Scripted :=
  match RenderLoop_create (sample_device d) renderers
          (Allocated in_state) (Allocated in_buffer) ∅ with
  | Some (l, h) => mkWorld h (sample_device d) l [] events
  | None =>
      mkWorld ∅ (sample_device d)
        (mkLoop renderers (RenderTarget.mk nullptr 0 [])
                (RenderTarget.mk nullptr 0 []) []) [] events
  end.

(** A renderer that paints nothing. *)
Definition idle_renderer : Renderer := fun _ _ => [].

(** The sample loop with [painter] installed, both buffers black. *)
Definition w_paint : world Scripted :=
  sample_world [painter] reliable [] (fun _ => black) (fun _ => black).

(** The sample loop with no renderer, the scratch buffer red. *)
Definition w_idle : world Scripted :=
  sample_world [] reliable [] (fun _ => black) (fun _ => red_color).

(** The sample loop with a renderer that changes nothing. *)
Definition w_quiet : world Scripted :=
  sample_world [idle_renderer] reliable [] (fun _ => black) (fun _ => black).

(** Device errors for the examples. *)
Definition transient : exn := DeviceError (KEYLEDS_ERROR_other 2) "transient".
Definition vanished : exn := DeviceError KEYLEDS_ERROR_ERRNO "No such device".

(** The first [flush] fails with a transient error and [resync] succeeds. *)
Definition w_transient : world Scripted :=
  sample_world [painter] (mkScripted [None; None; Some transient] [true] 0 [])
               [Tick 1; Tick 2] (fun _ => black) (fun _ => black).

(** The first [flush] finds the device gone and [resync] fails. *)
Definition w_vanished : world Scripted :=
  sample_world [painter] (mkScripted [None; None; Some vanished] [] ENODEV [])
               [Tick 1; Tick 2] (fun _ => black) (fun _ => black).

(** The very first [getColors] fails. *)
Definition w_unreadable : world Scripted :=
  sample_world [painter] (mkScripted [Some transient] [] 0 [])
               [Tick 1] (fun _ => black) (fun _ => black).

(** A healthy device whose keys are lit red, and two ticks to run. *)
Definition w_healthy : world Scripted :=
  sample_world [painter]
    (mkScripted [] [] 0 [mkDirective 11 255 0 0; mkDirective 21 255 0 0])
    [Tick 1; Tick 2] (fun _ => black) (fun _ => black).

(** The first [flush] fails with a transient error and [resync] fails. *)
Definition w_broken : world Scripted :=
  sample_world [painter] (mkScripted [None; None; Some transient] [] 0 [])
               [Tick 1; Tick 2] (fun _ => black) (fun _ => black).

(** A freshly built loop whose scratch buffer the allocator left red. *)
Definition w_garbage : world Scripted :=
  sample_world [painter] reliable [Tick 1]
               (fun _ => black) (fun _ => red_color).

(** The world in which [run] enters its recovery loop. *)
Definition entering_recovery (w : world Scripted) : world Scripted :=
  snd (device_setTimeout 0 (snd (getDeviceState (m_state (loop w)) w))).

(** ** A device that answers by rote

    A stand-in whose [getColors] answers every block with the same list of
    colours, whatever the number of keys of the block; its other
    operations succeed and do nothing. *)
Record Rote := mkRote { answer : list ColorDirective }.

Global Instance Rote_ops : DeviceOps Rote := {|
  flush := fun d => (None, d);
  setColors := fun _ _ d => (None, d);
  commitColors := fun d => (None, d);
  getColors := fun _ d => (inr (answer d), d);
  setTimeout := fun _ d => d;
  resync := fun d => (true, d);
  errno := fun _ => 0
|}.

(** The sample keyboard behind a device that answers [colors], both
    buffers black. *)
Definition w_rote (colors : list ColorDirective) : world Rote :=
  let dev := mkDevice sample_blocks (mkRote colors) [] in
  match RenderLoop_create dev [] (Allocated (fun _ => black))
          (Allocated (fun _ => black)) ∅ with
  | Some (l, h) => mkWorld h dev l [] []
  | None =>
      mkWorld ∅ dev
        (mkLoop [] (RenderTarget.mk nullptr 0 [])
                (RenderTarget.mk nullptr 0 []) []) [] []
  end.

(** [n] colours, the [k]-th with identifier and red channel [k]. *)
Definition numbered (n : nat) : list ColorDirective :=
  (fun k => mkDirective (Z.of_nat k) (Z.of_nat k) 0 0) <$> seq 0 n.

(** A renderer that paints key 3 of block 0 red when a millisecond has
    elapsed and nothing otherwise, and the sample loop with it installed. *)
Definition flash : Renderer :=
  fun nanosec _ =>
    if bool_decide (nanosec = 1000000) then [(0%nat, 3%nat, red_color)]
    else [].

Definition w_flash : world Scripted :=
  sample_world [flash] reliable [] (fun _ => black) (fun _ => black).

(** ** Auxiliary notions for the proofs *)

(** A computation leaves an observation of the world unchanged, whatever
    its outcome. *)
Definition preserves {D A X} (f : world D -> X) (m : M D A) : Prop :=
  forall w, f (snd (m w)) = f w.

(** A computation never runs out of fuel. *)
Definition fueled {D A} (m : M D A) : Prop :=
  forall w, fst (m w) <> OutOfFuel.

Definition with_directives {D} (ds : list ColorDirective) (w : world D)
  : world D :=
  set_loop {| m_renderers := m_renderers (loop w);
              m_state := m_state (loop w);
              m_buffer := m_buffer (loop w);
              m_directives := ds |} w.

(** Observations that do not look at the device's transport and call log,
    at the heap, at the directive list, or at the loop object. *)
Definition device_blind {D X} (f : world D -> X) : Prop :=
  forall c hw' w, f (record_call c hw' w) = f w.

Definition mem_blind {D X} (f : world D -> X) : Prop :=
  forall h w, f (set_mem h w) = f w.

Definition directives_blind {D X} (f : world D -> X) : Prop :=
  forall ds w, f (with_directives ds w) = f w.

Definition loop_blind {D X} (f : world D -> X) : Prop :=
  forall l w, f (set_loop l w) = f w.

Definition pending_blind {D X} (f : world D -> X) : Prop :=
  forall p w, f (set_pending p w) = f w.

Definition errors_blind {D X} (f : world D -> X) : Prop :=
  forall e w, f (set_errors e w) = f w.

(** The two targets of the loop. *)
Definition loop_targets_of {D} (w : world D) : RenderTarget.t * RenderTarget.t :=
  (m_state (loop w), m_buffer (loop w)).

(** The block offsets as the constructor's second loop computes them, in
    [size_t] arithmetic, from a running total. *)
Fixpoint offsets_from (totalColors : Z) (block_sizes : list Z) : list Z :=
  match block_sizes with
  | [] => []
  | nbColors :: rest =>
      totalColors
      :: offsets_from
           (RenderTarget.align (wrap (totalColors + nbColors))
                               RenderTarget.align_colors) rest
  end.

(** Every device operation a computation invokes satisfies [P]. *)
Definition appends {D A} (P : device_call -> Prop) (m : M D A) : Prop :=
  forall w, exists invoked,
    calls (device (snd (m w))) = calls (device w) ++ invoked /\
    Forall P invoked.

(** The operations of a write cycle: [flush], [setColors], [commitColors]. *)
Definition is_write (c : device_call) : Prop :=
  match c with
  | call_flush | call_setColors _ _ | call_commitColors => True
  | _ => False
  end.

Definition is_setColors (c : device_call) : Prop :=
  match c with call_setColors _ _ => True | _ => False end.

Definition is_getColors (c : device_call) : Prop :=
  match c with call_getColors _ => True | _ => False end.

(** What the recovery loop may invoke: a write cycle's operations and
    [resync]. *)
Definition is_write_or_resync (c : device_call) : Prop :=
  match c with
  | call_flush | call_setColors _ _ | call_commitColors | call_resync => True
  | _ => False
  end.

(** A [setColors] of a tick on a device with blocks [bs]: it names one of
    the blocks and carries at least one directive, the directives' keys
    being keys of that block in the block's order. *)
Definition sends_block_keys (bs : list KeyBlock) (c : device_call) : Prop :=
  match c with
  | call_setColors block ds =>
      block ∈ bs /\ ds <> [] /\ (d_id <$> ds) `sublist_of` keys block
  | _ => False
  end.

(** A device operation whose directive list, if it has one, fits the
    capacity [cap]. *)
Definition fits_reserve (cap : Z) (c : device_call) : Prop :=
  match c with
  | call_setColors _ ds => Z.of_nat (length ds) <= cap
  | _ => True
  end.

(** The key loop of lines 155-162 as a function: the directives pushed and
    whether every cell could be read. *)
Fixpoint scan (h : heap) (buffer state : RenderTarget.t) (block : KeyBlock)
  (bidx : nat) (idxs : list nat) : list ColorDirective * bool :=
  match idxs with
  | [] => ([], true)
  | idx :: rest =>
      match RenderTarget.read h buffer bidx idx,
            RenderTarget.read h state bidx idx with
      | Some color, Some current =>
          if RGBAColor_neq color current then
            match keys block !! idx with
            | Some key =>
                let '(ds, ok) := scan h buffer state block bidx rest in
                (mkDirective key (red color) (green color) (blue color) :: ds, ok)
            | None => ([], false)
            end
          else scan h buffer state block bidx rest
      | _, _ => ([], false)
      end
  end.

(** * Properties *)

(** ** Alignment arithmetic *)

Section Alignment.

Import RenderTarget.

Lemma align_colors_is_8 : align_colors = 8.
Proof. reflexivity. Qed.

Lemma round_up_unfold x : round_up x = 8 * ((x + 7) / 8).
Proof. unfold round_up. rewrite align_colors_is_8. f_equal. f_equal. lia. Qed.

Lemma round_up_bounds x : x <= round_up x < x + 8.
Proof.
  rewrite round_up_unfold.
  pose proof (Z.div_mod (x + 7) 8 ltac:(lia)).
  pose proof (Z.mod_pos_bound (x + 7) 8 ltac:(lia)). lia.
Qed.

Lemma round_up_multiple x : round_up x mod align_colors = 0.
Proof.
  rewrite round_up_unfold, align_colors_is_8, Z.mul_comm. apply Z.mod_mul. lia.
Qed.

Lemma land_clear_low3 x :
  0 <= x < size_t_modulus ->
  Z.land x (wrap (Z.lnot 7)) = 8 * (x / 8).
Proof.
  intros Hx. unfold wrap, size_t_modulus.
  rewrite <- (Z.land_ones (Z.lnot 7) 64) by lia.
  rewrite (Z.land_comm (Z.lnot 7)), Z.land_assoc.
  rewrite (Z.land_ones x 64) by lia.
  rewrite (Z.mod_small x) by exact Hx.
  rewrite <- Z.ldiff_land.
  change 7 with (Z.ones 3).
  rewrite Z.ldiff_ones_r by lia.
  rewrite Z.shiftl_mul_pow2, Z.shiftr_div_pow2 by lia.
  change (2 ^ 3) with 8. lia.
Qed.

(** Without overflow, [align] rounds up to the next multiple of 8 cells. *)
Lemma align_round_up v :
  0 <= v -> v + 7 < size_t_modulus -> align v align_colors = round_up v.
Proof.
  intros H0 Hlt. unfold align. rewrite align_colors_is_8.
  assert (Hm : size_t_modulus = 2 ^ 64) by reflexivity.
  assert (H8 : wrap (8 - 1) = 7) by reflexivity. rewrite H8.
  assert (Hv : wrap (wrap (v + 8) - 1) = v + 7).
  { unfold wrap.
    destruct (decide (v + 8 < size_t_modulus)) as [Hs|Hs].
    - rewrite (Z.mod_small (v + 8)) by lia. rewrite Z.mod_small by lia. lia.
    - assert (v + 8 = size_t_modulus) as -> by lia.
      rewrite Z.mod_same by (rewrite Hm; lia).
      change (0 - 1) with (-1).
      rewrite Hm in *. assert (v = 2 ^ 64 - 8) as -> by lia. reflexivity. }
  rewrite Hv, land_clear_low3 by lia.
  rewrite round_up_unfold. reflexivity.
Qed.

End Alignment.

(** ** The layout the constructor computes *)

Section Layout.

Import RenderTarget.

Lemma layout_total_ge sizes : forall t,
  Forall is_size_t sizes -> t + total_keys sizes <= snd (layout_from t sizes).
Proof.
  induction sizes as [|n sizes IH]; intros t Hs; simpl.
  - lia.
  - inversion Hs as [|? ? Hn Hrest]; subst.
    specialize (IH (round_up (t + n)) Hrest).
    destruct (layout_from (round_up (t + n)) sizes) as [starts final]; simpl in *.
    pose proof (round_up_bounds (t + n)). unfold is_size_t in Hn. lia.
Qed.

Lemma total_keys_nonneg sizes : Forall is_size_t sizes -> 0 <= total_keys sizes.
Proof.
  induction 1 as [|n sizes Hn _ IH]; simpl; [lia|]. unfold is_size_t in Hn. lia.
Qed.

Lemma layout_length sizes : forall t,
  length (fst (layout_from t sizes)) = length sizes.
Proof.
  induction sizes as [|n sizes IH]; intros t; simpl; [done|].
  specialize (IH (round_up (t + n))).
  destruct (layout_from (round_up (t + n)) sizes); simpl in *. by rewrite IH.
Qed.

Lemma layout_multiples sizes : forall t,
  t mod align_colors = 0 ->
  Forall (fun start => start mod align_colors = 0) (fst (layout_from t sizes)).
Proof.
  induction sizes as [|n sizes IH]; intros t Ht; simpl; [constructor|].
  specialize (IH (round_up (t + n)) (round_up_multiple _)).
  destruct (layout_from (round_up (t + n)) sizes); simpl in *.
  by constructor.
Qed.

Lemma layout_starts_ge sizes : forall t b start,
  Forall is_size_t sizes ->
  fst (layout_from t sizes) !! b = Some start -> t <= start.
Proof.
  induction sizes as [|n sizes IH]; intros t b start Hs Hb; [done|].
  inversion Hs as [|? ? Hn Hrest]; subst. simpl in Hb.
  specialize (IH (round_up (t + n))).
  destruct (layout_from (round_up (t + n)) sizes) as [starts final].
  simpl in *. destruct b as [|b]; simpl in Hb.
  - injection Hb as ->. lia.
  - specialize (IH b start Hrest Hb).
    pose proof (round_up_bounds (t + n)). unfold is_size_t in Hn. lia.
Qed.

(** A block lies between the running total and the next block's start. *)
Lemma layout_block sizes : forall t b n,
  Forall is_size_t sizes -> sizes !! b = Some n ->
  exists start,
    fst (layout_from t sizes) !! b = Some start /\
    t <= start /\ start + n <= snd (layout_from t sizes) /\
    forall b' start', (b < b')%nat ->
      fst (layout_from t sizes) !! b' = Some start' -> start + n <= start'.
Proof.
  induction sizes as [|m sizes IH]; intros t b n Hs Hb; [done|].
  inversion Hs as [|? ? Hm Hrest]; subst. simpl.
  pose proof (round_up_bounds (t + m)) as Hru.
  pose proof (layout_total_ge sizes (round_up (t + m)) Hrest) as Hge.
  pose proof (total_keys_nonneg sizes Hrest) as Hnn.
  pose proof (layout_starts_ge sizes (round_up (t + m))) as Hsg.
  specialize (IH (round_up (t + m))).
  destruct (layout_from (round_up (t + m)) sizes) as [starts final].
  simpl in *. destruct b as [|b]; simpl in Hb.
  - injection Hb as ->. exists t. repeat split; [lia..|].
    intros [|b'] start' Hlt Hl; [lia|]. simpl in Hl.
    specialize (Hsg b' start' Hrest Hl). lia.
  - destruct (IH b n Hrest Hb) as (start & Hl & Hle & Hend & Hnext).
    exists start. repeat split; [done|unfold is_size_t in Hm; lia|done|].
    intros [|b'] start' Hlt Hl'; [lia|]. simpl in Hl'.
    apply (Hnext b'); [lia|done].
Qed.

(** The constructor's first loop computes the padded total. *)
Lemma required_colors_from sizes : forall t,
  Forall is_size_t sizes -> 0 <= t ->
  snd (layout_from t sizes) + 7 < size_t_modulus ->
  foldl (fun totalColors nbColors =>
           align (wrap (totalColors + nbColors)) align_colors) t sizes
  = snd (layout_from t sizes).
Proof.
  induction sizes as [|n sizes IH]; intros t Hs Ht Hfit; [done|].
  inversion Hs as [|? ? Hn Hrest]; subst. simpl in *.
  pose proof (round_up_bounds (t + n)) as Hru.
  pose proof (layout_total_ge sizes (round_up (t + n)) Hrest) as Hge.
  pose proof (total_keys_nonneg sizes Hrest) as Hnn.
  specialize (IH (round_up (t + n)) Hrest).
  destruct (layout_from (round_up (t + n)) sizes) as [starts final].
  simpl in *. unfold is_size_t in Hn.
  assert (Hw : wrap (t + n) = t + n) by (unfold wrap; apply Z.mod_small; lia).
  rewrite Hw, align_round_up by lia. apply IH; lia.
Qed.

(** The constructor's second loop stores the start of every block. *)
Lemma block_pointers_from colors sizes : forall acc t,
  Forall is_size_t sizes -> 0 <= t ->
  snd (layout_from t sizes) + 7 < size_t_modulus ->
  foldl (fun '(blocks, totalColors) nbColors =>
           (blocks ++ [ptr_index colors totalColors],
            align (wrap (totalColors + nbColors)) align_colors))
        (acc, t) sizes
  = (acc ++ (ptr_index colors <$> fst (layout_from t sizes)),
     snd (layout_from t sizes)).
Proof.
  induction sizes as [|n sizes IH]; intros acc t Hs Ht Hfit.
  { simpl. by rewrite app_nil_r. }
  inversion Hs as [|? ? Hn Hrest]; subst. simpl in *.
  pose proof (round_up_bounds (t + n)) as Hru.
  pose proof (layout_total_ge sizes (round_up (t + n)) Hrest) as Hge.
  pose proof (total_keys_nonneg sizes Hrest) as Hnn.
  specialize (IH (acc ++ [ptr_index colors t]) (round_up (t + n)) Hrest).
  destruct (layout_from (round_up (t + n)) sizes) as [starts final].
  simpl in *. unfold is_size_t in Hn.
  assert (Hw : wrap (t + n) = t + n) by (unfold wrap; apply Z.mod_small; lia).
  rewrite Hw, align_round_up by lia.
  rewrite IH by lia. by rewrite <- app_assoc.
Qed.

End Layout.

Section Construction.

Import RenderTarget.

Lemma layout_first sizes t start :
  fst (layout_from t sizes) !! 0%nat = Some start -> start = t.
Proof.
  destruct sizes as [|n sizes]; simpl; [done|].
  destruct (layout_from (round_up (t + n)) sizes). simpl. congruence.
Qed.

Lemma layout_next sizes : forall t b n start next,
  sizes !! b = Some n ->
  fst (layout_from t sizes) !! b = Some start ->
  fst (layout_from t sizes) !! S b = Some next ->
  next = round_up (start + n).
Proof.
  induction sizes as [|m sizes IH]; intros t b n start next Hb Hs Hn; [done|].
  simpl in Hs, Hn.
  pose proof (layout_first sizes (round_up (t + m))) as Hf.
  specialize (IH (round_up (t + m))).
  destruct (layout_from (round_up (t + m)) sizes) as [starts final].
  simpl in *. destruct b as [|b]; simpl in *.
  - injection Hb as ->. injection Hs as ->. by apply Hf.
  - by eapply IH.
Qed.

Lemma get_created r sizes b i start :
  block_starts sizes !! b = Some start ->
  get {| m_colors := Ptr r 0;
         m_nbColors := padded_total sizes;
         m_blocks := Ptr r <$> block_starts sizes |} b i
  = Some (Ptr r (start + Z.of_nat i)).
Proof.
  intros Hs. unfold get. simpl. rewrite list_lookup_fmap, Hs. reflexivity.
Qed.

(** What [create] returns when the padded byte count fits in [size_t]. *)
Lemma create_fits sizes contents h :
  Forall is_size_t sizes ->
  padded_total sizes * sizeof_RGBAColor < size_t_modulus ->
  create sizes (Allocated contents) h =
  Some ({| m_colors := Ptr (fresh (dom h)) 0;
           m_nbColors := padded_total sizes;
           m_blocks := Ptr (fresh (dom h)) <$> block_starts sizes |},
        <[fresh (dom h) := contents <$> seq 0 (Z.to_nat (padded_total sizes))]> h).
Proof.
  intros Hs Hfit. unfold create, posix_memalign, required_colors, block_pointers.
  cbv zeta.
  pose proof (layout_total_ge sizes 0 Hs) as Hge.
  pose proof (total_keys_nonneg sizes Hs) as Hnn.
  fold (padded_total sizes) in Hge.
  assert (Hm : size_t_modulus = 2 ^ 64) by reflexivity.
  assert (H4 : sizeof_RGBAColor = 4) by reflexivity.
  assert (Hfit7 : snd (layout_from 0 sizes) + 7 < size_t_modulus).
  { unfold padded_total in *. rewrite H4 in Hfit. rewrite Hm in *. lia. }
  rewrite required_colors_from by (done || lia).
  rewrite (block_pointers_from _ sizes [] 0) by (done || lia).
  fold (padded_total sizes). fold (block_starts sizes).
  assert (Hw : wrap (padded_total sizes * sizeof_RGBAColor)
               = padded_total sizes * sizeof_RGBAColor).
  { unfold wrap. apply Z.mod_small. lia. }
  rewrite Hw, H4, Z.div_mul by lia. cbn [fst app].
  reflexivity.
Qed.

(** C3, as amended: when the padded total, counted in bytes, fits in
    [size_t], the first block starts at cell 0 and every later block starts
    at the previous block's end rounded up to a multiple of
    [align_colors] = 32 / 4 = 8 cells; [size()] is the padded total, equals
    the number of cells allocated and is at least the sum of the key counts;
    every (block, index) with the index below the block's key count
    addresses a cell of the allocation, and two different such pairs address
    different cells. *)
Theorem create_layout sizes reply h rt h' :
  Forall is_size_t sizes ->
  padded_total sizes * sizeof_RGBAColor < size_t_modulus ->
  create sizes reply h = Some (rt, h') ->
  laid_out sizes h rt h'.
Proof.
  intros Hs Hfit Hc. unfold laid_out.
  destruct reply as [|contents]; [done|].
  rewrite create_fits in Hc by done. injection Hc as <- <-.
  set (r := fresh (dom h)).
  pose proof (layout_total_ge sizes 0 Hs) as Hge.
  pose proof (total_keys_nonneg sizes Hs) as Hnn.
  fold (padded_total sizes) in Hge.
  exists r, (contents <$> seq 0 (Z.to_nat (padded_total sizes))).
  assert (Hlen : Z.of_nat (length (contents <$> seq 0 (Z.to_nat (padded_total sizes))))
                 = padded_total sizes).
  { rewrite length_fmap, length_seq. lia. }
  split_and!; simpl.
  - apply not_elem_of_dom. apply is_fresh.
  - done.
  - done.
  - done.
  - apply layout_length.
  - intros start. apply layout_first.
  - intros b n start next. apply layout_next.
  - apply layout_multiples. reflexivity.
  - reflexivity.
  - unfold size. simpl. by rewrite Hlen.
  - unfold size. simpl. lia.
  - intros b n i Hb Hi.
    destruct (layout_block sizes 0 b n Hs Hb) as (start & Hl & H0 & Hend & _).
    fold (block_starts sizes) in Hl. fold (padded_total sizes) in Hend.
    exists (start + Z.of_nat i). rewrite (get_created _ _ _ _ start) by done.
    split; [done|]. rewrite Hlen. lia.
  - intros b n i b' n' i' p Hb Hi Hb' Hi' Hg Hg'.
    destruct (layout_block sizes 0 b n Hs Hb) as (start & Hl & H0 & _ & Hnext).
    destruct (layout_block sizes 0 b' n' Hs Hb') as (start' & Hl' & H0' & _ & Hnext').
    fold (block_starts sizes) in Hl, Hl', Hnext, Hnext'.
    rewrite (get_created _ _ _ _ start) in Hg by done.
    rewrite (get_created _ _ _ _ start') in Hg' by done.
    injection Hg as <-. injection Hg' as Heq.
    destruct (Nat.lt_total b b') as [Hlt|[->|Hlt]].
    + specialize (Hnext b' start' Hlt Hl'). lia.
    + rewrite Hl in Hl'. injection Hl' as <-. split; [done|lia].
    + specialize (Hnext' b start Hlt Hl). lia.
Qed.

Lemma create_layout_witness :
  Forall is_size_t [5; 8; 3] /\
  padded_total [5; 8; 3] * sizeof_RGBAColor < size_t_modulus /\
  laid_out [5; 8; 3] ∅
    (mk (Ptr 0 0) 24 [Ptr 0%nat 0; Ptr 0%nat 8; Ptr 0%nat 16])
    (<[0%nat := (fun _ => black) <$> seq 0 24]> ∅).
Proof.
  assert (Hs : Forall is_size_t [5; 8; 3]).
  { repeat constructor; unfold is_size_t, size_t_modulus; lia. }
  assert (Hfit : padded_total [5; 8; 3] * sizeof_RGBAColor < size_t_modulus)
    by reflexivity.
  split_and!; [exact Hs|exact Hfit|].
  apply (create_layout [5; 8; 3] (Allocated (fun _ => black)) ∅ _ _ Hs Hfit).
  vm_compute. reflexivity.
Defined.

(** C3 as stated fails: a block size near [2^64] wraps the running total,
    and [size()] then reports fewer cells than the block has keys. *)
Lemma create_wraps_counterexample :
  ~ (forall sizes reply h rt h',
       Forall is_size_t sizes ->
       create sizes reply h = Some (rt, h') ->
       total_keys sizes <= size rt).
Proof.
  intros Hclaim.
  assert (Hs : Forall is_size_t [2 ^ 64 - 1]).
  { repeat constructor; unfold is_size_t, size_t_modulus; lia. }
  specialize (Hclaim [2 ^ 64 - 1] (Allocated (fun _ => black)) ∅ _ _ Hs eq_refl).
  vm_compute in Hclaim. by apply Hclaim.
Qed.

End Construction.

(** ** Moving a render target *)

Section Move.

Import RenderTarget.

(** C9: the move constructor hands the storage, the size and the block
    pointers to the new object; the source is left with a null storage
    pointer and no block pointers, destroying it succeeds and leaves the
    heap (hence the transferred region) as it was, and none of its cells can
    be addressed any more. *)
Theorem move_transfers_ownership (other : t) (h : heap) :
  let '(this, source) := move other in
  m_colors this = m_colors other /\
  m_nbColors this = m_nbColors other /\
  m_blocks this = m_blocks other /\
  (forall bidx idx, read h this bidx idx = read h other bidx idx) /\
  destroy this h = destroy other h /\
  m_colors source = nullptr /\
  m_blocks source = [] /\
  destroy source h = Some h /\
  (forall bidx idx, get source bidx idx = None) /\
  (forall bidx idx, read h source bidx idx = None) /\
  (forall idx, load h (at_index source idx) = None).
Proof.
  unfold move. simpl. split_and!; try done.
Qed.

End Move.

(** ** Reasoning about computations *)

Section Computations.

Context {D : Type}.

Lemma bind_returned {A B} (m : M D A) (k : A -> M D B) w b w' :
  bind m k w = (Returned b, w') ->
  exists a w1, m w = (Returned a, w1) /\ k a w1 = (Returned b, w').
Proof.
  unfold bind. destruct (m w) as [[a|e| |] w1]; try done. eauto.
Qed.

Lemma bind_step {A B} (m : M D A) (k : A -> M D B) w a w1 :
  m w = (Returned a, w1) -> bind m k w = k a w1.
Proof. unfold bind. by intros ->. Qed.


Lemma bind_fault {A B} (m : M D A) (k : A -> M D B) w w1 :
  m w = (Faulted, w1) -> bind m k w = (Faulted, w1).
Proof. unfold bind. by intros ->. Qed.

Lemma bind_raised {A B} (m : M D A) (k : A -> M D B) w e w1 :
  m w = (Raised e, w1) -> bind m k w = (Raised e, w1).
Proof. unfold bind. by intros ->. Qed.


(** *** Observations a computation leaves alone *)

Lemma preserves_ret {A X} (f : world D -> X) (a : A) : preserves f (ret a).
Proof. done. Qed.

Lemma preserves_gets {A X} (f : world D -> X) (g : world D -> A) :
  preserves f (gets g).
Proof. done. Qed.

Lemma preserves_throw {A X} (f : world D -> X) e : preserves f (@throw D A e).
Proof. done. Qed.

Lemma preserves_fault {A X} (f : world D -> X) : preserves f (@fault D A).
Proof. done. Qed.

Lemma preserves_expect {A X} (f : world D -> X) (o : option A) :
  preserves f (expect o).
Proof. by destruct o. Qed.

Lemma preserves_modify {X} (f : world D -> X) (g : world D -> world D) :
  (forall w, f (g w) = f w) -> preserves f (modify g).
Proof. intros Hg w. apply Hg. Qed.

Lemma preserves_bind {A B X} (f : world D -> X) (m : M D A) (k : A -> M D B) :
  preserves f m -> (forall a, preserves f (k a)) -> preserves f (bind m k).
Proof.
  intros Hm Hk w. unfold bind. specialize (Hm w).
  destruct (m w) as [[a|e| |] w1]; simpl in *; try done.
  by rewrite Hk.
Qed.

Lemma preserves_if {A X} (f : world D -> X) (b : bool) (m1 m2 : M D A) :
  preserves f m1 -> preserves f m2 -> preserves f (if b then m1 else m2).
Proof. by destruct b. Qed.

Lemma preserves_for_each {A X} (f : world D -> X) (xs : list A) body :
  (forall x, preserves f (body x)) -> preserves f (for_each xs body).
Proof.
  intros Hb. induction xs as [|x xs IH]; simpl.
  - apply preserves_ret.
  - apply preserves_bind; [apply Hb|done].
Qed.

Lemma preserves_for_each_in {A X} (f : world D -> X) (xs : list A) body :
  (forall x, x ∈ xs -> preserves f (body x)) -> preserves f (for_each xs body).
Proof.
  induction xs as [|x xs IH]; intros Hb; simpl.
  - apply preserves_ret.
  - apply preserves_bind; [apply Hb; by left|].
    intros _. apply IH. intros y Hy. apply Hb. by right.
Qed.

Lemma preserves_for_fold {A B X} (f : world D -> X) (xs : list A) body :
  (forall x (acc : B), preserves f (body x acc)) ->
  forall acc, preserves f (for_fold xs acc body).
Proof.
  intros Hb. induction xs as [|x xs IH]; intros acc; simpl.
  - apply preserves_ret.
  - apply preserves_bind; [apply Hb|done].
Qed.

Lemma preserves_try_catch {A X} (f : world D -> X) (body : M D A) handler :
  preserves f body ->
  (forall e h, handler e = Some h -> preserves f h) ->
  preserves f (try_catch body handler).
Proof.
  intros Hb Hh w. unfold try_catch. specialize (Hb w).
  destruct (body w) as [[a|e| |] w1]; simpl in *; try done.
  destruct (handler e) as [h|] eqn:E; [|done].
  by rewrite (Hh e h E).
Qed.

(** *** Fuel *)

Lemma fueled_ret {A} (a : A) : fueled (@ret D A a).
Proof. done. Qed.

Lemma fueled_gets {A} (g : world D -> A) : fueled (gets g).
Proof. done. Qed.

Lemma fueled_modify (g : world D -> world D) : fueled (modify g).
Proof. done. Qed.

Lemma fueled_throw {A} e : fueled (@throw D A e).
Proof. done. Qed.

Lemma fueled_expect {A} (o : option A) : fueled (@expect D A o).
Proof. by destruct o. Qed.

Lemma fueled_bind {A B} (m : M D A) (k : A -> M D B) :
  fueled m -> (forall a, fueled (k a)) -> fueled (bind m k).
Proof.
  intros Hm Hk w. unfold bind. specialize (Hm w).
  destruct (m w) as [[a|e| |] w1]; simpl in *; try done. apply Hk.
Qed.

Lemma fueled_if {A} (b : bool) (m1 m2 : M D A) :
  fueled m1 -> fueled m2 -> fueled (if b then m1 else m2).
Proof. by destruct b. Qed.

Lemma fueled_for_each {A} (xs : list A) (body : A -> M D unit) :
  (forall x, fueled (body x)) -> fueled (for_each xs body).
Proof.
  intros Hb. induction xs as [|x xs IH]; simpl.
  - apply fueled_ret.
  - apply fueled_bind; [apply Hb|done].
Qed.

Lemma fueled_for_fold {A B} (xs : list A) (body : A -> B -> M D B) :
  (forall x acc, fueled (body x acc)) ->
  forall acc, fueled (for_fold xs acc body).
Proof.
  intros Hb. induction xs as [|x xs IH]; intros acc; simpl.
  - apply fueled_ret.
  - apply fueled_bind; [apply Hb|done].
Qed.

Lemma fueled_try_catch {A} (body : M D A) handler :
  fueled body -> (forall e h, handler e = Some h -> fueled h) ->
  fueled (try_catch body handler).
Proof.
  intros Hb Hh w. unfold try_catch. specialize (Hb w).
  destruct (body w) as [[a|e| |] w1]; simpl in *; try done.
  destruct (handler e) as [h|] eqn:E; [|done].
  apply (Hh e h E).
Qed.

End Computations.

Create HintDb fuel discriminated.

#[export] Hint Resolve fueled_ret fueled_gets fueled_modify fueled_throw
  fueled_expect fueled_bind fueled_if fueled_for_each fueled_for_fold : fuel.

Ltac frame_step :=
  first
    [ simple apply preserves_ret | simple apply preserves_gets
    | simple apply preserves_throw | simple apply preserves_fault
    | simple apply preserves_expect
    | simple apply preserves_bind | simple apply preserves_if
    | simple apply preserves_for_each | simple apply preserves_for_fold
    | simple apply preserves_modify; intros; solve [eauto]
    | match goal with |- forall _, _ => intro end ].

Ltac frame := repeat frame_step.

(** ** What each operation of the loop leaves alone *)

Section Frames.

Context {D : Type} `{DeviceOps D} {X : Type} (f : world D -> X).

Lemma loop_blind_directives : loop_blind f -> directives_blind f.
Proof. intros Hl ds w. apply Hl. Qed.

Lemma preserves_raising c op : device_blind f -> preserves f (raising c op).
Proof.
  intros Hd w. unfold raising. destruct (op (hw (device w))) as [r hw'].
  simpl. apply Hd.
Qed.

Lemma preserves_flush : device_blind f -> preserves f device_flush.
Proof. apply preserves_raising. Qed.

Lemma preserves_setColors block ds :
  device_blind f -> preserves f (device_setColors block ds).
Proof. apply preserves_raising. Qed.

Lemma preserves_commitColors : device_blind f -> preserves f device_commitColors.
Proof. apply preserves_raising. Qed.

Lemma preserves_getColors block :
  device_blind f -> preserves f (device_getColors block).
Proof.
  intros Hd w. unfold device_getColors.
  destruct (getColors block (hw (device w))) as [r hw']. simpl. apply Hd.
Qed.

Lemma preserves_setTimeout us : device_blind f -> preserves f (device_setTimeout us).
Proof. intros Hd w. apply Hd. Qed.

Lemma preserves_resync : device_blind f -> preserves f device_resync.
Proof.
  intros Hd w. unfold device_resync.
  destruct (resync (hw (device w))) as [ok hw']. simpl. apply Hd.
Qed.

Lemma preserves_target_read target bidx idx :
  preserves f (@target_read D target bidx idx).
Proof. unfold target_read. frame. Qed.

Lemma preserves_target_update target bidx idx g :
  mem_blind f -> preserves f (@target_update D target bidx idx g).
Proof. intros Hm. unfold target_update. frame. Qed.

Lemma preserves_Renderer_render renderer ns target :
  mem_blind f -> preserves f (@Renderer_render D renderer ns target).
Proof.
  intros Hm. unfold Renderer_render.
  apply preserves_bind; [apply preserves_gets|]. intros h.
  apply preserves_for_each. intros [[bidx idx] c].
  by apply preserves_target_update.
Qed.

Lemma preserves_run_renderers ns :
  mem_blind f -> preserves f (@run_renderers D ns).
Proof.
  intros Hm. unfold run_renderers. frame. by apply preserves_Renderer_render.
Qed.

Lemma preserves_directives_clear :
  directives_blind f -> preserves f (@directives_clear D).
Proof. intros Hd w. apply (Hd [] w). Qed.

Lemma preserves_directives_push_back d :
  directives_blind f -> preserves f (@directives_push_back D d).
Proof. intros Hd w. apply (Hd (m_directives (loop w) ++ [d]) w). Qed.

Lemma preserves_swap : loop_blind f -> preserves f (@swap_state_buffer D).
Proof. intros Hl w. apply Hl. Qed.

Lemma preserves_setRenderers rs : loop_blind f -> preserves f (@setRenderers D rs).
Proof. intros Hl w. apply Hl. Qed.

Lemma preserves_ERROR line : errors_blind f -> preserves f (@ERROR D line).
Proof. intros He w. apply He. Qed.

Lemma preserves_diff_block bidx hc :
  device_blind f -> directives_blind f -> preserves f (diff_block bidx hc).
Proof.
  intros Hd Hl. unfold diff_block, diff_key. frame;
    eauto using preserves_directives_clear, preserves_target_read,
      preserves_directives_push_back, preserves_setColors.
Qed.

Lemma preserves_diff_and_send :
  device_blind f -> loop_blind f -> preserves f diff_and_send.
Proof.
  intros Hd Hl. unfold diff_and_send. frame;
    eauto using preserves_flush, preserves_diff_block, loop_blind_directives,
      preserves_commitColors, preserves_swap.
Qed.

Lemma preserves_render ns :
  device_blind f -> loop_blind f -> mem_blind f -> preserves f (render ns).
Proof.
  intros Hd Hl Hm. unfold render. frame;
    eauto using preserves_run_renderers, preserves_diff_and_send.
Qed.

Lemma preserves_getDeviceState state :
  device_blind f -> mem_blind f -> preserves f (getDeviceState state).
Proof.
  intros Hd Hm. unfold getDeviceState, read_block_state, store_device_color.
  frame; eauto using preserves_getColors, preserves_target_update.
Qed.

Lemma preserves_AnimationLoop_steps events :
  device_blind f -> loop_blind f -> mem_blind f -> pending_blind f ->
  preserves f (AnimationLoop_steps events).
Proof.
  intros Hd Hl Hm Hp.
  induction events as [|ev rest IH]; simpl; [apply preserves_ret|].
  apply preserves_bind; [by apply preserves_modify|intros _].
  destruct ev as [ns|rs].
  - apply preserves_bind; [by apply preserves_render|].
    intros [|]; [done|apply preserves_ret].
  - apply preserves_bind; [by apply preserves_setRenderers|done].
Qed.

Lemma preserves_AnimationLoop_run :
  device_blind f -> loop_blind f -> mem_blind f -> pending_blind f ->
  preserves f AnimationLoop_run.
Proof.
  intros Hd Hl Hm Hp w. unfold AnimationLoop_run, bind, gets.
  by apply preserves_AnimationLoop_steps.
Qed.

Lemma preserves_attempt :
  device_blind f -> loop_blind f -> mem_blind f -> pending_blind f ->
  preserves f attempt.
Proof.
  intros Hd Hl Hm Hp. apply preserves_try_catch.
  - apply preserves_bind; [by apply preserves_AnimationLoop_run|].
    intros _. apply preserves_ret.
  - intros [code what|what] h Hh; [|done]. injection Hh as <-.
    apply preserves_bind; [by apply preserves_resync|].
    intros [|]; [apply preserves_ret|apply preserves_throw].
Qed.

Lemma preserves_recovery_loop fuel :
  device_blind f -> loop_blind f -> mem_blind f -> pending_blind f ->
  preserves f (recovery_loop fuel).
Proof.
  intros Hd Hl Hm Hp. induction fuel as [|fuel IH]; simpl; [done|].
  apply preserves_bind; [by apply preserves_attempt|].
  intros [|]; [done|apply preserves_ret].
Qed.

Lemma preserves_recovery :
  device_blind f -> loop_blind f -> mem_blind f -> pending_blind f ->
  preserves f recovery.
Proof.
  intros Hd Hl Hm Hp w. unfold recovery, bind, gets.
  by apply preserves_recovery_loop.
Qed.

End Frames.

(** ** The diff of one tick *)

Section Diff.

Context {D : Type} `{DeviceOps D}.

Lemma RGBAColor_neq_true (a b : RGBAColor) : RGBAColor_neq a b = true <-> a <> b.
Proof.
  unfold RGBAColor_neq. rewrite negb_true_iff, bool_decide_eq_false.
  destruct a, b; simpl. split.
  - intros Hn [=]. subst. by apply Hn.
  - intros Hn (-> & -> & -> & ->). by apply Hn.
Qed.

Lemma RGBAColor_neq_false (a b : RGBAColor) : RGBAColor_neq a b = false <-> a = b.
Proof.
  destruct (RGBAColor_neq a b) eqn:E.
  - apply RGBAColor_neq_true in E. split; [done|by intros ->].
  - split; [|done]. intros _. destruct (decide (a = b)) as [|Hn]; [done|].
    apply RGBAColor_neq_true in Hn. congruence.
Qed.

Lemma with_directives_same (w : world D) :
  with_directives (m_directives (loop w)) w = w.
Proof. destruct w as [h d [rs st bf ds] e p]. reflexivity. Qed.


Lemma diff_key_run block bidx idx (w : world D) :
  diff_key block bidx idx w =
  match RenderTarget.read (mem w) (m_buffer (loop w)) bidx idx,
        RenderTarget.read (mem w) (m_state (loop w)) bidx idx with
  | Some color, Some current =>
      if RGBAColor_neq color current then
        match keys block !! idx with
        | Some key =>
            (Returned tt,
             with_directives
               (m_directives (loop w)
                ++ [mkDirective key (red color) (green color) (blue color)]) w)
        | None => (Faulted, w)
        end
      else (Returned tt, w)
  | _, _ => (Faulted, w)
  end.
Proof.
  cbv beta iota delta [diff_key bind gets target_read expect ret fault
                       directives_push_back modify].
  destruct (RenderTarget.read (mem w) (m_buffer (loop w)) bidx idx)
    as [color|]; [|done].
  destruct (RenderTarget.read (mem w) (m_state (loop w)) bidx idx)
    as [current|]; [|done].
  destruct (RGBAColor_neq color current); [|done].
  by destruct (keys block !! idx).
Qed.

(** The key loop computes [scan]. *)
Lemma diff_keys_scan block bidx idxs : forall w : world D,
  match scan (mem w) (m_buffer (loop w)) (m_state (loop w)) block bidx idxs with
  | (ds, true) =>
      for_each idxs (diff_key block bidx) w
      = (Returned tt, with_directives (m_directives (loop w) ++ ds) w)
  | (_, false) =>
      exists w', for_each idxs (diff_key block bidx) w = (Faulted, w')
  end.
Proof.
  induction idxs as [|idx idxs IH]; intros w; simpl.
  { unfold ret. by rewrite app_nil_r, with_directives_same. }
  pose proof (diff_key_run block bidx idx w) as Hk.
  destruct (RenderTarget.read (mem w) (m_buffer (loop w)) bidx idx)
    as [color|]; [|rewrite (bind_fault _ _ _ _ Hk); eauto].
  destruct (RenderTarget.read (mem w) (m_state (loop w)) bidx idx)
    as [current|]; [|rewrite (bind_fault _ _ _ _ Hk); eauto].
  destruct (RGBAColor_neq color current).
  - destruct (keys block !! idx) as [key|];
      [|rewrite (bind_fault _ _ _ _ Hk); eauto].
    rewrite (bind_step _ _ _ _ _ Hk).
    match goal with |- context [for_each idxs _ ?w1] =>
      specialize (IH w1); simpl in IH end.
    destruct (scan _ _ _ _ _ idxs) as [ds [|]]; [|done].
    rewrite IH. by rewrite <- app_assoc.
  - rewrite (bind_step _ _ _ _ _ Hk). specialize (IH w).
    destruct (scan _ _ _ _ _ idxs) as [ds [|]]; done.
Qed.

Lemma directive_for_differs h buffer state block bidx idx key color current :
  keys block !! idx = Some key ->
  RenderTarget.read h buffer bidx idx = Some color ->
  RenderTarget.read h state bidx idx = Some current ->
  color <> current ->
  directive_for h buffer state block bidx idx
  = Some (mkDirective key (red color) (green color) (blue color)).
Proof.
  intros Ek Eb Es Hne. unfold directive_for. rewrite Ek, Eb, Es. simpl.
  by rewrite decide_False by done.
Qed.

Lemma directive_for_same h buffer state block bidx idx color :
  RenderTarget.read h buffer bidx idx = Some color ->
  RenderTarget.read h state bidx idx = Some color ->
  directive_for h buffer state block bidx idx = None.
Proof.
  intros Eb Es. unfold directive_for. rewrite Eb, Es.
  destruct (keys block !! idx); simpl; [|done].
  by rewrite decide_True by done.
Qed.

(** A directive of a block is exactly a key whose two colours differ. *)
Lemma directive_for_spec h buffer state block bidx idx d :
  directive_for h buffer state block bidx idx = Some d <->
  exists key color current,
    keys block !! idx = Some key /\
    RenderTarget.read h buffer bidx idx = Some color /\
    RenderTarget.read h state bidx idx = Some current /\
    color <> current /\
    d = mkDirective key (red color) (green color) (blue color).
Proof.
  split.
  - unfold directive_for. intros Hd.
    destruct (keys block !! idx) as [key|]; [|done].
    destruct (RenderTarget.read h buffer bidx idx) as [color|]; [|done].
    destruct (RenderTarget.read h state bidx idx) as [current|]; [|done].
    simpl in Hd. destruct (decide (color = current)); [done|].
    injection Hd as <-. by exists key, color, current.
  - intros (key & color & current & Ek & Eb & Es & Hne & ->).
    by apply (directive_for_differs _ _ _ _ _ _ _ _ current).
Qed.

Lemma scan_sound h buffer state block bidx idxs : forall ds,
  scan h buffer state block bidx idxs = (ds, true) ->
  ds = omap (directive_for h buffer state block bidx) idxs /\
  forall idx, idx ∈ idxs ->
    is_Some (RenderTarget.read h buffer bidx idx) /\
    is_Some (RenderTarget.read h state bidx idx).
Proof.
  induction idxs as [|idx idxs IH]; intros ds Hs; simpl in Hs.
  { injection Hs as <-. split; [done|]. intros idx Hin. by inversion Hin. }
  destruct (RenderTarget.read h buffer bidx idx) as [color|] eqn:Eb; [|done].
  destruct (RenderTarget.read h state bidx idx) as [current|] eqn:Es; [|done].
  destruct (RGBAColor_neq color current) eqn:En.
  - destruct (keys block !! idx) as [key|] eqn:Ek; [|done].
    destruct (scan h buffer state block bidx idxs) as [ds' ok].
    injection Hs as <- ->. destruct (IH ds' eq_refl) as [-> Hv].
    apply RGBAColor_neq_true in En. simpl.
    rewrite (directive_for_differs _ _ _ _ _ _ _ _ _ Ek Eb Es En).
    split; [done|].
    intros i [->|Hin]%elem_of_cons; [by rewrite Eb, Es|by apply Hv].
  - destruct (IH ds Hs) as [-> Hv]. apply RGBAColor_neq_false in En. subst.
    simpl. rewrite (directive_for_same _ _ _ _ _ _ _ Eb Es).
    split; [done|].
    intros i [->|Hin]%elem_of_cons; [by rewrite Eb, Es|by apply Hv].
Qed.

Lemma scan_complete h buffer state block bidx idxs :
  (forall idx, idx ∈ idxs ->
     is_Some (keys block !! idx) /\
     is_Some (RenderTarget.read h buffer bidx idx) /\
     is_Some (RenderTarget.read h state bidx idx)) ->
  scan h buffer state block bidx idxs
  = (omap (directive_for h buffer state block bidx) idxs, true).
Proof.
  induction idxs as [|idx idxs IH]; intros Hv; simpl; [done|].
  destruct (Hv idx) as ([key Ek] & [color Eb] & [current Es]); [by left|].
  rewrite IH by (intros i Hi; apply Hv; by right).
  rewrite Ek, Eb, Es.
  destruct (RGBAColor_neq color current) eqn:En.
  - apply RGBAColor_neq_true in En.
    by rewrite (directive_for_differs _ _ _ _ _ _ _ _ _ Ek Eb Es En).
  - apply RGBAColor_neq_false in En. subst.
    by rewrite (directive_for_same _ _ _ _ _ _ _ Eb Es).
Qed.

Lemma diff_block_run bidx hc (w : world D) block ds :
  blocks (device w) !! bidx = Some block ->
  scan (mem w) (m_buffer (loop w)) (m_state (loop w)) block bidx
       (seq 0 (length (keys block))) = (ds, true) ->
  diff_block bidx hc w =
  if decide (ds = []) then (Returned hc, with_directives [] w)
  else bind (device_setColors block ds) (fun _ => ret true)
            (with_directives ds w).
Proof.
  intros Hb Hs. unfold diff_block.
  cbv beta iota delta [bind gets expect] . rewrite Hb.
  cbv beta iota delta [ret directives_clear modify].
  pose proof (diff_keys_scan block bidx (seq 0 (length (keys block)))
                (with_directives [] w)) as Hk.
  simpl in Hk. rewrite Hs in Hk.
  change (set_loop _ w) with (with_directives [] w). rewrite Hk.
  simpl. destruct (decide (ds = [])) as [->|Hne].
  - reflexivity.
  - rewrite bool_decide_eq_false_2 by done. reflexivity.
Qed.

Lemma diff_block_fault bidx hc (w : world D) block ds :
  blocks (device w) !! bidx = Some block ->
  scan (mem w) (m_buffer (loop w)) (m_state (loop w)) block bidx
       (seq 0 (length (keys block))) = (ds, false) ->
  exists w', diff_block bidx hc w = (Faulted, w').
Proof.
  intros Hb Hs. unfold diff_block.
  cbv beta iota delta [bind gets expect] . rewrite Hb.
  cbv beta iota delta [ret directives_clear modify].
  pose proof (diff_keys_scan block bidx (seq 0 (length (keys block)))
                (with_directives [] w)) as Hk.
  simpl in Hk. rewrite Hs in Hk. destruct Hk as [w' Hk].
  change (set_loop _ w) with (with_directives [] w). rewrite Hk. eauto.
Qed.

(** One block of a tick that completes: the directive list is exactly the
    block's directives, sent if there are any. *)
Lemma diff_block_returned bidx hc (w : world D) hc' w' block :
  blocks (device w) !! bidx = Some block ->
  diff_block bidx hc w = (Returned hc', w') ->
  let ds := block_directives (mem w) (m_buffer (loop w)) (m_state (loop w))
                             bidx block in
  m_directives (loop w') = ds /\
  calls (device w') = calls (device w)
    ++ block_calls (mem w) (m_buffer (loop w)) (m_state (loop w)) bidx block /\
  hc' = hc || negb (bool_decide (ds = [])) /\
  (forall idx, (idx < length (keys block))%nat ->
     is_Some (RenderTarget.read (mem w) (m_buffer (loop w)) bidx idx) /\
     is_Some (RenderTarget.read (mem w) (m_state (loop w)) bidx idx)).
Proof.
  intros Hb Hrun.
  destruct (scan (mem w) (m_buffer (loop w)) (m_state (loop w)) block bidx
                 (seq 0 (length (keys block)))) as [ds [|]] eqn:Hs.
  2:{ destruct (diff_block_fault bidx hc w block ds Hb Hs) as [w'' Hf].
      congruence. }
  rewrite (diff_block_run bidx hc w block ds Hb Hs) in Hrun.
  destruct (scan_sound _ _ _ _ _ _ _ Hs) as [Hds Hv].
  fold (block_directives (mem w) (m_buffer (loop w)) (m_state (loop w))
                         bidx block) in Hds.
  cbv zeta. unfold block_calls. rewrite <- Hds.
  assert (Hvalid : forall idx, (idx < length (keys block))%nat ->
     is_Some (RenderTarget.read (mem w) (m_buffer (loop w)) bidx idx) /\
     is_Some (RenderTarget.read (mem w) (m_state (loop w)) bidx idx)).
  { intros idx Hlt. apply Hv. apply elem_of_seq. lia. }
  destruct (decide (ds = [])) as [->|Hne].
  - injection Hrun as <- <-. simpl.
    rewrite app_nil_r, orb_false_r. done.
  - unfold bind, device_setColors, raising, ret in Hrun. simpl in Hrun.
    destruct (setColors block ds (hw (device w))) as [[e|] hw']; [done|].
    injection Hrun as <- <-. simpl.
    rewrite bool_decide_eq_false_2 by done. rewrite orb_true_r. done.
Qed.

(** The loop over blocks [first, first + length bs) of a tick that
    completes. *)
Lemma diff_blocks_returned bs : forall first hc (w : world D) hc' w',
  (forall k, bs !! k = blocks (device w) !! (first + k)%nat) ->
  for_fold (seq first (length bs)) hc diff_block w = (Returned hc', w') ->
  let sent := diff_calls (mem w) (m_buffer (loop w)) (m_state (loop w))
                         first bs in
  calls (device w') = calls (device w) ++ sent /\
  hc' = hc || negb (bool_decide (sent = [])) /\
  (forall k block idx, bs !! k = Some block -> (idx < length (keys block))%nat ->
     is_Some (RenderTarget.read (mem w) (m_buffer (loop w)) (first + k) idx) /\
     is_Some (RenderTarget.read (mem w) (m_state (loop w)) (first + k) idx)).
Proof.
  induction bs as [|block bs IH]; intros first hc w hc' w' Hbs Hrun; simpl in *.
  { injection Hrun as <- <-. rewrite app_nil_r, orb_false_r.
    split_and!; try done. }
  apply bind_returned in Hrun as (hc1 & w1 & Hblock & Hrest).
  assert (Hb : blocks (device w) !! first = Some block).
  { pose proof (Hbs 0%nat) as H0. simpl in H0.
    by rewrite Nat.add_0_r in H0. }
  pose proof (preserves_diff_block mem first hc
                ltac:(done) ltac:(done) w) as Hmem.
  pose proof (preserves_diff_block (fun w => m_buffer (loop w)) first hc
                ltac:(done) ltac:(done) w) as Hbuf.
  pose proof (preserves_diff_block (fun w => m_state (loop w)) first hc
                ltac:(done) ltac:(done) w) as Hst.
  pose proof (preserves_diff_block (fun w => blocks (device w)) first hc
                ltac:(done) ltac:(done) w) as Hblk.
  rewrite Hblock in Hmem, Hbuf, Hst, Hblk. simpl in Hmem, Hbuf, Hst, Hblk.
  destruct (diff_block_returned first hc w hc1 w1 block Hb Hblock)
    as (_ & Hcalls & Hhc & Hvalid).
  destruct (IH (S first) hc1 w1 hc' w') as (Hcalls' & Hhc' & Hvalid').
  { intros k. rewrite Hblk. pose proof (Hbs (S k)) as Hk. simpl in Hk.
    replace (first + S k)%nat with (S first + k)%nat in Hk by lia. done. }
  { exact Hrest. }
  rewrite Hmem, Hbuf, Hst in *.
  split_and!.
  - rewrite Hcalls', Hcalls. by rewrite <- app_assoc.
  - rewrite Hhc', Hhc. unfold block_calls.
    destruct (decide (block_directives _ _ _ first block = [])) as [->|Hne].
    + simpl. by rewrite orb_false_r.
    + rewrite (bool_decide_eq_false_2 (block_directives _ _ _ _ _ = [])) by done.
      simpl. rewrite orb_true_r. done.
  - intros [|k] blk idx Hk Hlt; simpl in Hk.
    + injection Hk as <-. rewrite Nat.add_0_r. by apply Hvalid.
    + replace (first + S k)%nat with (S first + k)%nat by lia.
      by eapply Hvalid'.
Qed.

Lemma raising_returned c op (w : world D) w' :
  raising c op w = (Returned tt, w') ->
  exists hw', op (hw (device w)) = (None, hw') /\ w' = record_call c hw' w.
Proof.
  unfold raising. destruct (op (hw (device w))) as [[e|] hw']; [done|].
  intros [= <-]. eauto.
Qed.

Lemma diff_calls_empty h buffer state bs : forall first,
  diff_calls h buffer state first bs = [] <->
  forall k block, bs !! k = Some block ->
    block_directives h buffer state (first + k) block = [].
Proof.
  induction bs as [|block bs IH]; intros first; simpl.
  { split; [by intros _ k block|done]. }
  unfold block_calls. split.
  - intros Happ. apply app_eq_nil in Happ as [Hb Hrest].
    destruct (decide (block_directives h buffer state first block = []))
      as [Hd|]; [|done].
    intros [|k] blk Hk; simpl in Hk.
    + injection Hk as <-. by rewrite Nat.add_0_r.
    + replace (first + S k)%nat with (S first + k)%nat by lia.
      by apply (IH (S first)).
  - intros Hall. rewrite decide_True.
    + simpl. apply IH. intros k blk Hk.
      replace (S first + k)%nat with (first + S k)%nat by lia.
      by apply Hall.
    + specialize (Hall 0%nat block eq_refl). by rewrite Nat.add_0_r in Hall.
Qed.

Lemma diff_calls_not_commit h buffer state bs : forall first,
  call_commitColors ∉ diff_calls h buffer state first bs.
Proof.
  induction bs as [|block bs IH]; intros first; simpl.
  { apply not_elem_of_nil. }
  rewrite elem_of_app. intros [Hin|Hin]; [|by apply (IH (S first))].
  unfold block_calls in Hin. destruct (decide _); [by inversion Hin|].
  apply list_elem_of_singleton in Hin. done.
Qed.

(** Lines 144-172 when they run to the end. *)
Lemma diff_and_send_returned (w : world D) w' :
  diff_and_send w = (Returned tt, w') ->
  mem w' = mem w /\
  m_renderers (loop w') = m_renderers (loop w) /\
  m_state (loop w') = m_buffer (loop w) /\
  m_buffer (loop w') = m_state (loop w) /\
  (let sent := diff_calls (mem w) (m_buffer (loop w)) (m_state (loop w))
                          0 (blocks (device w)) in
   calls (device w') = calls (device w) ++ [call_flush] ++ sent
                       ++ commit_calls sent) /\
  (forall bidx block idx,
     blocks (device w) !! bidx = Some block -> (idx < length (keys block))%nat ->
     is_Some (RenderTarget.read (mem w) (m_buffer (loop w)) bidx idx) /\
     is_Some (RenderTarget.read (mem w) (m_state (loop w)) bidx idx)).
Proof.
  intros Hdiff. unfold diff_and_send in Hdiff.
  apply bind_returned in Hdiff as ([] & w2 & Hflush & Hdiff).
  apply raising_returned in Hflush as (hw2 & _ & ->).
  apply bind_returned in Hdiff as (n & w2' & Hn & Hdiff).
  injection Hn as <- <-.
  apply bind_returned in Hdiff as (hc & w3 & Hfold & Hdiff).
  apply bind_returned in Hdiff as ([] & w4 & Hcommit & Hswap).
  injection Hswap as <-.
  set (w2 := record_call call_flush hw2 w) in *.
  assert (Hbody : forall (X : Type) (f : world D -> X),
            device_blind f -> directives_blind f ->
            f w3 = f w2).
  { intros X f Hd Hl.
    pose proof (f_equal snd Hfold) as Hsnd. simpl in Hsnd. rewrite <- Hsnd.
    apply (preserves_for_fold f _ diff_block).
    intros; by apply preserves_diff_block. }
  pose proof (Hbody _ mem ltac:(done) ltac:(done)) as Hmem.
  pose proof (Hbody _ (fun w => m_renderers (loop w)) ltac:(done) ltac:(done))
    as Hrs.
  pose proof (Hbody _ (fun w => m_state (loop w)) ltac:(done) ltac:(done))
    as Hst.
  pose proof (Hbody _ (fun w => m_buffer (loop w)) ltac:(done) ltac:(done))
    as Hbuf.
  simpl in Hmem, Hrs, Hst, Hbuf.
  apply diff_blocks_returned in Hfold as (Hcalls & Hhc & Hvalid);
    [|intros k; reflexivity].
  simpl in Hcalls, Hhc, Hvalid.
  assert (H4 : mem w4 = mem w3 /\ loop w4 = loop w3 /\
               calls (device w4) = calls (device w3)
                 ++ (if hc then [call_commitColors] else [])).
  { destruct hc.
    - apply raising_returned in Hcommit as (hw4 & _ & ->). done.
    - injection Hcommit as <-. by rewrite app_nil_r. }
  destruct H4 as (Hmem4 & Hloop4 & Hcalls4).
  simpl. rewrite Hmem4, Hloop4, Hcalls4, Hcalls, Hmem, Hrs, Hst, Hbuf.
  split_and!; try done.
  { by destruct (m_buffer (loop w)). }
  { by destruct (m_state (loop w)). }
  rewrite <- !app_assoc. simpl. do 3 f_equal.
  rewrite Hhc. unfold commit_calls.
  destruct (decide (diff_calls (mem w) (m_buffer (loop w)) (m_state (loop w))
                               0 (blocks (device w)) = [])) as [->|Hne].
  - done.
  - by rewrite bool_decide_eq_false_2 by done.
Qed.

(** A tick that completes with renderers installed. *)
Lemma render_returned ns (w : world D) b w' :
  m_renderers (loop w) <> [] ->
  render ns w = (Returned b, w') ->
  exists w1,
    run_renderers ns w = (Returned tt, w1) /\
    diff_and_send w1 = (Returned tt, w') /\
    b = true /\ loop w1 = loop w /\ device w1 = device w.
Proof.
  intros Hne Hrun. unfold render in Hrun.
  apply bind_returned in Hrun as (has & w0 & Hgets & Hrun).
  injection Hgets as <- <-.
  rewrite bool_decide_eq_false_2 in Hrun by done. simpl in Hrun.
  apply bind_returned in Hrun as ([] & w1 & Hrend & Hrun).
  apply bind_returned in Hrun as ([] & w5 & Hdiff & Hret).
  injection Hret as <- <-.
  pose proof (preserves_run_renderers loop ns ltac:(done) w) as Hloop.
  pose proof (preserves_run_renderers device ns ltac:(done) w) as Hdev.
  rewrite Hrend in Hloop, Hdev. simpl in Hloop, Hdev.
  by exists w1.
Qed.

Lemma omap_all_None {A B} (g : A -> option B) (l : list A) :
  (forall x, x ∈ l -> g x = None) -> omap g l = [].
Proof.
  induction l as [|x l IH]; intros Hall; simpl; [done|].
  rewrite (Hall x) by (by left). apply IH. intros y Hy. apply Hall. by right.
Qed.

Lemma block_directives_unchanged h buffer state bidx block :
  (forall idx, (idx < length (keys block))%nat ->
     exists c, RenderTarget.read h buffer bidx idx = Some c /\
               RenderTarget.read h state bidx idx = Some c) ->
  scan h buffer state block bidx (seq 0 (length (keys block))) = ([], true) /\
  block_directives h buffer state bidx block = [].
Proof.
  intros Hsame.
  assert (Hnil : block_directives h buffer state bidx block = []).
  { apply omap_all_None. intros idx Hin. apply elem_of_seq in Hin.
    destruct (Hsame idx) as (c & Eb & Es); [lia|].
    by apply (directive_for_same _ _ _ _ _ _ c). }
  split; [|done]. rewrite scan_complete.
  - by fold (block_directives h buffer state bidx block); rewrite Hnil.
  - intros idx Hin. apply elem_of_seq in Hin.
    destruct (Hsame idx) as (c & -> & ->); [lia|].
    split_and!; [|done..]. apply lookup_lt_is_Some. lia.
Qed.

(** When nothing differs, the loop over blocks calls nothing. *)
Lemma diff_blocks_quiet bs : forall first hc (w : world D),
  (forall k, bs !! k = blocks (device w) !! (first + k)%nat) ->
  (forall k block idx, bs !! k = Some block -> (idx < length (keys block))%nat ->
     exists c,
       RenderTarget.read (mem w) (m_buffer (loop w)) (first + k) idx = Some c /\
       RenderTarget.read (mem w) (m_state (loop w)) (first + k) idx = Some c) ->
  exists w',
    for_fold (seq first (length bs)) hc diff_block w = (Returned hc, w') /\
    device w' = device w /\ mem w' = mem w /\
    m_state (loop w') = m_state (loop w) /\
    m_buffer (loop w') = m_buffer (loop w).
Proof.
  induction bs as [|block bs IH]; intros first hc w Hbs Hsame; simpl.
  { by exists w. }
  assert (Hb : blocks (device w) !! first = Some block).
  { pose proof (Hbs 0%nat) as H0. simpl in H0.
    by rewrite Nat.add_0_r in H0. }
  destruct (block_directives_unchanged (mem w) (m_buffer (loop w))
              (m_state (loop w)) first block) as [Hscan _].
  { intros idx Hlt. specialize (Hsame 0%nat block idx eq_refl Hlt).
    by rewrite Nat.add_0_r in Hsame. }
  pose proof (diff_block_run first hc w block [] Hb Hscan) as Hrun.
  simpl in Hrun. rewrite (bind_step _ _ _ _ _ Hrun).
  destruct (IH (S first) hc (with_directives [] w)) as (w' & Hfold & Hrest).
  { intros k. pose proof (Hbs (S k)) as Hk. simpl in Hk.
    replace (first + S k)%nat with (S first + k)%nat in Hk by lia. done. }
  { intros k blk idx Hk Hlt. specialize (Hsame (S k) blk idx Hk Hlt).
    replace (first + S k)%nat with (S first + k)%nat in Hsame by lia. done. }
  exists w'. split; [done|]. exact Hrest.
Qed.

(** A tick on which nothing differs invokes [flush] and nothing else,
    whether or not [flush] raises. *)
Lemma render_quiet ns (w : world D) w1 :
  m_renderers (loop w) <> [] ->
  run_renderers ns w = (Returned tt, w1) ->
  (forall bidx block idx,
     blocks (device w) !! bidx = Some block -> (idx < length (keys block))%nat ->
     exists c,
       RenderTarget.read (mem w1) (m_buffer (loop w)) bidx idx = Some c /\
       RenderTarget.read (mem w1) (m_state (loop w)) bidx idx = Some c) ->
  calls (device (snd (render ns w))) = calls (device w) ++ [call_flush].
Proof.
  intros Hne Hrend Hsame.
  pose proof (preserves_run_renderers loop ns ltac:(done) w) as Hloop.
  pose proof (preserves_run_renderers device ns ltac:(done) w) as Hdev.
  rewrite Hrend in Hloop, Hdev. simpl in Hloop, Hdev.
  unfold render. unfold bind at 1. unfold gets at 1.
  rewrite bool_decide_eq_false_2 by done. simpl negb. cbv iota.
  rewrite (bind_step _ _ _ _ _ Hrend).
  unfold diff_and_send.
  unfold bind at 1. unfold bind at 1.
  unfold device_flush, raising.
  destruct (flush (hw (device w1))) as [[e|] hw2].
  { simpl. by rewrite Hdev. }
  set (w2 := record_call call_flush hw2 w1).
  unfold bind at 1. unfold gets at 1.
  destruct (diff_blocks_quiet (blocks (device w2)) 0 false w2)
    as (w3 & Hfold & Hdev3 & _).
  { done. }
  { intros k block idx Hk Hlt. simpl. rewrite Hloop.
    apply (Hsame k block idx); [|done]. by rewrite <- Hdev. }
  rewrite (bind_step _ _ _ _ _ Hfold). simpl.
  rewrite Hdev3. simpl. by rewrite Hdev.
Qed.

(** With readable cells and a device that accepts every write, the loop
    over blocks runs to its end. *)
Lemma diff_blocks_complete bs : forall first hc (w : world D),
  (forall k, bs !! k = blocks (device w) !! (first + k)%nat) ->
  (forall k block idx, bs !! k = Some block -> (idx < length (keys block))%nat ->
     is_Some (RenderTarget.read (mem w) (m_buffer (loop w)) (first + k) idx) /\
     is_Some (RenderTarget.read (mem w) (m_state (loop w)) (first + k) idx)) ->
  (forall block ds d, fst (setColors block ds d) = None) ->
  exists hc' w',
    for_fold (seq first (length bs)) hc diff_block w = (Returned hc', w') /\
    mem w' = mem w.
Proof.
  induction bs as [|block bs IH]; intros first hc w Hbs Hvalid Hset; simpl.
  { by exists hc, w. }
  assert (Hb : blocks (device w) !! first = Some block).
  { pose proof (Hbs 0%nat) as H0. simpl in H0.
    by rewrite Nat.add_0_r in H0. }
  set (ds := block_directives (mem w) (m_buffer (loop w)) (m_state (loop w))
                               first block).
  assert (Hscan : scan (mem w) (m_buffer (loop w)) (m_state (loop w))
                       block first (seq 0 (length (keys block))) = (ds, true)).
  { apply scan_complete. intros idx Hin. apply elem_of_seq in Hin.
    destruct (Hvalid 0%nat block idx eq_refl ltac:(lia)) as [Hv1 Hv2].
    rewrite Nat.add_0_r in Hv1, Hv2. split_and!; [|done..].
    apply lookup_lt_is_Some. lia. }
  assert (Hstep : exists hc1 w1,
            diff_block first hc w = (Returned hc1, w1) /\
            mem w1 = mem w /\ loop_targets_of w1 = loop_targets_of w /\
            blocks (device w1) = blocks (device w)).
  { rewrite (diff_block_run first hc w block ds Hb Hscan).
    destruct (decide (ds = [])).
    { eexists _, _. split; [reflexivity|]. by split_and!. }
    unfold bind, device_setColors, raising. simpl.
    pose proof (Hset block ds (hw (device w))) as Hnone.
    destruct (setColors block ds (hw (device w))) as [r d1].
    simpl in Hnone. subst r.
    eexists _, _. split; [reflexivity|]. by split_and!. }
  destruct Hstep as (hc1 & w1 & Hrun & Hmem & Hloop & Hblk).
  rewrite (bind_step _ _ _ _ _ Hrun).
  injection Hloop as Hst Hbuf.
  destruct (IH (S first) hc1 w1) as (hc' & w' & Hfold & Hmem').
  { intros k. rewrite Hblk. pose proof (Hbs (S k)) as Hk. simpl in Hk.
    replace (first + S k)%nat with (S first + k)%nat in Hk by lia. done. }
  { intros k blk idx Hk Hlt. rewrite Hmem, Hst, Hbuf.
    specialize (Hvalid (S k) blk idx Hk Hlt).
    replace (first + S k)%nat with (S first + k)%nat in Hvalid by lia. done. }
  { done. }
  exists hc', w'. split; [done|]. by rewrite Hmem'.
Qed.

(** A tick with renderers installed runs to its end when the renderers
    stay inside the scratch buffer, every cell of both buffers is readable,
    and the device accepts every operation. *)
Lemma render_completes ns (w : world D) w1 :
  m_renderers (loop w) <> [] ->
  run_renderers ns w = (Returned tt, w1) ->
  addressable (mem w1) (m_buffer (loop w)) (blocks (device w)) ->
  addressable (mem w1) (m_state (loop w)) (blocks (device w)) ->
  (forall d, fst (flush d) = None) ->
  (forall block ds d, fst (setColors block ds d) = None) ->
  (forall d, fst (commitColors d) = None) ->
  exists w', render ns w = (Returned true, w').
Proof.
  intros Hne Hrend Hbuf Hst Hflush Hset Hcommit.
  pose proof (preserves_run_renderers loop ns ltac:(done) w) as Hloop.
  pose proof (preserves_run_renderers device ns ltac:(done) w) as Hdev.
  rewrite Hrend in Hloop, Hdev. simpl in Hloop, Hdev.
  unfold render. unfold bind at 1. unfold gets at 1.
  rewrite bool_decide_eq_false_2 by done. simpl negb. cbv iota.
  rewrite (bind_step _ _ _ _ _ Hrend).
  unfold diff_and_send.
  unfold bind at 1. unfold bind at 1. unfold device_flush, raising.
  pose proof (Hflush (hw (device w1))) as Hf.
  destruct (flush (hw (device w1))) as [r hw2]. simpl in Hf. subst r.
  set (w2 := record_call call_flush hw2 w1).
  unfold bind at 1. unfold gets at 1.
  destruct (diff_blocks_complete (blocks (device w2)) 0 false w2)
    as (hc & w3 & Hfold & _).
  { done. }
  { intros k block idx Hk Hlt. simpl. rewrite Hloop.
    simpl in Hk. rewrite Hdev in Hk. split.
    - by apply (Hbuf k idx block).
    - by apply (Hst k idx block). }
  { done. }
  rewrite (bind_step _ _ _ _ _ Hfold).
  unfold bind at 1. destruct hc.
  - unfold device_commitColors, raising.
    pose proof (Hcommit (hw (device w3))) as Hc.
    destruct (commitColors (hw (device w3))) as [r hw4]. simpl in Hc. subst r.
    by eexists.
  - by eexists.
Qed.

Lemma block_calls_spec h buffer state bidx block ds :
  call_setColors block ds ∈ block_calls h buffer state bidx block <->
  ds = block_directives h buffer state bidx block /\ ds <> [].
Proof.
  unfold block_calls.
  destruct (decide (block_directives h buffer state bidx block = [])) as [E|E].
  - split; [by intros Hin; inversion Hin|]. intros [-> Hne]. done.
  - rewrite list_elem_of_singleton. split; [by intros [= ->]|by intros [-> _]].
Qed.

Lemma render_no_renderers ns (w : world D) :
  m_renderers (loop w) = [] -> render ns w = (Returned true, w).
Proof.
  intros Hnil. unfold render.
  cbv beta iota delta [bind gets run_renderers]. rewrite Hnil. reflexivity.
Qed.

(** C1: on a tick with renderers installed that runs to its end, every key
    of every block has its scratch colour compared with its current-state
    colour and gives a directive exactly when they differ, the directive
    carrying the key's identifier and the red, green and blue channels of
    the scratch colour (a [ColorDirective] has no alpha); the operations
    invoked are [flush], then for each block in order one [setColors] with
    that block's directives alone exactly when there is at least one, then
    [commitColors] when something was sent. *)
Theorem render_sends_changes ns (w : world D) b w' :
  m_renderers (loop w) <> [] ->
  render ns w = (Returned b, w') ->
  exists w1,
    run_renderers ns w = (Returned tt, w1) /\
    let h := mem w1 in
    let buffer := m_buffer (loop w) in
    let state := m_state (loop w) in
    let bs := blocks (device w) in
    (forall bidx block idx key,
       bs !! bidx = Some block -> keys block !! idx = Some key ->
       exists color current,
         RenderTarget.read h buffer bidx idx = Some color /\
         RenderTarget.read h state bidx idx = Some current /\
         directive_for h buffer state block bidx idx =
           if decide (color = current) then None
           else Some (mkDirective key (red color) (green color) (blue color))) /\
    (forall bidx block ds,
       call_setColors block ds ∈ block_calls h buffer state bidx block <->
       ds = block_directives h buffer state bidx block /\ ds <> []) /\
    calls (device w') =
      calls (device w) ++ [call_flush] ++ diff_calls h buffer state 0 bs
      ++ commit_calls (diff_calls h buffer state 0 bs).
Proof.
  intros Hne Hrun.
  destruct (render_returned ns w b w' Hne Hrun)
    as (w1 & Hrend & Hdiff & -> & Hloop & Hdev).
  destruct (diff_and_send_returned w1 w' Hdiff)
    as (_ & _ & _ & _ & Hcalls & Hvalid).
  rewrite Hloop, Hdev in *. exists w1. split; [done|]. cbv zeta.
  split_and!.
  - intros bidx block idx key Hb Hk.
    destruct (Hvalid bidx block idx Hb) as [[color Eb] [current Es]].
    { by eapply lookup_lt_Some. }
    exists color, current. split_and!; [done..|].
    destruct (decide (color = current)) as [->|Hd].
    + by apply (directive_for_same _ _ _ _ _ _ current).
    + by apply (directive_for_differs _ _ _ _ _ _ _ _ current).
  - intros. apply block_calls_spec.
  - exact Hcalls.
Qed.

(** C2, as amended: a tick with renderers installed that runs to its end
    leaves the heap exactly as the renderers left it, whether or not
    directives were sent, and exchanges the two targets (storage pointer,
    size and block pointers), so that the current-state buffer reads, cell
    for cell, what was rendered into the scratch buffer; a tick with no
    renderer leaves everything as it was. *)
Theorem render_swaps ns (w : world D) b w' :
  render ns w = (Returned b, w') ->
  (m_renderers (loop w) <> [] ->
   exists w1,
     run_renderers ns w = (Returned tt, w1) /\
     mem w' = mem w1 /\
     m_state (loop w') = m_buffer (loop w1) /\
     m_buffer (loop w') = m_state (loop w1) /\
     RenderTarget.m_colors (m_state (loop w'))
       = RenderTarget.m_colors (m_buffer (loop w1)) /\
     RenderTarget.m_colors (m_buffer (loop w'))
       = RenderTarget.m_colors (m_state (loop w1)) /\
     forall bidx idx,
       RenderTarget.read (mem w') (m_state (loop w')) bidx idx
       = RenderTarget.read (mem w1) (m_buffer (loop w1)) bidx idx) /\
  (m_renderers (loop w) = [] -> w' = w).
Proof.
  intros Hrun. split.
  - intros Hne.
    destruct (render_returned ns w b w' Hne Hrun)
      as (w1 & Hrend & Hdiff & -> & Hloop & Hdev).
    destruct (diff_and_send_returned w1 w' Hdiff)
      as (Hmem & _ & Hst & Hbuf & _ & _).
    exists w1. rewrite Hst, Hbuf, Hmem. by split_and!.
  - intros Hnil. rewrite (render_no_renderers ns w Hnil) in Hrun.
    by injection Hrun as _ <-.
Qed.

(** C6: on a tick with no renderer installed, [render] returns "continue"
    and leaves the whole world, hence the device and the record of
    operations invoked on it, as it was. *)
Theorem render_idle ns (w : world D) :
  m_renderers (loop w) = [] ->
  render ns w = (Returned true, w) /\
  calls (device (snd (render ns w))) = calls (device w).
Proof.
  intros Hnil. by rewrite (render_no_renderers ns w Hnil).
Qed.

(** C7: with renderers installed, if after they ran the scratch buffer
    equals the current-state buffer at every valid (block, index), then no
    block has a directive and the only operation invoked is [flush]; and on
    every such tick that runs to its end, [commitColors] is among the
    operations invoked exactly when some block has a directive. *)
Theorem render_commits_iff_changed ns (w : world D) :
  m_renderers (loop w) <> [] ->
  (forall w1,
     run_renderers ns w = (Returned tt, w1) ->
     (forall bidx block idx,
        blocks (device w) !! bidx = Some block ->
        (idx < length (keys block))%nat ->
        exists c,
          RenderTarget.read (mem w1) (m_buffer (loop w)) bidx idx = Some c /\
          RenderTarget.read (mem w1) (m_state (loop w)) bidx idx = Some c) ->
     (forall bidx block,
        blocks (device w) !! bidx = Some block ->
        block_directives (mem w1) (m_buffer (loop w)) (m_state (loop w))
                         bidx block = []) /\
     calls (device (snd (render ns w))) = calls (device w) ++ [call_flush]) /\
  (forall b w',
     render ns w = (Returned b, w') ->
     exists w1 invoked,
       run_renderers ns w = (Returned tt, w1) /\
       calls (device w') = calls (device w) ++ invoked /\
       (call_commitColors ∈ invoked <->
        exists bidx block,
          blocks (device w) !! bidx = Some block /\
          block_directives (mem w1) (m_buffer (loop w)) (m_state (loop w))
                           bidx block <> [])).
Proof.
  intros Hne. split.
  - intros w1 Hrend Hsame. split.
    + intros bidx block Hb.
      apply block_directives_unchanged. intros idx Hlt. by eapply Hsame.
    + by eapply render_quiet.
  - intros b w' Hrun.
    destruct (render_returned ns w b w' Hne Hrun)
      as (w1 & Hrend & Hdiff & -> & Hloop & Hdev).
    destruct (diff_and_send_returned w1 w' Hdiff)
      as (_ & _ & _ & _ & Hcalls & _).
    rewrite Hloop, Hdev in *. cbv zeta in Hcalls.
    set (sent := diff_calls (mem w1) (m_buffer (loop w)) (m_state (loop w))
                            0 (blocks (device w))) in *.
    exists w1, ([call_flush] ++ sent ++ commit_calls sent).
    split_and!; [done..|].
    pose proof (diff_calls_empty (mem w1) (m_buffer (loop w))
                  (m_state (loop w)) (blocks (device w)) 0) as Hempty.
    fold sent in Hempty. simpl in Hempty.
    pose proof (diff_calls_not_commit (mem w1) (m_buffer (loop w))
                  (m_state (loop w)) (blocks (device w)) 0) as Hnc.
    fold sent in Hnc.
    rewrite !elem_of_app, list_elem_of_singleton. unfold commit_calls.
    destruct (decide (sent = [])) as [Hs|Hs].
    + split.
      * intros [?|[?|Hin]]; [done|done|by inversion Hin].
      * intros (bidx & block & Hb & Hd). destruct Hd.
        by apply (proj1 Hempty Hs bidx block).
    + split; [|intros _; right; right; by left].
      intros _.
      destruct (decide (Exists (fun '(bidx, block) =>
                  block_directives (mem w1) (m_buffer (loop w))
                    (m_state (loop w)) bidx block <> [])
                  (imap pair (blocks (device w))))) as [Hex|Hnex].
      * apply Exists_exists in Hex as ([bidx block] & Hin & Hd).
        apply elem_of_lookup_imap in Hin as (i & blk & [= -> ->] & Hl).
        by exists i, blk.
      * destruct Hs. apply Hempty. intros k block Hk.
        destruct (decide (block_directives (mem w1) (m_buffer (loop w))
                            (m_state (loop w)) k block = [])) as [|Hd]; [done|].
        destruct Hnex. apply Exists_exists. exists (k, block).
        split; [|done]. apply elem_of_lookup_imap. by exists k, block.
Qed.

End Diff.

(** ** The sample keyboard, tick by tick *)

Lemma render_sends_changes_witness :
  m_renderers (loop w_paint) <> [] /\
  render 0 w_paint = (Returned true, snd (render 0 w_paint)) /\
  calls (device (snd (render 0 w_paint))) =
    [call_flush;
     call_setColors (mkBlock [10; 11; 12; 13; 14]) [mkDirective 13 255 0 0];
     call_setColors (mkBlock [20; 21; 22]) [mkDirective 20 0 0 255];
     call_commitColors].
Proof.
  assert (H1 : m_renderers (loop w_paint) <> []) by (vm_compute; discriminate).
  assert (H2 : render 0 w_paint = (Returned true, snd (render 0 w_paint)))
    by (vm_compute; reflexivity).
  destruct (render_sends_changes 0 w_paint true _ H1 H2)
    as (w1 & Hr & _ & _ & Hcalls).
  split_and!; [exact H1|exact H2|].
  rewrite Hcalls.
  assert (w1 = snd (run_renderers 0 w_paint)) as -> by (by rewrite Hr).
  vm_compute. reflexivity.
Defined.

Lemma render_swaps_witness :
  render 0 w_paint = (Returned true, snd (render 0 w_paint)) /\
  RenderTarget.m_colors (m_state (loop (snd (render 0 w_paint))))
    = RenderTarget.m_colors (m_buffer (loop w_paint)) /\
  RenderTarget.read (mem (snd (render 0 w_paint)))
    (m_state (loop (snd (render 0 w_paint)))) 0 3 = Some red_color.
Proof.
  assert (H1 : m_renderers (loop w_paint) <> []) by (vm_compute; discriminate).
  assert (H2 : render 0 w_paint = (Returned true, snd (render 0 w_paint)))
    by (vm_compute; reflexivity).
  destruct (render_swaps 0 w_paint true _ H2) as [Hswap _].
  destruct (Hswap H1) as (w1 & Hr & _ & _ & _ & Hptr & _ & Hcells).
  assert (w1 = snd (run_renderers 0 w_paint)) as -> by (by rewrite Hr).
  split_and!; [exact H2| |].
  - rewrite Hptr. vm_compute. reflexivity.
  - rewrite Hcells. vm_compute. reflexivity.
Defined.

(** C2 as stated fails on a tick with no renderer: nothing is swapped, and
    the current-state buffer (black) keeps differing from the scratch buffer
    (red). *)
Lemma render_idle_counterexample :
  ~ (forall ns (w : world Scripted) b w' w1,
       render ns w = (Returned b, w') ->
       run_renderers ns w = (Returned tt, w1) ->
       forall bidx idx,
         RenderTarget.read (mem w') (m_state (loop w')) bidx idx
         = RenderTarget.read (mem w1) (m_buffer (loop w1)) bidx idx).
Proof.
  intros Hclaim.
  assert (H1 : render 0 w_idle = (Returned true, w_idle))
    by (vm_compute; reflexivity).
  assert (H2 : run_renderers 0 w_idle = (Returned tt, w_idle))
    by (vm_compute; reflexivity).
  specialize (Hclaim 0 w_idle true w_idle w_idle H1 H2 0%nat 0%nat).
  vm_compute in Hclaim. discriminate.
Qed.

Lemma render_idle_witness :
  m_renderers (loop w_idle) = [] /\
  render 0 w_idle = (Returned true, w_idle) /\
  calls (device (snd (render 0 w_idle))) = calls (device w_idle).
Proof.
  assert (H1 : m_renderers (loop w_idle) = []) by (vm_compute; reflexivity).
  split; [exact H1|]. exact (render_idle 0 w_idle H1).
Defined.

Lemma render_commits_iff_changed_witness :
  m_renderers (loop w_quiet) <> [] /\
  calls (device (snd (render 0 w_quiet))) = [call_flush] /\
  call_commitColors ∈ calls (device (snd (render 0 w_paint))).
Proof.
  assert (H1 : m_renderers (loop w_quiet) <> []) by (vm_compute; discriminate).
  assert (H1' : m_renderers (loop w_paint) <> []) by (vm_compute; discriminate).
  split; [exact H1|].
  destruct (render_commits_iff_changed 0 w_quiet H1) as [Hquiet _].
  destruct (render_commits_iff_changed 0 w_paint H1') as [_ Hcommit].
  split.
  - destruct (Hquiet (snd (run_renderers 0 w_quiet))) as [_ Hcalls].
    + vm_compute. reflexivity.
    + intros bidx block idx Hb Hlt. exists black.
      destruct bidx as [|[|bidx]]; [| |done]; injection Hb as <-;
        simpl in Hlt;
        repeat (destruct idx as [|idx];
                [split; vm_compute; reflexivity|]); lia.
    + rewrite Hcalls. vm_compute. reflexivity.
  - destruct (Hcommit true (snd (render 0 w_paint)))
      as (w1 & invoked & Hr & Hcalls & Hiff).
    + vm_compute. reflexivity.
    + rewrite Hcalls. apply elem_of_app. right. apply Hiff.
      assert (w1 = snd (run_renderers 0 w_paint)) as -> by (by rewrite Hr).
      exists 0%nat, (mkBlock [10; 11; 12; 13; 14]).
      split; [reflexivity|]. vm_compute. discriminate.
Defined.

(** ** Loads and stores *)

Section Heap.

Implicit Types (h : heap) (p q : pointer) (c : RGBAColor).

Lemma store_load_same h p c h' : store h p c = Some h' -> load h' p = Some c.
Proof.
  destruct p as [|r off]; [done|]. simpl.
  destruct (h !! r) as [cells|] eqn:Hr; [|done]. simpl.
  destruct (decide _) as [[H0 Hlt]|]; [|done]. intros [= <-].
  rewrite lookup_insert_eq. simpl. rewrite decide_True by done.
  by apply list_lookup_insert_eq.
Qed.

Lemma store_load_other h p q c h' :
  store h p c = Some h' -> p <> q -> load h' q = load h q.
Proof.
  destruct p as [|r off]; [done|]. simpl.
  destruct (h !! r) as [cells|] eqn:Hr; [|done]. simpl.
  destruct (decide _) as [[H0 Hlt]|]; [|done]. intros [= <-] Hne.
  destruct q as [|r' off']; [done|]. simpl.
  destruct (decide (r = r')) as [<-|Hr'].
  - rewrite lookup_insert_eq, Hr. simpl.
    destruct (decide (0 <= off')); [|done].
    apply list_lookup_insert_ne. intros Heq.
    apply Hne. f_equal. lia.
  - by rewrite lookup_insert_ne.
Qed.

Lemma store_valid h p c : is_Some (load h p) -> is_Some (store h p c).
Proof.
  destruct p as [|r off]; simpl; [by intros [? ?]|].
  destruct (h !! r) as [cells|]; simpl; [|by intros [? ?]].
  destruct (decide (0 <= off)); [|by intros [? ?]].
  intros Hl. apply lookup_lt_is_Some in Hl.
  rewrite decide_True by done. eauto.
Qed.

Lemma store_keeps_valid h p q c h' :
  store h p c = Some h' -> is_Some (load h' q) <-> is_Some (load h q).
Proof.
  intros Hs. destruct (decide (p = q)) as [<-|Hne].
  - rewrite (store_load_same _ _ _ _ Hs).
    destruct p as [|r off]; [done|]. simpl in *.
    destruct (h !! r) as [cells|]; [|done]. simpl in *.
    destruct (decide _) as [[H0 Hlt]|]; [|done].
    rewrite decide_True by done. split; [|eauto].
    intros _. by apply lookup_lt_is_Some.
  - by rewrite (store_load_other _ _ _ _ _ Hs Hne).
Qed.

Lemma store_store h p c1 c2 h1 :
  store h p c1 = Some h1 -> store h1 p c2 = store h p c2.
Proof.
  destruct p as [|r off]; [done|]. simpl.
  destruct (h !! r) as [cells|] eqn:Hr; [|done]. simpl.
  destruct (decide _) as [[H0 Hlt]|]; [|done]. intros [= <-].
  rewrite lookup_insert_eq. simpl.
  rewrite length_insert. rewrite !decide_True by done.
  by rewrite insert_insert_eq, list_insert_insert_eq.
Qed.

End Heap.

(** ** The initial read of the device state *)

Section InitialRead.

Context {D : Type} `{DeviceOps D}.

Lemma read_get h target bidx idx p :
  RenderTarget.get target bidx idx = Some p ->
  RenderTarget.read h target bidx idx = load h p.
Proof. unfold RenderTarget.read. by intros ->. Qed.

Lemma target_update_run target bidx idx g (w : world D) p old :
  RenderTarget.get target bidx idx = Some p ->
  load (mem w) p = Some old ->
  exists h', store (mem w) p (g old) = Some h' /\
             target_update target bidx idx g w = (Returned tt, set_mem h' w).
Proof.
  intros Hp Hl.
  destruct (store_valid (mem w) p (g old)) as [h' Hs]; [by rewrite Hl|].
  exists h'. split; [done|].
  cbv beta iota delta [target_update bind gets expect ret fault modify].
  unfold RenderTarget.read, RenderTarget.write. rewrite Hp. simpl.
  rewrite Hl, Hs. reflexivity.
Qed.

(** The four assignments amount to storing the device's colour, opaque. *)
Lemma store_device_color_run state bidx idx c (w : world D) p :
  RenderTarget.get state bidx idx = Some p ->
  is_Some (load (mem w) p) ->
  exists h', store (mem w) p (opaque c) = Some h' /\
             store_device_color state bidx idx c w = (Returned tt, set_mem h' w).
Proof.
  intros Hp [old Hl]. unfold store_device_color.
  destruct (target_update_run state bidx idx
              (fun color => mkRGBA (d_red c) (green color) (blue color) (alpha color))
              w p old Hp Hl) as (h1 & Hs1 & Hu1).
  rewrite (bind_step _ _ _ _ _ Hu1).
  pose proof (store_load_same _ _ _ _ Hs1) as Hl1.
  destruct (target_update_run state bidx idx
              (fun color => mkRGBA (red color) (d_green c) (blue color) (alpha color))
              (set_mem h1 w) p _ Hp Hl1) as (h2 & Hs2 & Hu2).
  rewrite (bind_step _ _ _ _ _ Hu2).
  pose proof (store_load_same _ _ _ _ Hs2) as Hl2.
  destruct (target_update_run state bidx idx
              (fun color => mkRGBA (red color) (green color) (d_blue c) (alpha color))
              (set_mem h2 (set_mem h1 w)) p _ Hp Hl2) as (h3 & Hs3 & Hu3).
  rewrite (bind_step _ _ _ _ _ Hu3).
  pose proof (store_load_same _ _ _ _ Hs3) as Hl3.
  destruct (target_update_run state bidx idx
              (fun color => mkRGBA (red color) (green color) (blue color) 255)
              (set_mem h3 (set_mem h2 (set_mem h1 w))) p _ Hp Hl3)
    as (h4 & Hs4 & Hu4).
  rewrite Hu4. exists h4. split; [|done].
  simpl in Hs2, Hs3, Hs4.
  rewrite (store_store _ _ _ _ _ Hs3) in Hs4.
  rewrite (store_store _ _ _ _ _ Hs2) in Hs4.
  rewrite (store_store _ _ _ _ _ Hs1) in Hs4.
  exact Hs4.
Qed.

Lemma set_mem_same (w : world D) : set_mem (mem w) w = w.
Proof. by destruct w. Qed.

(** The loop over the colours of one block. *)
Lemma fill_cells state bidx (colors : list ColorDirective) idxs :
  forall w : world D,
  NoDup idxs ->
  (forall idx, idx ∈ idxs ->
     is_Some (colors !! idx) /\
     exists p, RenderTarget.get state bidx idx = Some p /\
               is_Some (load (mem w) p)) ->
  (forall idx idx' p, idx ∈ idxs -> idx' ∈ idxs ->
     RenderTarget.get state bidx idx = Some p ->
     RenderTarget.get state bidx idx' = Some p -> idx = idx') ->
  exists h',
    for_each idxs (fun idx =>
      let* c := expect (colors !! idx) in
      store_device_color state bidx idx c) w = (Returned tt, set_mem h' w) /\
    (forall idx c, idx ∈ idxs -> colors !! idx = Some c ->
       RenderTarget.read h' state bidx idx = Some (opaque c)) /\
    (forall q, (forall idx, idx ∈ idxs ->
                  RenderTarget.get state bidx idx <> Some q) ->
       load h' q = load (mem w) q) /\
    (forall q, is_Some (load h' q) <-> is_Some (load (mem w) q)).
Proof.
  induction idxs as [|idx idxs IH]; intros w Hnd Hok Hinj.
  { exists (mem w). simpl. unfold ret. rewrite set_mem_same.
    split_and!; try done. intros idx c Hin. by inversion Hin. }
  apply NoDup_cons in Hnd as [Hnotin Hnd].
  destruct (Hok idx) as ([c Hc] & p & Hp & Hvalid); [by left|].
  destruct (store_device_color_run state bidx idx c w p Hp Hvalid)
    as (h1 & Hs1 & Hrun1).
  destruct (IH (set_mem h1 w) Hnd) as (h' & Hrun & Hcells & Hframe & Hkeep).
  { intros i Hi. destruct (Hok i) as (Hci & q & Hq & Hv); [by right|].
    split; [done|]. exists q. split; [done|]. simpl.
    by apply (store_keeps_valid _ _ _ _ _ Hs1). }
  { intros i i' q Hi Hi'. apply Hinj; by right. }
  exists h'. simpl in *. split_and!.
  - unfold bind at 1. unfold bind at 1. unfold expect at 1. rewrite Hc.
    unfold ret at 1. rewrite Hrun1. exact Hrun.
  - intros i ci [->|Hi]%elem_of_cons Hci.
    + rewrite Hc in Hci. injection Hci as <-.
      rewrite (read_get _ _ _ _ _ Hp), Hframe.
      * by apply (store_load_same _ _ _ _ Hs1).
      * intros i Hi Hq. apply Hnotin.
        rewrite (Hinj idx i p); [done|by left|by right|done..].
    + by apply Hcells.
  - intros q Hq. rewrite Hframe.
    + apply (store_load_other _ _ _ _ _ Hs1). intros ->.
      by apply (Hq idx); [left|].
    + intros i Hi. apply Hq. by right.
  - intros q. rewrite Hkeep. by apply (store_keeps_valid _ _ _ _ _ Hs1).
Qed.

Lemma getColors_returned block (w : world D) colors d' :
  getColors block (hw (device w)) = (inr colors, d') ->
  device_getColors block w
  = (Returned colors, record_call (call_getColors block) d' w).
Proof. unfold device_getColors. by intros ->. Qed.


(** The loop over blocks [first, first + length rest). *)
Lemma fill_blocks state bs rest : forall first (w : world D) css d',
  (forall k, rest !! k = bs !! (first + k)%nat) ->
  distinct_cells state bs ->
  addressable (mem w) state bs ->
  read_colors rest (hw (device w)) = (inr css, d') ->
  Forall2 (fun block colors => length colors = length (keys block)) rest css ->
  exists w',
    for_each (seq first (length rest)) (read_block_state bs state) w
      = (Returned tt, w') /\
    hw (device w') = d' /\
    calls (device w') = calls (device w) ++ (call_getColors <$> rest) /\
    (forall k colors idx c,
       css !! k = Some colors -> colors !! idx = Some c ->
       RenderTarget.read (mem w') state (first + k) idx = Some (opaque c)) /\
    (forall q,
       (forall k block idx, rest !! k = Some block ->
          (idx < length (keys block))%nat ->
          RenderTarget.get state (first + k) idx <> Some q) ->
       load (mem w') q = load (mem w) q) /\
    (forall q, is_Some (load (mem w') q) <-> is_Some (load (mem w) q)).
Proof.
  induction rest as [|block rest IH]; intros first w css d' Hbs Hdist Haddr Hrc Hlen.
  { simpl in *. injection Hrc as <- <-. exists w.
    rewrite app_nil_r. split_and!; try done. }
  simpl in Hrc.
  destruct (getColors block (hw (device w))) as [[e|colors] d1] eqn:Hg; [done|].
  destruct (read_colors rest d1) as [[e|more] d2] eqn:Hrest; [done|].
  injection Hrc as <- <-.
  apply Forall2_cons in Hlen as [Hlen0 Hlen].
  assert (Hb : bs !! first = Some block).
  { pose proof (Hbs 0%nat) as H0. simpl in H0. by rewrite Nat.add_0_r in H0. }
  set (w1 := record_call (call_getColors block) d1 w).
  destruct (fill_cells state first colors (seq 0 (length colors)) w1)
    as (h2 & Hfill & Hcells & Hframe & Hkeep).
  { apply NoDup_seq. }
  { intros idx Hin. apply elem_of_seq in Hin. split.
    - apply lookup_lt_is_Some. lia.
    - destruct (Haddr first idx block Hb) as [c Hc]; [lia|].
      unfold RenderTarget.read in Hc.
      destruct (RenderTarget.get state first idx) as [p|]; [|done].
      exists p. split; [done|]. by exists c. }
  { intros idx idx' p Hin Hin' Hp Hp'.
    apply elem_of_seq in Hin. apply elem_of_seq in Hin'.
    by destruct (Hdist first block idx first block idx' p Hb ltac:(lia)
                   Hb ltac:(lia) Hp Hp'). }
  set (w2 := set_mem h2 w1) in *.
  destruct (IH (S first) w2 more d2) as (w' & Hrun & Hhw & Hcalls & Hall & Hfr & Hk).
  { intros k. pose proof (Hbs (S k)) as Hk. simpl in Hk.
    replace (first + S k)%nat with (S first + k)%nat in Hk by lia. done. }
  { done. }
  { intros b i blk Hblk Hi. destruct (Haddr b i blk Hblk Hi) as [c Hc].
    unfold RenderTarget.read in *.
    destruct (RenderTarget.get state b i) as [p|]; [|done]. simpl in *.
    apply Hkeep. by exists c. }
  { exact Hrest. }
  { exact Hlen. }
  exists w'. split_and!.
  - simpl. unfold bind at 1. unfold read_block_state at 1.
    unfold bind at 1. unfold expect at 1. rewrite Hb. unfold ret at 1.
    unfold bind at 1. rewrite (getColors_returned block w colors d1 Hg).
    fold w1. rewrite Hfill. exact Hrun.
  - exact Hhw.
  - rewrite Hcalls. simpl. by rewrite <- app_assoc.
  - intros [|k] cs idx c Hcs Hc; simpl in Hcs.
    + injection Hcs as <-. rewrite Nat.add_0_r.
      pose proof (Hcells idx c) as Hcell.
      assert (Hidx : (idx < length colors)%nat) by (by eapply lookup_lt_Some).
      specialize (Hcell ltac:(apply elem_of_seq; lia) Hc).
      unfold RenderTarget.read in *.
      destruct (RenderTarget.get state first idx) as [p|] eqn:Hp; [|done].
      simpl in *. rewrite Hfr; [done|].
      intros k blk i Hblk Hi Hq.
      assert (Hblk' : bs !! (S first + k)%nat = Some blk).
      { pose proof (Hbs (S k)) as Hk'. simpl in Hk'.
        replace (first + S k)%nat with (S first + k)%nat in Hk' by lia.
        by rewrite <- Hk'. }
      destruct (Hdist first block idx (S first + k)%nat blk i p Hb
                  ltac:(lia) Hblk' Hi Hp Hq). lia.
    + replace (first + S k)%nat with (S first + k)%nat by lia.
      by eapply Hall.
  - intros q Hq. rewrite Hfr.
    + simpl. apply Hframe. intros idx Hin. apply elem_of_seq in Hin.
      specialize (Hq 0%nat block idx eq_refl ltac:(lia)).
      by rewrite Nat.add_0_r in Hq.
    + intros k blk i Hblk Hi.
      replace (S first + k)%nat with (first + S k)%nat by lia.
      by apply (Hq (S k) blk i).
  - intros q. rewrite Hk. simpl. apply Hkeep.
Qed.

Lemma read_block_state_calls bs state idx (w : world D) :
  exists asked,
    calls (device (snd (read_block_state bs state idx w)))
    = calls (device w) ++ (call_getColors <$> asked).
Proof.
  unfold read_block_state. unfold bind at 1. unfold expect at 1.
  destruct (bs !! idx) as [block|]; [|by exists []; rewrite app_nil_r].
  unfold ret at 1. unfold bind at 1. unfold device_getColors at 1.
  destruct (getColors block (hw (device w))) as [[e|colors] d1];
    [by exists [block]|].
  exists [block].
  match goal with |- context [for_each ?xs ?body ?w1] =>
    pose proof (preserves_for_each device xs body) as Hp;
    specialize (Hp ltac:(intros idx'; unfold store_device_color; frame;
                         by apply preserves_target_update) w1)
  end.
  by rewrite Hp.
Qed.

Lemma read_blocks_calls bs state idxs : forall w : world D,
  exists asked,
    calls (device (snd (for_each idxs (read_block_state bs state) w)))
    = calls (device w) ++ (call_getColors <$> asked).
Proof.
  induction idxs as [|idx idxs IH]; intros w; simpl.
  { exists []. by rewrite app_nil_r. }
  destruct (read_block_state_calls bs state idx w) as [asked1 H1].
  unfold bind.
  destruct (read_block_state bs state idx w) as [[[]|e| |] w1]; simpl in *;
    try by exists asked1.
  destruct (IH w1) as [asked2 H2]. exists (asked1 ++ asked2).
  by rewrite H2, H1, fmap_app, app_assoc.
Qed.

(** [getDeviceState] invokes [getColors] and nothing else. *)
Lemma getDeviceState_calls state (w : world D) :
  exists asked,
    calls (device (snd (getDeviceState state w)))
    = calls (device w) ++ (call_getColors <$> asked).
Proof. unfold getDeviceState, bind, gets. apply read_blocks_calls. Qed.

Lemma run_after_read (w : world D) w' :
  getDeviceState (m_state (loop w)) w = (Returned tt, w') ->
  run w = run_periodic w'.
Proof.
  intros Hread. unfold run. unfold bind at 1. unfold try_catch at 1.
  unfold bind at 1. unfold gets at 1. unfold bind at 1. rewrite Hread.
  reflexivity.
Qed.

Lemma run_read_failed (w : world D) code what w1 :
  getDeviceState (m_state (loop w)) w = (Raised (DeviceError code what), w1) ->
  run w = (Returned tt,
           set_errors (errors w1 ++ ["device error: " +:+ what]) w1).
Proof.
  intros Hread. unfold run. unfold bind at 1. unfold try_catch at 1.
  unfold bind at 1. unfold gets at 1. unfold bind at 1. rewrite Hread.
  reflexivity.
Qed.

(** C8: [run] first reads the device state into the current-state buffer.
    When the device answers every block with one colour per key, there is
    exactly one [getColors] call per block, in block order, every cell
    (block, index) ends up holding the red, green and blue of the colour
    received for that key with alpha 255, and [run] goes on with the rest of
    its body; when the read raises a device error, [run] returns after
    adding the one line "device error: ..." to the log, having invoked
    nothing but [getColors] (so not [setTimeout]) and consumed no tick. *)
Theorem run_reads_device_state (w : world D) :
  let state := m_state (loop w) in
  let bs := blocks (device w) in
  (forall css d',
     distinct_cells state bs ->
     addressable (mem w) state bs ->
     read_colors bs (hw (device w)) = (inr css, d') ->
     Forall2 (fun block colors => length colors = length (keys block)) bs css ->
     exists w',
       getDeviceState state w = (Returned tt, w') /\
       run w = run_periodic w' /\
       hw (device w') = d' /\
       calls (device w') = calls (device w) ++ (call_getColors <$> bs) /\
       (forall bidx colors idx c,
          css !! bidx = Some colors -> colors !! idx = Some c ->
          RenderTarget.read (mem w') state bidx idx
          = Some (mkRGBA (d_red c) (d_green c) (d_blue c) 255)) /\
       loop w' = loop w /\ pending w' = pending w /\ errors w' = errors w) /\
  (forall code what w1,
     getDeviceState state w = (Raised (DeviceError code what), w1) ->
     run w = (Returned tt,
              set_errors (errors w ++ ["device error: " +:+ what]) w1) /\
     pending w1 = pending w /\
     exists asked,
       calls (device w1) = calls (device w) ++ (call_getColors <$> asked)).
Proof.
  cbv zeta. split.
  - intros css d' Hdist Haddr Hrc Hlen.
    destruct (fill_blocks (m_state (loop w)) (blocks (device w))
                (blocks (device w)) 0 w css d')
      as (w' & Hrun & Hhw & Hcalls & Hcells & _ & _); try done.
    assert (Hread : getDeviceState (m_state (loop w)) w = (Returned tt, w')).
    { unfold getDeviceState, bind, gets. exact Hrun. }
    pose proof (preserves_getDeviceState loop (m_state (loop w))
                  ltac:(done) ltac:(done) w) as Hloop.
    pose proof (preserves_getDeviceState pending (m_state (loop w))
                  ltac:(done) ltac:(done) w) as Hpend.
    pose proof (preserves_getDeviceState errors (m_state (loop w))
                  ltac:(done) ltac:(done) w) as Herr.
    rewrite Hread in Hloop, Hpend, Herr. simpl in Hloop, Hpend, Herr.
    exists w'. split_and!; try done.
    by apply run_after_read.
  - intros code what w1 Hread.
    pose proof (preserves_getDeviceState pending (m_state (loop w))
                  ltac:(done) ltac:(done) w) as Hpend.
    pose proof (preserves_getDeviceState errors (m_state (loop w))
                  ltac:(done) ltac:(done) w) as Herr.
    destruct (getDeviceState_calls (m_state (loop w)) w) as [asked Hcalls].
    rewrite Hread in Hpend, Herr, Hcalls. simpl in Hpend, Herr, Hcalls.
    split_and!; [|done|by exists asked].
    rewrite (run_read_failed w code what w1 Hread). by rewrite Herr.
Qed.

End InitialRead.

(** ** The periodic phase and its recovery loop *)

Section Recovery.

Context {D : Type} `{DeviceOps D}.

(** A periodic phase that starts with events pending consumes at least
    one of them. *)
Lemma AnimationLoop_steps_pending events : forall w : world D,
  events <> [] ->
  (length (pending (snd (AnimationLoop_steps events w))) < length events)%nat.
Proof.
  induction events as [|ev rest IH]; intros w Hne; [done|]. clear Hne.
  assert (Hrest : forall w1 : world D, pending w1 = rest ->
            (length (pending (snd (AnimationLoop_steps rest w1)))
             < S (length rest))%nat).
  { intros w1 Hw1. destruct rest as [|ev' rest'].
    - simpl. rewrite Hw1. simpl. lia.
    - specialize (IH w1 ltac:(done)). lia. }
  simpl. unfold bind at 1. unfold modify at 1.
  set (w0 := set_pending rest w).
  destruct ev as [ns|rs].
  - pose proof (preserves_render pending ns
                  ltac:(done) ltac:(done) ltac:(done) w0) as Hp.
    unfold bind.
    destruct (render ns w0) as [[[|]|e| |] w1]; simpl in *;
      try (rewrite Hp; lia).
    by apply Hrest.
  - unfold bind at 1. unfold setRenderers at 1. unfold modify at 1.
    by apply Hrest.
Qed.

Lemma AnimationLoop_run_pending (w : world D) r w1 :
  AnimationLoop_run w = (r, w1) -> r <> Returned tt ->
  (length (pending w1) < length (pending w))%nat.
Proof.
  unfold AnimationLoop_run, bind, gets. intros Hrun Hr.
  destruct (pending w) as [|ev rest] eqn:Hp.
  { simpl in Hrun. unfold ret in Hrun. injection Hrun as <- _. done. }
  pose proof (AnimationLoop_steps_pending (ev :: rest) w ltac:(done)) as Hlt.
  by rewrite Hrun in Hlt.
Qed.

(** What one pass of the recovery loop does, by outcome of the periodic
    phase. *)
Lemma attempt_returned (w : world D) w1 :
  AnimationLoop_run w = (Returned tt, w1) -> attempt w = (Returned false, w1).
Proof.
  intros Hrun. unfold attempt, try_catch.
  by rewrite (bind_step _ _ _ _ _ Hrun).
Qed.

Lemma attempt_resynced (w : world D) code what w1 d' :
  AnimationLoop_run w = (Raised (DeviceError code what), w1) ->
  resync (hw (device w1)) = (true, d') ->
  attempt w = (Returned true, record_call call_resync d' w1).
Proof.
  intros Hrun Hres. unfold attempt, try_catch.
  rewrite (bind_raised _ _ _ _ _ Hrun).
  unfold bind, device_resync. by rewrite Hres.
Qed.

Lemma attempt_lost (w : world D) code what w1 d' :
  AnimationLoop_run w = (Raised (DeviceError code what), w1) ->
  resync (hw (device w1)) = (false, d') ->
  attempt w = (Raised (DeviceError code what), record_call call_resync d' w1).
Proof.
  intros Hrun Hres. unfold attempt, try_catch.
  rewrite (bind_raised _ _ _ _ _ Hrun).
  unfold bind, device_resync. by rewrite Hres.
Qed.

Lemma attempt_other (w : world D) what w1 :
  AnimationLoop_run w = (Raised (StdException what), w1) ->
  attempt w = (Raised (StdException what), w1).
Proof.
  intros Hrun. unfold attempt, try_catch.
  by rewrite (bind_raised _ _ _ _ _ Hrun).
Qed.

(** Going round again means an event was consumed. *)
Lemma attempt_again_pending (w : world D) w1 :
  attempt w = (Returned true, w1) ->
  (length (pending w1) < length (pending w))%nat.
Proof.
  destruct (AnimationLoop_run w) as [r w0] eqn:Hrun.
  destruct r as [[]|[code what|what]| |].
  - rewrite (attempt_returned w w0 Hrun). done.
  - destruct (resync (hw (device w0))) as [[|] d'] eqn:Hres.
    + rewrite (attempt_resynced w code what w0 d' Hrun Hres).
      intros [= <-]. simpl.
      by apply (AnimationLoop_run_pending w _ w0 Hrun).
    + by rewrite (attempt_lost w code what w0 d' Hrun Hres).
  - by rewrite (attempt_other w what w0 Hrun).
  - unfold attempt, try_catch. by rewrite (bind_fault _ _ _ _ Hrun).
  - unfold attempt, try_catch, bind. by rewrite Hrun.
Qed.

(** Any fuel above the number of pending events gives the same run. *)
Lemma recovery_loop_fuel n : forall m (w : world D),
  (length (pending w) < n)%nat -> (length (pending w) < m)%nat ->
  recovery_loop n w = recovery_loop m w.
Proof.
  induction n as [|n IH]; intros m w Hn Hm; [lia|].
  destruct m as [|m]; [lia|]. simpl. unfold bind.
  destruct (attempt w) as [[[|]|e| |] w1] eqn:Hatt; try done.
  pose proof (attempt_again_pending w w1 Hatt). apply IH; lia.
Qed.

Lemma recovery_fuel n (w : world D) :
  (length (pending w) < n)%nat -> recovery_loop n w = recovery w.
Proof.
  intros Hn. unfold recovery, bind, gets. apply recovery_loop_fuel; lia.
Qed.

Lemma recovery_unfold (w : world D) :
  recovery w =
  match attempt w with
  | (Returned true, w1) => recovery w1
  | (Returned false, w1) => (Returned tt, w1)
  | (Raised e, w1) => (Raised e, w1)
  | (Faulted, w1) => (Faulted, w1)
  | (OutOfFuel, w1) => (OutOfFuel, w1)
  end.
Proof.
  unfold recovery at 1. unfold bind at 1. unfold gets at 1.
  simpl. unfold bind.
  destruct (attempt w) as [[[|]|e| |] w1] eqn:Hatt; try done.
  pose proof (attempt_again_pending w w1 Hatt).
  apply recovery_fuel. lia.
Qed.

(** *** The loop never runs out of fuel *)

Lemma fueled_raising c op : fueled (@raising D c op).
Proof.
  intros w. unfold raising. by destruct (op (hw (device w))) as [[e|] hw'].
Qed.

Lemma fueled_getColors block : fueled (device_getColors block).
Proof.
  intros w. unfold device_getColors.
  by destruct (getColors block (hw (device w))) as [[e|cs] hw'].
Qed.

Lemma fueled_resync : fueled device_resync.
Proof.
  intros w. unfold device_resync. by destruct (resync (hw (device w))).
Qed.

Lemma fueled_target_update target bidx idx g :
  fueled (@target_update D target bidx idx g).
Proof. unfold target_update. auto 10 with fuel. Qed.

Lemma fueled_Renderer_render renderer ns target :
  fueled (@Renderer_render D renderer ns target).
Proof.
  unfold Renderer_render. apply fueled_bind; [apply fueled_gets|].
  intros h. apply fueled_for_each. intros [[bidx idx] c].
  apply fueled_target_update.
Qed.

Lemma fueled_render ns : fueled (render ns).
Proof.
  unfold render, run_renderers, diff_and_send, diff_block,
    diff_key, target_read, device_flush, device_setColors,
    device_commitColors, directives_clear, directives_push_back,
    swap_state_buffer.
  repeat first
    [ simple apply fueled_ret | simple apply fueled_gets
    | simple apply fueled_modify | simple apply fueled_expect
    | simple apply fueled_raising | simple apply fueled_target_update
    | simple apply fueled_Renderer_render
    | simple apply fueled_bind | simple apply fueled_if
    | simple apply fueled_for_each | simple apply fueled_for_fold
    | match goal with |- forall _, _ => intro end ].
Qed.

Lemma fueled_AnimationLoop_steps events : fueled (AnimationLoop_steps events).
Proof.
  induction events as [|ev rest IH]; simpl; [apply fueled_ret|].
  apply fueled_bind; [apply fueled_modify|intros _].
  destruct ev as [ns|rs].
  - apply fueled_bind; [apply fueled_render|].
    intros [|]; [done|apply fueled_ret].
  - apply fueled_bind; [apply fueled_modify|done].
Qed.

Lemma fueled_attempt : fueled attempt.
Proof.
  apply fueled_try_catch.
  - apply fueled_bind; [|intros; apply fueled_ret].
    intros w. unfold AnimationLoop_run, bind, gets.
    apply fueled_AnimationLoop_steps.
  - intros [code what|what] h Hh; [|done]. injection Hh as <-.
    apply fueled_bind; [apply fueled_resync|].
    intros [|]; [apply fueled_ret|apply fueled_throw].
Qed.

Lemma recovery_loop_enough n : forall w : world D,
  (length (pending w) < n)%nat -> fst (recovery_loop n w) <> OutOfFuel.
Proof.
  induction n as [|n IH]; intros w Hn; [lia|]. simpl. unfold bind.
  pose proof (fueled_attempt w) as Hf.
  destruct (attempt w) as [[[|]|e| |] w1] eqn:Hatt; try done.
  pose proof (attempt_again_pending w w1 Hatt). apply IH. lia.
Qed.

Lemma fueled_recovery : fueled recovery.
Proof.
  intros w. unfold recovery, bind, gets. apply recovery_loop_enough. lia.
Qed.

(** [run] always comes to an end: it returns, raises or faults. *)
Lemma run_never_out_of_fuel : fueled run.
Proof.
  unfold run. apply fueled_bind.
  - apply fueled_try_catch.
    + unfold getDeviceState, read_block_state, store_device_color.
      repeat first
        [ simple apply fueled_ret | simple apply fueled_gets
        | simple apply fueled_expect | simple apply fueled_getColors
        | simple apply fueled_target_update
        | simple apply fueled_bind | simple apply fueled_for_each
        | match goal with |- forall _, _ => intro end ].
    + intros [code what|what] h Hh; [|done]. injection Hh as <-.
      apply fueled_bind; [apply fueled_modify|intros; apply fueled_ret].
  - intros [|]; [apply fueled_ret|].
    unfold run_periodic. apply fueled_bind; [done|intros _].
    apply fueled_try_catch; [apply fueled_recovery|].
    intros [code what|what] h Hh; injection Hh as <-.
    + apply fueled_bind; [apply fueled_gets|].
      intros errno_now. apply fueled_if; [apply fueled_modify|apply fueled_ret].
    + apply fueled_modify.
Qed.

(** C5: when the periodic phase exits by raising a device error, [resync]
    is invoked; if it reports success the loop goes round again and the
    periodic phase starts afresh from the resynchronised world; if it
    reports failure the same device error leaves the recovery loop, towards
    the final [catch] clauses, and nothing is retried; an exception that is
    not a device error leaves the recovery loop from the very world in which
    the periodic phase ended, so without any [resync]. *)
Theorem recovery_resyncs (w w1 : world D) :
  (forall code what d',
     AnimationLoop_run w = (Raised (DeviceError code what), w1) ->
     let w2 := record_call call_resync d' w1 in
     calls (device w2) = calls (device w1) ++ [call_resync] /\
     (resync (hw (device w1)) = (true, d') ->
      attempt w = (Returned true, w2) /\
      recovery w = recovery w2) /\
     (resync (hw (device w1)) = (false, d') ->
      recovery w = (Raised (DeviceError code what), w2))) /\
  (forall what,
     AnimationLoop_run w = (Raised (StdException what), w1) ->
     recovery w = (Raised (StdException what), w1)) /\
  (AnimationLoop_run w = (Returned tt, w1) ->
   recovery w = (Returned tt, w1)).
Proof.
  split_and!.
  - intros code what d' Hrun. cbv zeta. split_and!; [done| |].
    + intros Hres.
      pose proof (attempt_resynced w code what w1 d' Hrun Hres) as Hatt.
      split; [done|]. by rewrite recovery_unfold, Hatt.
    + intros Hres.
      pose proof (attempt_lost w code what w1 d' Hrun Hres) as Hatt.
      by rewrite recovery_unfold, Hatt.
  - intros what Hrun.
    by rewrite recovery_unfold, (attempt_other w what w1 Hrun).
  - intros Hrun.
    by rewrite recovery_unfold, (attempt_returned w w1 Hrun).
Qed.

Lemma exit_lines_expected code what errno_now :
  exit_lines (DeviceError code what) errno_now =
  if expected_at_exit code errno_now then [] else ["device error: " +:+ what].
Proof.
  unfold exit_lines, expected_at_exit.
  repeat case_bool_decide; case_decide; simpl; try done; exfalso; tauto.
Qed.

(** How [run] ends when the recovery loop ends with an exception. *)
Lemma run_periodic_raised (w : world D) e w2 :
  recovery (snd (device_setTimeout 0 w)) = (Raised e, w2) ->
  run_periodic w
  = (Returned tt,
     set_errors (errors w2 ++ exit_lines e (errno (hw (device w2)))) w2).
Proof.
  intros Hphase. unfold run_periodic. unfold bind at 1.
  unfold device_setTimeout at 1. simpl in Hphase.
  unfold try_catch. rewrite Hphase.
  destruct e as [code what|what].
  - rewrite exit_lines_expected. unfold exit_handler, bind, gets.
    destruct (expected_at_exit code (errno (hw (device w2)))); simpl.
    + unfold ret. rewrite app_nil_r. by destruct w2.
    + reflexivity.
  - reflexivity.
Qed.

(** C4: when the recovery loop around the periodic phase ends with an
    exception [e], that is with a final, unrecoverable error, [run] returns
    normally, having added to the error log the lines [exit_lines e]: none
    exactly when [e] is a device error whose code is [KEYLEDS_ERROR_ERRNO]
    with [errno] equal to [ENODEV] at that moment, or whose code is
    [KEYLEDS_ERROR_TIMEDOUT]; otherwise exactly one line. *)
Theorem run_classifies_exit (w w1 : world D) e w2 :
  getDeviceState (m_state (loop w)) w = (Returned tt, w1) ->
  recovery (snd (device_setTimeout 0 w1)) = (Raised e, w2) ->
  let errno_now := errno (hw (device w2)) in
  let lines := exit_lines e errno_now in
  run w = (Returned tt, set_errors (errors w ++ lines) w2) /\
  (lines = [] <->
   exists code what,
     e = DeviceError code what /\
     ((code = KEYLEDS_ERROR_ERRNO /\ errno_now = ENODEV)
      \/ code = KEYLEDS_ERROR_TIMEDOUT)) /\
  (lines <> [] ->
   lines = [match e with
            | DeviceError _ what => "device error: " +:+ what
            | StdException what => what
            end]).
Proof.
  intros Hread Hphase. cbv zeta. split_and!.
  - rewrite (run_after_read w w1 Hread).
    rewrite (run_periodic_raised w1 e w2 Hphase). do 3 f_equal.
    pose proof (preserves_getDeviceState errors (m_state (loop w))
                  ltac:(done) ltac:(done) w) as H1.
    rewrite Hread in H1. simpl in H1.
    pose proof (preserves_recovery errors
                  ltac:(done) ltac:(done) ltac:(done) ltac:(done)
                  (snd (device_setTimeout 0 w1))) as H2.
    rewrite Hphase in H2. simpl in H2. by rewrite H2, H1.
  - destruct e as [code what|what]; simpl.
    + destruct (decide _) as [Hd|Hd].
      * split; [|done]. intros _. by exists code, what.
      * split; [done|]. intros (code' & what' & [= <- <-] & Hc). done.
    + split; [done|]. by intros (code & what' & [=] & _).
  - destruct e as [code what|what]; simpl; [|done].
    by destruct (decide _).
Qed.

End Recovery.

(** ** What the constructors establish *)

Section Constructed.

Context {D : Type} `{DeviceOps D}.

Lemma renderTargetFor_sizes (bs : list KeyBlock) : forall acc,
  foldl (fun sizes block => sizes ++ [Z.of_nat (length (keys block))]) acc bs
  = acc ++ key_counts bs.
Proof.
  induction bs as [|b bs IH]; intros acc; simpl.
  - by rewrite app_nil_r.
  - rewrite IH. by rewrite <- app_assoc.
Qed.

Lemma key_counts_lookup bs bidx block :
  bs !! bidx = Some block ->
  key_counts bs !! bidx = Some (Z.of_nat (length (keys block))).
Proof. intros Hb. unfold key_counts. by rewrite list_lookup_fmap, Hb. Qed.

(** The cells of a target laid out over a region. *)
Lemma target_in_cell r bs bidx block idx :
  Forall is_size_t (key_counts bs) ->
  bs !! bidx = Some block -> (idx < length (keys block))%nat ->
  exists start,
    block_starts (key_counts bs) !! bidx = Some start /\
    RenderTarget.get (target_in r (key_counts bs)) bidx idx
      = Some (Ptr r (start + Z.of_nat idx)) /\
    0 <= start /\
    start + Z.of_nat idx < padded_total (key_counts bs).
Proof.
  intros Hs Hb Hlt.
  destruct (layout_block (key_counts bs) 0 bidx _ Hs (key_counts_lookup _ _ _ Hb))
    as (start & Hstart & H0 & Hend & _).
  exists start. split_and!; [done| |done|].
  - by apply get_created.
  - unfold padded_total. lia.
Qed.

Lemma target_in_distinct r bs :
  Forall is_size_t (key_counts bs) ->
  distinct_cells (target_in r (key_counts bs)) bs.
Proof.
  intros Hs bidx block idx bidx' block' idx' p Hb Hlt Hb' Hlt' Hg Hg'.
  destruct (layout_block (key_counts bs) 0 bidx _ Hs (key_counts_lookup _ _ _ Hb))
    as (start & Hstart & _ & _ & Hnext).
  destruct (layout_block (key_counts bs) 0 bidx' _ Hs (key_counts_lookup _ _ _ Hb'))
    as (start' & Hstart' & _ & _ & Hnext').
  unfold target_in in Hg, Hg'.
  rewrite (get_created _ _ _ _ start) in Hg by done.
  rewrite (get_created _ _ _ _ start') in Hg' by done.
  injection Hg as <-. injection Hg' as Heq.
  destruct (Nat.lt_total bidx bidx') as [Hl|[->|Hl]].
  - specialize (Hnext bidx' start' Hl Hstart'). lia.
  - fold (block_starts (key_counts bs)) in Hstart, Hstart'.
    rewrite Hstart in Hstart'. injection Hstart' as <-. split; [done|lia].
  - specialize (Hnext' bidx start Hl Hstart). lia.
Qed.

Lemma target_in_read r bs (h : heap) contents bidx block idx :
  Forall is_size_t (key_counts bs) ->
  h !! r = Some (contents <$> seq 0 (Z.to_nat (padded_total (key_counts bs)))) ->
  bs !! bidx = Some block -> (idx < length (keys block))%nat ->
  exists start,
    block_starts (key_counts bs) !! bidx = Some start /\
    RenderTarget.read h (target_in r (key_counts bs)) bidx idx
      = Some (contents (Z.to_nat (start + Z.of_nat idx))).
Proof.
  intros Hs Hr Hb Hlt.
  destruct (target_in_cell r bs bidx block idx Hs Hb Hlt)
    as (start & Hstart & Hget & H0 & Hend).
  exists start. split; [done|].
  rewrite (read_get _ _ _ _ _ Hget). simpl. rewrite Hr. simpl.
  rewrite decide_True by lia.
  rewrite list_lookup_fmap, lookup_seq_lt by lia. reflexivity.
Qed.

(** The loop's constructor: two targets over two different fresh regions,
    each holding what the allocator left there. *)
Lemma RenderLoop_create_fits (dev : Device D) rs in_state in_buffer h :
  let sizes := key_counts (blocks dev) in
  let n := Z.to_nat (padded_total sizes) in
  Forall is_size_t sizes ->
  padded_total sizes * sizeof_RGBAColor < size_t_modulus ->
  exists r1 r2,
    r1 <> r2 /\ h !! r1 = None /\ h !! r2 = None /\
    RenderLoop_create dev rs (Allocated in_state) (Allocated in_buffer) h
    = Some (mkLoop rs (target_in r1 sizes) (target_in r2 sizes) [],
            <[r2 := in_buffer <$> seq 0 n]> (<[r1 := in_state <$> seq 0 n]> h)).
Proof.
  intros sizes n Hs Hfit.
  set (r1 := fresh (dom h)).
  set (h1 := <[r1 := in_state <$> seq 0 n]> h).
  set (r2 := fresh (dom h1)).
  assert (Hr1 : h !! r1 = None) by (apply not_elem_of_dom, is_fresh).
  assert (Hr2 : h1 !! r2 = None) by (apply not_elem_of_dom, is_fresh).
  assert (Hne : r1 <> r2).
  { intros Heq. rewrite <- Heq in Hr2. unfold h1 in Hr2.
    by rewrite lookup_insert_eq in Hr2. }
  exists r1, r2. split_and!; [done|done| |].
  - unfold h1 in Hr2. by rewrite lookup_insert_ne in Hr2.
  - unfold RenderLoop_create, renderTargetFor.
    rewrite !renderTargetFor_sizes, !app_nil_l.
    fold sizes. rewrite (create_fits sizes in_state h Hs Hfit).
    fold r1 n h1. rewrite (create_fits sizes in_buffer h1 Hs Hfit).
    reflexivity.
Qed.

End Constructed.

(** ** Cells nobody writes *)

Section Untouched.

Context {D : Type} `{DeviceOps D}.

(** A write through [get] changes the addressed cell only. *)
Lemma target_update_frame target bidx idx g (q : pointer) :
  RenderTarget.get target bidx idx <> Some q ->
  preserves (fun w : world D => load (mem w) q)
            (target_update target bidx idx g).
Proof.
  intros Hq w.
  cbv beta iota delta [target_update bind gets expect ret fault modify].
  destruct (RenderTarget.read (mem w) target bidx idx) as [old|]; [|done].
  unfold RenderTarget.write.
  destruct (RenderTarget.get target bidx idx) as [p|]; [|done]. simpl.
  destruct (store (mem w) p (g old)) as [h'|] eqn:Hs; [|done]. simpl.
  apply (store_load_other _ _ _ _ _ Hs). by intros ->.
Qed.

(** The initial read writes through the current-state target only. *)
Lemma getDeviceState_frame state (q : pointer) :
  (forall bidx idx, RenderTarget.get state bidx idx <> Some q) ->
  preserves (fun w : world D => load (mem w) q) (getDeviceState state).
Proof.
  intros Hq. unfold getDeviceState, read_block_state, store_device_color.
  frame; try (by apply target_update_frame).
  by apply preserves_getColors.
Qed.

Lemma Renderer_render_frame renderer ns buffer (q : pointer) :
  (forall view bidx idx c,
     (bidx, idx, c) ∈ renderer ns view ->
     RenderTarget.get buffer bidx idx <> Some q) ->
  preserves (fun w : world D => load (mem w) q)
            (Renderer_render renderer ns buffer).
Proof.
  intros Hq w. unfold Renderer_render. unfold bind at 1. unfold gets at 1.
  apply (preserves_for_each_in (fun w : world D => load (mem w) q)).
  intros [[bidx idx] c] Hin.
  apply target_update_frame. by eapply Hq.
Qed.

(** Renderers leave alone every cell none of them paints. *)
Lemma run_renderers_frame ns (w : world D) (q : pointer) :
  (forall renderer view bidx idx c,
     renderer ∈ m_renderers (loop w) ->
     (bidx, idx, c) ∈ renderer ns view ->
     RenderTarget.get (m_buffer (loop w)) bidx idx <> Some q) ->
  load (mem (snd (run_renderers ns w))) q = load (mem w) q.
Proof.
  unfold run_renderers. unfold bind at 1. unfold gets at 1.
  generalize (m_renderers (loop w)) as rs.
  intros rs. remember (m_buffer (loop w)) as buffer eqn:Hbuf.
  revert w Hbuf.
  induction rs as [|renderer rs IH]; intros w Hbuf Hq; simpl; [done|].
  unfold bind at 1. unfold bind at 1. unfold gets at 1. rewrite <- Hbuf.
  pose proof (Renderer_render_frame renderer ns buffer q
                ltac:(intros view bidx idx c Hin;
                      by apply (Hq renderer view bidx idx c); [left|]) w) as Hf.
  pose proof (preserves_Renderer_render (fun w => m_buffer (loop w))
                renderer ns buffer ltac:(done) w) as Hb.
  destruct (Renderer_render renderer ns buffer w) as [[[]|e| |] w1];
    simpl in *; try done.
  rewrite IH; [done|by rewrite Hb|].
  intros r view bidx idx c Hin. apply (Hq r view bidx idx c). by right.
Qed.

Lemma target_in_region r sizes bidx idx p :
  RenderTarget.get (target_in r sizes) bidx idx = Some p ->
  exists off, p = Ptr r off.
Proof.
  unfold RenderTarget.get, target_in. simpl. rewrite list_lookup_fmap.
  destruct (block_starts sizes !! bidx) as [start|]; [|done]. simpl.
  intros [= <-]. eauto.
Qed.

(** C10: the constructor of [RenderTarget] leaves in every cell what the
    allocator handed over, whatever that is; and on the loop's first tick,
    a cell of the scratch buffer that no renderer paints still holds the
    allocator's content when the renderers are done, which is what the diff
    then reads. *)
Theorem fresh_cells_hold_garbage :
  (forall sizes contents (h : heap) rt h',
     RenderTarget.create sizes (Allocated contents) h = Some (rt, h') ->
     let n := Z.to_nat (wrap (RenderTarget.required_colors sizes
                              * sizeof_RGBAColor) / sizeof_RGBAColor) in
     exists r,
       h !! r = None /\
       RenderTarget.m_colors rt = Ptr r 0 /\
       h' = <[r := contents <$> seq 0 n]> h /\
       forall k, (k < n)%nat ->
         load h' (RenderTarget.at_index rt (Z.of_nat k)) = Some (contents k)) /\
  (forall (dev : Device D) rs in_state in_buffer (h : heap) l h2
          (w0 : world D) ns rest bidx block idx,
     let sizes := key_counts (blocks dev) in
     Forall is_size_t sizes ->
     padded_total sizes * sizeof_RGBAColor < size_t_modulus ->
     RenderLoop_create dev rs (Allocated in_state) (Allocated in_buffer) h
       = Some (l, h2) ->
     mem w0 = h2 -> loop w0 = l ->
     blocks dev !! bidx = Some block -> (idx < length (keys block))%nat ->
     (forall renderer view b i c,
        renderer ∈ rs -> (b, i, c) ∈ renderer ns view ->
        RenderTarget.get (m_buffer l) b i
        <> RenderTarget.get (m_buffer l) bidx idx) ->
     let w1 := snd (getDeviceState (m_state (loop w0)) w0) in
     let w_tick := set_pending rest (snd (device_setTimeout 0 w1)) in
     let w2 := snd (run_renderers ns w_tick) in
     exists start,
       block_starts sizes !! bidx = Some start /\
       RenderTarget.read (mem w2) (m_buffer (loop w2)) bidx idx
       = Some (in_buffer (Z.to_nat (start + Z.of_nat idx)))).
Proof.
  split.
  - intros sizes contents h rt h' Hc. cbv zeta.
    unfold RenderTarget.create, posix_memalign in Hc. injection Hc as <- <-.
    exists (fresh (dom h)). split_and!; try done.
    + apply not_elem_of_dom, is_fresh.
    + intros k Hk. simpl. rewrite lookup_insert_eq. simpl.
      rewrite decide_True by lia.
      replace (Z.to_nat (0 + Z.of_nat k)) with k by lia.
      rewrite list_lookup_fmap, lookup_seq_lt by done. reflexivity.
  - intros dev rs in_state in_buffer h l h2 w0 ns rest bidx block idx sizes
           Hs Hfit Hcreate Hmem Hloop Hb Hlt Hpaint w1 w_tick w2.
    destruct (RenderLoop_create_fits dev rs in_state in_buffer h Hs Hfit)
      as (r1 & r2 & Hne & Hr1 & Hr2 & Heq).
    rewrite Heq in Hcreate. injection Hcreate as <- <-.
    fold sizes in Hmem, Hloop.
    destruct (target_in_cell r2 (blocks dev) bidx block idx Hs Hb Hlt)
      as (start & Hstart & Hget & H0 & Hend).
    fold sizes in Hstart, Hget, Hend.
    destruct (target_in_read r2 (blocks dev) (mem w0) in_buffer bidx block idx
                Hs ltac:(by rewrite Hmem, lookup_insert_eq) Hb Hlt)
      as (start' & Hstart' & Hread0).
    fold sizes in Hstart', Hread0. rewrite Hstart in Hstart'.
    injection Hstart' as <-.
    set (q := Ptr r2 (start + Z.of_nat idx)) in *.
    rewrite (read_get _ _ _ _ _ Hget) in Hread0.
    exists start. split; [done|].
    assert (Hl1 : loop w1 = loop w0).
    { apply (preserves_getDeviceState loop); done. }
    assert (Hl2 : loop w2 = loop w_tick).
    { apply (preserves_run_renderers loop); done. }
    assert (Hlt' : loop w_tick = loop w0) by (simpl; exact Hl1).
    rewrite Hl2, Hlt', Hloop. simpl m_buffer.
    rewrite (read_get _ _ _ _ _ Hget). rewrite <- Hread0.
    transitivity (load (mem w_tick) q).
    + apply run_renderers_frame. rewrite Hlt', Hloop. simpl.
      intros renderer view b i c Hin Hp.
      rewrite <- Hget. by eapply Hpaint.
    + change (load (mem w1) q = load (mem w0) q).
      apply (getDeviceState_frame (m_state (loop w0)) q).
      rewrite Hloop. simpl. intros b i Hg.
      apply target_in_region in Hg as [off [= Hr _]]. by apply Hne.
Qed.

End Untouched.

(** ** The sample keyboard, from start to exit *)

Lemma sample_sizes : Forall is_size_t (key_counts sample_blocks).
Proof. repeat constructor; unfold is_size_t, size_t_modulus; simpl; lia. Qed.

Lemma sample_addressable (h : heap) r contents :
  h !! r = Some (contents <$> seq 0 16) ->
  addressable h (target_in r (key_counts sample_blocks)) sample_blocks.
Proof.
  intros Hr bidx idx block Hb Hlt.
  destruct (target_in_read r sample_blocks h contents bidx block idx
              sample_sizes Hr Hb Hlt) as (start & _ & ->).
  eauto.
Qed.

Lemma run_reads_device_state_witness :
  RenderTarget.read
    (mem (snd (getDeviceState (m_state (loop w_healthy)) w_healthy)))
    (m_state (loop w_healthy)) 0 1 = Some (mkRGBA 255 0 0 255) /\
  getDeviceState (m_state (loop w_unreadable)) w_unreadable
    = (Raised transient,
       snd (getDeviceState (m_state (loop w_unreadable)) w_unreadable)) /\
  fst (run w_unreadable) = Returned tt /\
  errors (snd (run w_unreadable)) = ["device error: transient"] /\
  calls (device (snd (run w_unreadable)))
    = [call_getColors (mkBlock [10; 11; 12; 13; 14])].
Proof.
  destruct (run_reads_device_state w_healthy) as [Hok _].
  destruct (run_reads_device_state w_unreadable) as [_ Hfail].
  assert (Hraised :
    getDeviceState (m_state (loop w_unreadable)) w_unreadable
    = (Raised transient,
       snd (getDeviceState (m_state (loop w_unreadable)) w_unreadable)))
    by (vm_compute; reflexivity).
  split; [|split; [exact Hraised|]].
  - destruct (Hok ((fun block =>
                      Scripted_color (hw (device w_healthy)) <$> keys block)
                   <$> sample_blocks)
                  (hw (device w_healthy)))
      as (w' & Hread & _ & _ & _ & Hcells & _).
    + apply (target_in_distinct 0 sample_blocks sample_sizes).
    + apply (sample_addressable (mem w_healthy) 0%nat (fun _ => black)).
      vm_compute. reflexivity.
    + vm_compute. reflexivity.
    + repeat constructor.
    + rewrite Hread. simpl.
      eapply (Hcells 0%nat _ 1%nat (mkDirective 11 255 0 0)); reflexivity.
  - destruct (Hfail _ _ _ Hraised) as (Hrun & _ & _).
    rewrite Hrun. vm_compute. split_and!; reflexivity.
Defined.

Lemma recovery_resyncs_witness :
  AnimationLoop_run (entering_recovery w_transient)
    = (Raised transient,
       snd (AnimationLoop_run (entering_recovery w_transient))) /\
  fst (resync (hw (device
         (snd (AnimationLoop_run (entering_recovery w_transient))))))
    = true /\
  fst (recovery (entering_recovery w_transient)) = Returned tt /\
  calls (device (snd (recovery (entering_recovery w_transient))))
    = [call_getColors (mkBlock [10; 11; 12; 13; 14]);
       call_getColors (mkBlock [20; 21; 22]);
       call_setTimeout 0; call_flush; call_resync; call_flush;
       call_setColors (mkBlock [10; 11; 12; 13; 14])
         [mkDirective 10 0 0 0; mkDirective 11 0 0 0; mkDirective 12 0 0 0;
          mkDirective 13 255 0 0; mkDirective 14 0 0 0];
       call_setColors (mkBlock [20; 21; 22])
         [mkDirective 20 0 0 255; mkDirective 21 0 0 0; mkDirective 22 0 0 0];
       call_commitColors].
Proof.
  set (w := entering_recovery w_transient).
  assert (Hrun : AnimationLoop_run w
                 = (Raised transient, snd (AnimationLoop_run w)))
    by (vm_compute; reflexivity).
  assert (Hres : resync (hw (device (snd (AnimationLoop_run w))))
                 = (true, snd (resync (hw (device (snd (AnimationLoop_run w)))))))
    by (vm_compute; reflexivity).
  destruct (recovery_resyncs w (snd (AnimationLoop_run w)))
    as (Hdev & _ & _).
  destruct (Hdev _ _ (snd (resync (hw (device (snd (AnimationLoop_run w))))))
              Hrun) as (_ & Hagain & _).
  destruct (Hagain Hres) as [_ Hphase].
  split_and!; [exact Hrun|by rewrite Hres|..]; rewrite Hphase;
    vm_compute; reflexivity.
Defined.

Lemma run_classifies_exit_witness :
  run w_vanished
    = (Returned tt,
       set_errors [] (snd (recovery (entering_recovery w_vanished)))) /\
  errors (snd (run w_broken)) = ["device error: transient"].
Proof.
  assert (Hread : forall w : world Scripted,
            fst (getDeviceState (m_state (loop w)) w) = Returned tt ->
            getDeviceState (m_state (loop w)) w
            = (Returned tt, snd (getDeviceState (m_state (loop w)) w))).
  { intros w Hw. destruct (getDeviceState _ w) as [o w1]. simpl in *.
    by subst. }
  split.
  - destruct (run_classifies_exit w_vanished
                (snd (getDeviceState (m_state (loop w_vanished)) w_vanished))
                vanished
                (snd (recovery (entering_recovery w_vanished))))
      as (Hrun & _ & _).
    + apply Hread. vm_compute. reflexivity.
    + vm_compute. reflexivity.
    + rewrite Hrun. vm_compute. reflexivity.
  - destruct (run_classifies_exit w_broken
                (snd (getDeviceState (m_state (loop w_broken)) w_broken))
                transient
                (snd (recovery (entering_recovery w_broken))))
      as (Hrun & _ & _).
    + apply Hread. vm_compute. reflexivity.
    + vm_compute. reflexivity.
    + rewrite Hrun. vm_compute. reflexivity.
Defined.

Lemma fresh_cells_hold_garbage_witness :
  RenderTarget.read
    (mem (snd (run_renderers 1
            (set_pending [] (entering_recovery w_garbage)))))
    (m_buffer (loop (snd (run_renderers 1
            (set_pending [] (entering_recovery w_garbage)))))) 0 0
  = Some red_color /\
  call_setColors (mkBlock [10; 11; 12; 13; 14])
    [mkDirective 10 255 0 0; mkDirective 11 255 0 0; mkDirective 12 255 0 0;
     mkDirective 13 255 0 0; mkDirective 14 255 0 0]
  ∈ calls (device (snd (run w_garbage))).
Proof.
  split.
  - destruct (@fresh_cells_hold_garbage Scripted _) as [_ Hfirst].
    destruct (Hfirst (sample_device reliable) [painter]
                (fun _ => black) (fun _ => red_color) ∅
                (loop w_garbage) (mem w_garbage) w_garbage 1 []
                0%nat (mkBlock [10; 11; 12; 13; 14]) 0%nat)
      as (start & _ & Hread).
    + exact sample_sizes.
    + reflexivity.
    + vm_compute. reflexivity.
    + reflexivity.
    + reflexivity.
    + reflexivity.
    + simpl. lia.
    + intros renderer view b i c Hin Hp.
      apply list_elem_of_singleton in Hin. subst renderer.
      unfold painter in Hp.
      apply elem_of_cons in Hp as [[= -> -> _]|Hp]; [vm_compute; discriminate|].
      apply list_elem_of_singleton in Hp as [= -> -> _].
      vm_compute. discriminate.
    + exact Hread.
  - vm_compute. apply list_elem_of_In. simpl. tauto.
Defined.

(** * Further properties of the code *)

(** ** [align] on any power of two *)

Section AlignPow2.

Import RenderTarget.

Lemma pow2_bounds k : 0 <= k < 64 -> 0 < 2 ^ k <= 2 ^ 63.
Proof.
  intros Hk. split.
  - apply Z.pow_pos_nonneg; lia.
  - apply Z.pow_le_mono_r; lia.
Qed.

Lemma land_clear_low k x :
  0 <= k < 64 -> 0 <= x < size_t_modulus ->
  Z.land x (wrap (Z.lnot (2 ^ k - 1))) = 2 ^ k * (x / 2 ^ k).
Proof.
  intros Hk Hx. unfold wrap, size_t_modulus.
  rewrite <- (Z.land_ones (Z.lnot (2 ^ k - 1)) 64) by lia.
  rewrite (Z.land_comm (Z.lnot (2 ^ k - 1))), Z.land_assoc.
  rewrite (Z.land_ones x 64) by lia.
  rewrite (Z.mod_small x) by exact Hx.
  rewrite <- Z.ldiff_land.
  replace (2 ^ k - 1) with (Z.ones k) by (rewrite Z.ones_equiv; lia).
  rewrite Z.ldiff_ones_r by lia.
  rewrite Z.shiftl_mul_pow2, Z.shiftr_div_pow2 by lia. lia.
Qed.

Lemma align_pow2_unfold k v :
  0 <= k < 64 -> 0 <= v < size_t_modulus ->
  align v (2 ^ k) = 2 ^ k * (wrap (v + 2 ^ k - 1) / 2 ^ k).
Proof.
  intros Hk Hv. pose proof (pow2_bounds k Hk) as Hp.
  assert (Hm : size_t_modulus = 2 ^ 64) by reflexivity.
  assert (H63 : 2 ^ 64 = 2 * 2 ^ 63) by reflexivity.
  unfold align.
  assert (Ha : wrap (2 ^ k - 1) = 2 ^ k - 1).
  { unfold wrap. apply Z.mod_small. lia. }
  assert (Hs : wrap (wrap (v + 2 ^ k) - 1) = wrap (v + 2 ^ k - 1)).
  { unfold wrap. rewrite Zminus_mod_idemp_l. reflexivity. }
  rewrite Ha, Hs. apply land_clear_low; [done|].
  unfold wrap. apply Z.mod_pos_bound. lia.
Qed.

(** X1: when [value + alignment - 1] does not overflow and the alignment is
    a power of two, [align] returns the least multiple of the alignment that
    is not below the value; in particular it leaves multiples alone. *)
Theorem align_least_multiple k v :
  0 <= k < 64 -> 0 <= v -> v + 2 ^ k - 1 < size_t_modulus ->
  align v (2 ^ k) mod 2 ^ k = 0 /\
  v <= align v (2 ^ k) < v + 2 ^ k /\
  (forall m, m mod 2 ^ k = 0 -> v <= m -> align v (2 ^ k) <= m) /\
  (v mod 2 ^ k = 0 -> align v (2 ^ k) = v) /\
  align (align v (2 ^ k)) (2 ^ k) = align v (2 ^ k).
Proof.
  intros Hk H0 Hfit. pose proof (pow2_bounds k Hk) as Hp.
  assert (Hm : size_t_modulus = 2 ^ 64) by reflexivity.
  assert (H63 : 2 ^ 64 = 2 * 2 ^ 63) by reflexivity.
  assert (Heq : forall u, 0 <= u -> u + 2 ^ k - 1 < size_t_modulus ->
            align u (2 ^ k) = 2 ^ k * ((u + 2 ^ k - 1) / 2 ^ k)).
  { intros u Hu Hufit. rewrite align_pow2_unfold by lia.
    unfold wrap. rewrite Z.mod_small by lia. reflexivity. }
  set (a := 2 ^ k) in *.
  pose proof (Z.div_mod (v + a - 1) a ltac:(lia)) as Hdm.
  pose proof (Z.mod_pos_bound (v + a - 1) a ltac:(lia)) as Hmb.
  assert (Hmult : align v a mod a = 0).
  { rewrite Heq by lia. rewrite Z.mul_comm. apply Z.mod_mul. lia. }
  assert (Hrange : v <= align v a < v + a) by (rewrite Heq by lia; lia).
  assert (Hfix : forall u, 0 <= u -> u + a - 1 < size_t_modulus ->
            u mod a = 0 -> align u a = u).
  { intros u Hu Hufit Hmod. rewrite Heq by lia.
    apply Z.mod_divide in Hmod as [q ->]; [|lia].
    replace (q * a + a - 1) with ((a - 1) + q * a) by lia.
    rewrite Z.div_add by lia. rewrite Z.div_small by lia. lia. }
  split_and!; try done; try lia.
  - intros m Hmod Hle. rewrite Heq by lia.
    apply Z.mod_divide in Hmod as [q ->]; [|lia].
    assert (Hq : (v + a - 1) / a <= q).
    { transitivity ((q * a + a - 1) / a); [apply Z.div_le_mono; lia|].
      replace (q * a + a - 1) with ((a - 1) + q * a) by lia.
      rewrite Z.div_add by lia. rewrite Z.div_small by lia. lia. }
    rewrite (Z.mul_comm q a). apply Z.mul_le_mono_nonneg_l; lia.
  - intros Hmod. by apply Hfix.
  - apply Hfix; [lia| |done].
    rewrite Heq by lia.
    assert (2 ^ 64 mod a = 0).
    { replace 64 with (k + (64 - k)) by lia.
      rewrite Z.pow_add_r by lia. fold a. rewrite Z.mul_comm.
      apply Z.mod_mul. lia. }
    apply Z.mod_divide in H as [q Hq]; [|lia].
    rewrite Hm, Hq in *.
    assert ((v + a - 1) / a < q) by (apply Z.div_lt_upper_bound; lia).
    nia.
Qed.

Lemma align_least_multiple_witness :
  0 <= 3 < 64 /\ 0 <= 13 /\ 13 + 2 ^ 3 - 1 < size_t_modulus /\
  align 13 (2 ^ 3) = 16 /\
  align (align 13 (2 ^ 3)) (2 ^ 3) = align 13 (2 ^ 3).
Proof.
  assert (H1 : 0 <= 3 < 64) by lia.
  assert (H2 : 0 <= 13) by lia.
  assert (H3 : 13 + 2 ^ 3 - 1 < size_t_modulus) by reflexivity.
  destruct (align_least_multiple 3 13 H1 H2 H3) as (_ & _ & _ & _ & Hidem).
  repeat split; first [lia | exact H3 | exact Hidem | reflexivity].
Defined.

(** X2: a value within [alignment - 1] of the top of [size_t] makes the sum
    in [align] wrap around, and the result is 0. *)
Theorem align_wraps_to_zero k v :
  0 <= k < 64 -> size_t_modulus - 2 ^ k < v < size_t_modulus ->
  align v (2 ^ k) = 0.
Proof.
  intros Hk Hv. pose proof (pow2_bounds k Hk) as Hp.
  assert (Hm : size_t_modulus = 2 ^ 64) by reflexivity.
  assert (H63 : 2 ^ 64 = 2 * 2 ^ 63) by reflexivity.
  rewrite align_pow2_unfold by lia.
  assert (Hw : wrap (v + 2 ^ k - 1) = v + 2 ^ k - 1 - size_t_modulus).
  { unfold wrap. symmetry. apply Z.mod_unique with (q := 1); [left|]; lia. }
  rewrite Hw. rewrite Z.div_small by lia. lia.
Qed.

Lemma align_wraps_to_zero_witness :
  0 <= 3 < 64 /\
  size_t_modulus - 2 ^ 3 < 2 ^ 64 - 1 < size_t_modulus /\
  align (2 ^ 64 - 1) (2 ^ 3) = 0.
Proof.
  assert (H1 : 0 <= 3 < 64) by lia.
  assert (H2 : size_t_modulus - 2 ^ 3 < 2 ^ 64 - 1 < size_t_modulus)
    by (unfold size_t_modulus; lia).
  split; [exact H1|]. split; [exact H2|].
  exact (align_wraps_to_zero 3 (2 ^ 64 - 1) H1 H2).
Defined.

End AlignPow2.

(** ** More about construction, moving and destruction *)

Section Lifetime.

Import RenderTarget.

Lemma layout_total_le sizes : forall t,
  Forall is_size_t sizes ->
  snd (layout_from t sizes)
  <= t + total_keys sizes + 7 * Z.of_nat (length sizes).
Proof.
  induction sizes as [|n sizes IH]; intros t Hs; simpl.
  - lia.
  - inversion Hs as [|? ? Hn Hrest]; subst.
    specialize (IH (round_up (t + n)) Hrest).
    destruct (layout_from (round_up (t + n)) sizes) as [starts final].
    simpl in *. pose proof (round_up_bounds (t + n)). lia.
Qed.

Lemma layout_total_multiple sizes : forall t,
  t mod align_colors = 0 -> snd (layout_from t sizes) mod align_colors = 0.
Proof.
  induction sizes as [|n sizes IH]; intros t Ht; simpl; [done|].
  specialize (IH (round_up (t + n)) (round_up_multiple _)).
  by destruct (layout_from (round_up (t + n)) sizes).
Qed.

(** X3: when the padded byte count fits in [size_t], [size()] is a
    multiple of 8 cells and the padding costs at most 7 cells per block:
    the key count is at most [size()], which is at most the key count plus
    seven times the number of blocks. *)
Theorem create_padding_bound sizes reply h rt h' :
  Forall is_size_t sizes ->
  padded_total sizes * sizeof_RGBAColor < size_t_modulus ->
  create sizes reply h = Some (rt, h') ->
  size rt mod 8 = 0 /\
  total_keys sizes <= size rt <= total_keys sizes + 7 * Z.of_nat (length sizes).
Proof.
  intros Hs Hfit Hc. destruct reply as [|contents]; [done|].
  rewrite create_fits in Hc by done. injection Hc as <- _.
  unfold size. simpl.
  pose proof (layout_total_ge sizes 0 Hs).
  pose proof (layout_total_le sizes 0 Hs).
  pose proof (layout_total_multiple sizes 0 eq_refl) as Hm.
  rewrite align_colors_is_8 in Hm.
  unfold padded_total. split; [done|lia].
Qed.

Lemma create_padding_bound_witness :
  Forall is_size_t [5; 8; 3] /\
  padded_total [5; 8; 3] * sizeof_RGBAColor < size_t_modulus /\
  (forall rt h',
     create [5; 8; 3] (Allocated (fun _ => black)) ∅ = Some (rt, h') ->
     size rt mod 8 = 0 /\ 16 <= size rt <= 37).
Proof.
  assert (Hs : Forall is_size_t [5; 8; 3]).
  { repeat constructor; unfold is_size_t, size_t_modulus; lia. }
  assert (Hfit : padded_total [5; 8; 3] * sizeof_RGBAColor < size_t_modulus)
    by reflexivity.
  split_and!; [exact Hs|exact Hfit|].
  intros rt h' Hc.
  exact (create_padding_bound [5; 8; 3] _ ∅ rt h' Hs Hfit Hc).
Defined.

Lemma block_pointers_shape colors sizes : forall acc t,
  exists offsets,
    length offsets = length sizes /\
    fst (foldl (fun '(blocks, totalColors) nbColors =>
                  (blocks ++ [ptr_index colors totalColors],
                   align (wrap (totalColors + nbColors)) align_colors))
               (acc, t) sizes)
    = acc ++ (ptr_index colors <$> offsets).
Proof.
  induction sizes as [|n sizes IH]; intros acc t; simpl.
  { exists []. by rewrite app_nil_r. }
  destruct (IH (acc ++ [ptr_index colors t])
               (align (wrap (t + n)) align_colors)) as (offsets & Hlen & Heq).
  exists (t :: offsets). split; [simpl; lia|].
  rewrite Heq. simpl. by rewrite <- app_assoc.
Qed.

Lemma block_pointers_offsets colors sizes :
  exists offsets,
    length offsets = length sizes /\
    block_pointers colors sizes = ptr_index colors <$> offsets.
Proof.
  destruct (block_pointers_shape colors sizes [] 0) as (offsets & Hlen & Heq).
  exists offsets. split; [done|]. unfold block_pointers. by rewrite Heq.
Qed.



(** X5: construction followed by destruction gives the heap back; and
    after a move, destroying the two objects in either order releases the
    region exactly once and gives the heap back as well. *)
Theorem create_destroy_round_trip sizes reply (h : heap) rt h' :
  create sizes reply h = Some (rt, h') ->
  destroy rt h' = Some h /\
  (let '(this, source) := move rt in
   (h'' ← destroy source h'; destroy this h'') = Some h /\
   (h'' ← destroy this h'; destroy source h'') = Some h).
Proof.
  intros Hc. destruct reply as [|contents]; [done|].
  unfold create, posix_memalign in Hc. injection Hc as <- <-.
  assert (Hfresh : h !! fresh (dom h) = None)
    by apply not_elem_of_dom, is_fresh.
  assert (Hfree : forall cells,
            free (Ptr (fresh (dom h)) 0) (<[fresh (dom h) := cells]> h)
            = Some h).
  { intros cells. unfold free. rewrite decide_True.
    - by rewrite delete_insert_id.
    - split; [done|]. rewrite lookup_insert_eq. eauto. }
  unfold move, destroy. cbn [m_colors]. rewrite Hfree.
  change (free nullptr ?x) with (Some x). cbn [mbind option_bind].
  by rewrite Hfree.
Qed.

Lemma create_destroy_round_trip_witness :
  exists rt h',
    create [5; 8; 3] (Allocated (fun _ => black)) ∅ = Some (rt, h') /\
    destroy rt h' = Some ∅.
Proof.
  destruct (create [5; 8; 3] (Allocated (fun _ => black)) ∅)
    as [[rt h']|] eqn:Hc; [|by vm_compute in Hc].
  exists rt, h'. split; [done|].
  exact (proj1 (create_destroy_round_trip _ _ _ _ _ Hc)).
Defined.

(** X6: [get] checks no bound: in a target whose padded byte count fits,
    an index that runs past a block's padded end addresses the cells of the
    next block. *)
Theorem get_overruns_into_next_block sizes reply (h : heap) rt h'
    bidx start next idx :
  Forall is_size_t sizes ->
  padded_total sizes * sizeof_RGBAColor < size_t_modulus ->
  create sizes reply h = Some (rt, h') ->
  block_starts sizes !! bidx = Some start ->
  block_starts sizes !! S bidx = Some next ->
  start <= next /\
  get rt bidx (Z.to_nat (next - start) + idx) = get rt (S bidx) idx.
Proof.
  intros Hs Hfit Hc Hstart Hnext. destruct reply as [|contents]; [done|].
  rewrite create_fits in Hc by done. injection Hc as <- _.
  assert (Hle : start <= next).
  { assert (Hb : is_Some (sizes !! bidx)).
    { apply lookup_lt_is_Some. rewrite <- (layout_length sizes 0).
      by eapply lookup_lt_Some. }
    destruct Hb as [n Hn].
    destruct (layout_block sizes 0 bidx n Hs Hn) as (s & Hl & _ & _ & Hnx).
    fold (block_starts sizes) in Hl, Hnx. rewrite Hstart in Hl.
    injection Hl as <-.
    assert (0 <= n) by (eapply Forall_lookup_1 in Hs; [|done]; apply Hs).
    specialize (Hnx (S bidx) next ltac:(lia) Hnext). lia. }
  split; [done|].
  rewrite (get_created _ _ _ _ start) by done.
  rewrite (get_created _ _ _ _ next) by done.
  do 2 f_equal. lia.
Qed.

Lemma get_overruns_into_next_block_witness :
  Forall is_size_t [5; 8; 3] /\
  padded_total [5; 8; 3] * sizeof_RGBAColor < size_t_modulus /\
  get (mk (Ptr 0 0) 24 [Ptr 0%nat 0; Ptr 0%nat 8; Ptr 0%nat 16]) 0 8
  = get (mk (Ptr 0 0) 24 [Ptr 0%nat 0; Ptr 0%nat 8; Ptr 0%nat 16]) 1 0.
Proof.
  assert (Hs : Forall is_size_t [5; 8; 3]).
  { repeat constructor; unfold is_size_t, size_t_modulus; lia. }
  assert (Hfit : padded_total [5; 8; 3] * sizeof_RGBAColor < size_t_modulus)
    by reflexivity.
  split_and!; [exact Hs|exact Hfit|].
  apply (get_overruns_into_next_block [5; 8; 3] (Allocated (fun _ => black))
           ∅ (mk (Ptr 0 0) 24 [Ptr 0%nat 0; Ptr 0%nat 8; Ptr 0%nat 16])
           (<[0%nat := (fun _ => black) <$> seq 0 24]> ∅)
           0%nat 0 8 0%nat Hs Hfit).
  - vm_compute. reflexivity.
  - reflexivity.
  - reflexivity.
Defined.

End Lifetime.

(** ** The buffers of a loop *)

Section LoopBuffers.

Context {D : Type} `{DeviceOps D}.

Import RenderTarget.

Lemma block_pointers_code colors sizes : forall acc t,
  fst (foldl (fun '(blocks, totalColors) nbColors =>
                (blocks ++ [ptr_index colors totalColors],
                 align (wrap (totalColors + nbColors)) align_colors))
             (acc, t) sizes)
  = acc ++ (ptr_index colors <$> offsets_from t sizes).
Proof.
  induction sizes as [|n sizes IH]; intros acc t; simpl.
  - by rewrite app_nil_r.
  - rewrite IH. by rewrite <- app_assoc.
Qed.

Lemma offsets_from_length sizes : forall t,
  length (offsets_from t sizes) = length sizes.
Proof. induction sizes as [|n sizes IH]; intros t; simpl; [done|]. by rewrite IH. Qed.

Lemma create_code sizes contents (h : heap) :
  create sizes (Allocated contents) h
  = Some (mk (Ptr (fresh (dom h)) 0) (required_colors sizes)
             (Ptr (fresh (dom h)) <$> offsets_from 0 sizes),
          <[fresh (dom h) :=
              contents <$> seq 0 (Z.to_nat
                (wrap (required_colors sizes * sizeof_RGBAColor)
                 / sizeof_RGBAColor))]> h).
Proof.
  unfold create, posix_memalign, block_pointers.
  by rewrite (block_pointers_code _ sizes [] 0).
Qed.

Lemma layout_total_ge_nonneg sizes : forall t,
  Forall (fun n => 0 <= n) sizes ->
  t + total_keys sizes <= snd (layout_from t sizes).
Proof.
  induction sizes as [|n sizes IH]; intros t Hs; simpl.
  - lia.
  - inversion Hs as [|? ? Hn Hrest]; subst.
    specialize (IH (round_up (t + n)) Hrest).
    destruct (layout_from (round_up (t + n)) sizes) as [starts final].
    simpl in *. pose proof (round_up_bounds (t + n)). lia.
Qed.

Lemma total_keys_bounds sizes :
  Forall (fun n => 0 <= n) sizes -> Forall (fun n => n <= total_keys sizes) sizes.
Proof.
  induction 1 as [|n sizes Hn Hrest IH]; simpl; [constructor|].
  assert (0 <= total_keys sizes).
  { clear IH. induction Hrest; simpl; lia. }
  constructor; [lia|]. eapply Forall_impl; [exact IH|]. simpl. intros. lia.
Qed.

(** Key counts of real blocks are sizes as soon as the padded total fits. *)
Lemma key_counts_size_t (bs : list KeyBlock) :
  padded_total (key_counts bs) * sizeof_RGBAColor < size_t_modulus ->
  Forall is_size_t (key_counts bs).
Proof.
  intros Hfit.
  assert (Hnn : Forall (fun n => 0 <= n) (key_counts bs)).
  { unfold key_counts. apply Forall_fmap, Forall_forall. intros b _. simpl. lia. }
  pose proof (layout_total_ge_nonneg (key_counts bs) 0 Hnn) as Hge.
  fold (padded_total (key_counts bs)) in Hge.
  pose proof (total_keys_bounds _ Hnn) as Hle.
  assert (H4 : sizeof_RGBAColor = 4) by reflexivity.
  assert (Hm : size_t_modulus = 2 ^ 64) by reflexivity.
  apply Forall_forall. intros n Hin.
  rewrite Forall_forall in Hnn, Hle.
  specialize (Hnn n Hin). specialize (Hle n Hin). simpl in *.
  unfold is_size_t. lia.
Qed.

(** X7: the target [renderTargetFor] builds for a device whose padded byte
    count fits gives every key of every block a cell of its own: each
    (block, key index) of the device is readable, two different ones never
    address the same cell, and [size()] is at least the device's number of
    keys. *)
Theorem renderTargetFor_gives_each_key_a_cell
    (dev : Device D) reply (h : heap) rt h' :
  padded_total (key_counts (blocks dev)) * sizeof_RGBAColor < size_t_modulus ->
  renderTargetFor dev reply h = Some (rt, h') ->
  addressable h' rt (blocks dev) /\
  distinct_cells rt (blocks dev) /\
  Z.of_nat (length (concat (keys <$> blocks dev))) <= size rt.
Proof.
  intros Hfit Hc. pose proof (key_counts_size_t _ Hfit) as Hs.
  unfold renderTargetFor in Hc. rewrite renderTargetFor_sizes, app_nil_l in Hc.
  destruct reply as [|contents]; [done|].
  rewrite (create_fits _ contents h Hs Hfit) in Hc. injection Hc as <- <-.
  fold (target_in (fresh (dom h)) (key_counts (blocks dev))).
  split_and!.
  - intros bidx idx block Hb Hlt.
    destruct (target_in_read (fresh (dom h)) (blocks dev)
                (<[fresh (dom h) := contents <$> seq 0
                     (Z.to_nat (padded_total (key_counts (blocks dev))))]> h)
                contents bidx block idx Hs
                ltac:(by rewrite lookup_insert_eq) Hb Hlt)
      as (start & _ & ->). eauto.
  - by apply target_in_distinct.
  - unfold size, target_in. simpl.
    pose proof (layout_total_ge (key_counts (blocks dev)) 0 Hs) as Hge.
    fold (padded_total (key_counts (blocks dev))) in Hge.
    assert (Hk : Z.of_nat (length (concat (keys <$> blocks dev)))
                 = total_keys (key_counts (blocks dev))).
    { clear. induction (blocks dev) as [|b bs IH]; [done|].
      unfold key_counts in *. cbn [fmap list_fmap concat total_keys foldr] in *.
      rewrite length_app. unfold total_keys in IH. lia. }
    lia.
Qed.



End LoopBuffers.

Lemma renderTargetFor_gives_each_key_a_cell_witness :
  padded_total (key_counts (blocks (sample_device reliable)))
    * sizeof_RGBAColor < size_t_modulus /\
  exists rt h',
    renderTargetFor (sample_device reliable) (Allocated (fun _ => black)) ∅
      = Some (rt, h') /\
    addressable h' rt sample_blocks /\ 8 <= RenderTarget.size rt.
Proof.
  assert (Hfit : padded_total (key_counts (blocks (sample_device reliable)))
                 * sizeof_RGBAColor < size_t_modulus) by reflexivity.
  split; [exact Hfit|].
  destruct (renderTargetFor (sample_device reliable)
              (Allocated (fun _ => black)) ∅) as [[rt h']|] eqn:Hc;
    [|by vm_compute in Hc].
  destruct (renderTargetFor_gives_each_key_a_cell _ _ _ _ _ Hfit Hc)
    as (Haddr & _ & Hsize).
  exists rt, h'. split_and!; [done|exact Haddr|exact Hsize].
Defined.


(** ** Which device operations a computation may invoke *)

Section Appends.

Context {D : Type} `{DeviceOps D}.

Lemma appends_quiet {A} (P : device_call -> Prop) (m : M D A) :
  preserves (fun w => calls (device w)) m -> appends P m.
Proof. intros Hp w. exists []. by rewrite app_nil_r, (Hp w). Qed.

Lemma appends_weaken {A} (P Q : device_call -> Prop) (m : M D A) :
  (forall c, P c -> Q c) -> appends P m -> appends Q m.
Proof.
  intros HPQ Hm w. destruct (Hm w) as (invoked & Heq & HP).
  exists invoked. split; [done|]. by eapply Forall_impl.
Qed.

Lemma appends_bind {A B} P (m : M D A) (k : A -> M D B) :
  appends P m -> (forall a, appends P (k a)) -> appends P (bind m k).
Proof.
  intros Hm Hk w. unfold bind. destruct (Hm w) as (i1 & H1 & HP1).
  destruct (m w) as [[a|e| |] w1]; simpl in *; try by exists i1.
  destruct (Hk a w1) as (i2 & H2 & HP2). exists (i1 ++ i2).
  split; [by rewrite H2, H1, app_assoc|by apply Forall_app].
Qed.

Lemma appends_if {A} P (b : bool) (m1 m2 : M D A) :
  appends P m1 -> appends P m2 -> appends P (if b then m1 else m2).
Proof. by destruct b. Qed.

Lemma appends_for_each {A} P (xs : list A) (body : A -> M D unit) :
  (forall x, appends P (body x)) -> appends P (for_each xs body).
Proof.
  intros Hb. induction xs as [|x xs IH]; simpl.
  - by apply appends_quiet.
  - apply appends_bind; [apply Hb|done].
Qed.

Lemma appends_for_fold {A B} P (xs : list A) (body : A -> B -> M D B) :
  (forall x acc, appends P (body x acc)) ->
  forall acc, appends P (for_fold xs acc body).
Proof.
  intros Hb. induction xs as [|x xs IH]; intros acc; simpl.
  - by apply appends_quiet.
  - apply appends_bind; [apply Hb|done].
Qed.

Lemma appends_try_catch {A} P (body : M D A) handler :
  appends P body ->
  (forall e h, handler e = Some h -> appends P h) ->
  appends P (try_catch body handler).
Proof.
  intros Hb Hh w. unfold try_catch. destruct (Hb w) as (i1 & H1 & HP1).
  destruct (body w) as [[a|e| |] w1]; simpl in *; try by exists i1.
  destruct (handler e) as [h|] eqn:E; [|by exists i1].
  destruct (Hh e h E w1) as (i2 & H2 & HP2). exists (i1 ++ i2).
  split; [by rewrite H2, H1, app_assoc|by apply Forall_app].
Qed.

Lemma appends_raising (P : device_call -> Prop) c op :
  P c -> appends P (@raising D c op).
Proof.
  intros HP w. unfold raising. destruct (op (hw (device w))) as [r hw'].
  exists [c]. split; [done|]. by constructor.
Qed.

Lemma appends_run_renderers P ns : appends P (@run_renderers D ns).
Proof. apply appends_quiet. by apply preserves_run_renderers. Qed.

Lemma appends_diff_block bidx hc : appends is_setColors (diff_block bidx hc).
Proof.
  unfold diff_block.
  apply appends_bind; [apply appends_quiet; by frame|]. intros block.
  apply appends_bind; [by apply appends_quiet, preserves_directives_clear|].
  intros _. apply appends_bind.
  { apply appends_quiet. apply preserves_for_each. intros idx.
    unfold diff_key. frame;
      first [by apply preserves_target_read
            |by apply preserves_directives_push_back]. }
  intros _. apply appends_bind; [apply appends_quiet; by frame|]. intros ds.
  apply appends_if; [|apply appends_quiet; by frame].
  apply appends_bind; [by apply appends_raising|].
  intros _. apply appends_quiet; by frame.
Qed.

(** What [diff_and_send] invokes once [flush] is behind it. *)
Lemma appends_after_flush :
  appends (fun c => is_setColors c \/ c = call_commitColors)
    (let* nBlocks := gets (fun w : world D => length (blocks (device w))) in
     let* hasChanges := for_fold (seq 0 nBlocks) false diff_block in
     (if hasChanges : bool then device_commitColors else ret tt) >>
     swap_state_buffer).
Proof.
  apply appends_bind; [apply appends_quiet; by frame|]. intros n.
  apply appends_bind.
  { apply appends_for_fold. intros bidx hc.
    eapply appends_weaken; [|apply appends_diff_block]. by left. }
  intros hc. apply appends_bind.
  - apply appends_if;
      [apply appends_raising; by right|apply appends_quiet; by frame].
  - intros _. apply appends_quiet. by apply preserves_swap.
Qed.

Lemma appends_render ns : appends is_write (render ns).
Proof.
  unfold render. apply appends_bind; [apply appends_quiet; by frame|].
  intros has. apply appends_bind; [apply appends_run_renderers|]. intros _.
  apply appends_bind; [|intros _; apply appends_quiet; by frame].
  apply appends_if; [|apply appends_quiet; by frame].
  unfold diff_and_send. apply appends_bind; [by apply appends_raising|].
  intros _. eapply appends_weaken; [|apply appends_after_flush].
  intros c [Hc| ->]; [by destruct c|done].
Qed.

End Appends.

(** ** A tick, whatever its outcome *)

Section Ticks.

Context {D : Type} `{DeviceOps D}.

(** What [diff_and_send] does before its last statement, the exchange of
    the two targets, leaves alone anything that looks neither at the device
    nor at the directive list. *)
Lemma diff_and_send_outcome {X} (f : world D -> X) (w : world D) :
  device_blind f -> directives_blind f ->
  match diff_and_send w with
  | (Returned _, w') =>
      exists w1, f w1 = f w /\ swap_state_buffer w1 = (Returned tt, w')
  | (OutOfFuel, _) => False
  | (_, w') => f w' = f w
  end.
Proof.
  intros Hd Hl. unfold diff_and_send.
  pose proof (preserves_flush f Hd w) as H1.
  pose proof (fueled_raising call_flush flush w) as F1.
  unfold bind at 1. fold (@device_flush D _) in F1.
  destruct (device_flush w) as [[[]|e| |] w1]; simpl in H1, F1; try done.
  unfold bind at 1, gets at 1.
  set (n := length (blocks (device w1))).
  pose proof (preserves_for_fold f (seq 0 n) diff_block
                (fun x acc => preserves_diff_block f x acc Hd Hl) false w1)
    as H2.
  assert (F2 : fst (for_fold (seq 0 n) false diff_block w1) <> OutOfFuel).
  { apply fueled_for_fold. intros bidx hc.
    unfold diff_block, diff_key, target_read, device_setColors,
      directives_clear, directives_push_back.
    repeat first
      [ simple apply fueled_ret | simple apply fueled_gets
      | simple apply fueled_modify | simple apply fueled_expect
      | simple apply fueled_raising
      | simple apply fueled_bind | simple apply fueled_if
      | simple apply fueled_for_each
      | match goal with |- forall _, _ => intro end ]. }
  unfold bind at 1.
  destruct (for_fold (seq 0 n) false diff_block w1) as [[hc|e| |] w2];
    simpl in H2, F2; try congruence.
  unfold bind.
  destruct hc.
  - pose proof (preserves_commitColors f Hd w2) as H3.
    pose proof (fueled_raising call_commitColors commitColors w2) as F3.
    fold (@device_commitColors D _) in F3.
    destruct (device_commitColors w2) as [[[]|e| |] w3]; simpl in H3, F3;
      try congruence.
    exists w3. split; [congruence|done].
  - simpl. exists w2. split; [congruence|done].
Qed.

Lemma render_unfold ns (w : world D) :
  render ns w =
  match run_renderers ns w with
  | (Returned _, w1) =>
      if bool_decide (m_renderers (loop w) = []) then (Returned true, w1)
      else match diff_and_send w1 with
           | (Returned _, w2) => (Returned true, w2)
           | (Raised e, w2) => (Raised e, w2)
           | (Faulted, w2) => (Faulted, w2)
           | (OutOfFuel, w2) => (OutOfFuel, w2)
           end
  | (Raised e, w1) => (Raised e, w1)
  | (Faulted, w1) => (Faulted, w1)
  | (OutOfFuel, w1) => (OutOfFuel, w1)
  end.
Proof.
  unfold render. unfold bind at 1, gets at 1. unfold bind at 1.
  destruct (run_renderers ns w) as [[[]|e| |] w1]; try done.
  destruct (bool_decide (m_renderers (loop w) = [])); [done|].
  unfold bind. cbn [negb].
  by destruct (diff_and_send w1) as [[[]|e| |] w2].
Qed.

(** X9: [render] has one [return] statement, [return true], so a tick
    never asks the animation loop to stop; and whatever its outcome a tick
    leaves the log, the queue of pending events, the device's blocks and
    the renderer list as they were.  The two targets change roles exactly
    when the tick runs to its end with renderers installed: a tick an
    exception interrupts leaves them in their roles (the exchange is the
    last statement of the [if] body), as does a tick without renderers. *)
Theorem render_exchanges_only_on_completion ns (w : world D) :
  let w' := snd (render ns w) in
  errors w' = errors w /\ pending w' = pending w /\
  blocks (device w') = blocks (device w) /\
  m_renderers (loop w') = m_renderers (loop w) /\
  match fst (render ns w) with
  | Returned b =>
      b = true /\
      loop_targets_of w' =
        if decide (m_renderers (loop w) = []) then loop_targets_of w
        else (m_buffer (loop w), m_state (loop w))
  | Raised _ | Faulted => loop_targets_of w' = loop_targets_of w
  | OutOfFuel => False
  end.
Proof.
  cbv zeta. split_and!.
  - by apply (preserves_render errors).
  - by apply (preserves_render pending).
  - by apply (preserves_render (fun w => blocks (device w))).
  - pose proof (preserves_run_renderers loop ns ltac:(done) w) as Hr.
    rewrite (render_unfold ns w).
    destruct (run_renderers ns w) as [[[]|e| |] w1]; simpl in Hr;
      try by (cbn [snd]; rewrite Hr).
    destruct (bool_decide (m_renderers (loop w) = []));
      [by (cbn [snd]; rewrite Hr)|].
    pose proof (diff_and_send_outcome (fun w => m_renderers (loop w)) w1
                  ltac:(done) ltac:(done)) as Hs.
    destruct (diff_and_send w1) as [[[]|e| |] w2]; cbn [snd];
      try congruence; try done.
    destruct Hs as (w3 & Hs & Hswap). injection Hswap as <-.
    simpl. congruence.
  - pose proof (preserves_run_renderers loop ns ltac:(done) w) as Hr.
    pose proof (fueled_render ns w) as Hf.
    rewrite (render_unfold ns w) in *.
    destruct (run_renderers ns w) as [[[]|e| |] w1]; simpl in Hr, Hf;
      try done; try (by unfold loop_targets_of; cbn [snd]; rewrite Hr).
    case_bool_decide as Hnil; cbn [fst snd].
    { rewrite decide_True by done. split; [done|].
      unfold loop_targets_of. by rewrite Hr. }
    rewrite decide_False by done.
    pose proof (diff_and_send_outcome loop_targets_of w1
                  ltac:(done) ltac:(done)) as Hs.
    destruct (diff_and_send w1) as [[[]|e| |] w2]; cbn [fst snd]; try done;
      try (unfold loop_targets_of in *; congruence).
    destruct Hs as (w3 & Hs & Hswap). injection Hswap as <-.
    split; [done|]. unfold loop_targets_of in *. simpl.
    injection Hs as Hs1 Hs2. rewrite Hr in *. rewrite Hs1, Hs2.
    by destruct (m_state (loop w)), (m_buffer (loop w)).
Qed.

End Ticks.

(** ** The operations of a tick, whatever its outcome *)

Section TickCalls.

Context {D : Type} `{DeviceOps D}.

Lemma lookup_all_indices {A} (l : list A) : forall n i,
  omap (fun k => l !! k) (seq i n) = take n (drop i l).
Proof.
  induction n as [|n IH]; intros i; [done|].
  simpl. rewrite IH.
  destruct (l !! i) as [x|] eqn:E.
  - by rewrite (drop_S l x i E).
  - apply lookup_ge_None_1 in E.
    rewrite !drop_ge by lia. by rewrite !take_nil.
Qed.

Lemma scan_ids h buffer state block bidx idxs :
  (d_id <$> (scan h buffer state block bidx idxs).1)
    `sublist_of` omap (fun k => keys block !! k) idxs.
Proof.
  induction idxs as [|idx idxs IH]; [done|]. simpl.
  destruct (RenderTarget.read h buffer bidx idx) as [color|];
    [|apply sublist_nil_l].
  destruct (RenderTarget.read h state bidx idx) as [current|];
    [|apply sublist_nil_l].
  destruct (RGBAColor_neq color current).
  - destruct (keys block !! idx) as [key|]; [|apply sublist_nil_l].
    destruct (scan h buffer state block bidx idxs) as [ds ok].
    by apply sublist_skip.
  - destruct (keys block !! idx) as [key|]; [by apply sublist_cons|done].
Qed.

Lemma scan_block_ids h buffer state block bidx :
  (d_id <$> (scan h buffer state block bidx
               (seq 0 (length (keys block)))).1)
    `sublist_of` keys block.
Proof.
  pose proof (scan_ids h buffer state block bidx
                (seq 0 (length (keys block)))) as Hs.
  by rewrite lookup_all_indices, drop_0, firstn_all in Hs.
Qed.

Lemma diff_keys_quiet block bidx idxs :
  preserves (fun w : world D => calls (device w))
            (for_each idxs (diff_key block bidx)).
Proof.
  apply preserves_for_each. intros idx. unfold diff_key.
  frame; first [by apply preserves_target_read
               |by apply preserves_directives_push_back].
Qed.

(** One block, whatever the outcome: at most one [setColors], for this
    block, with its directives; the flag is raised exactly when one was
    sent and accepted. *)
Lemma diff_block_sends bidx hc (w : world D) :
  exists sets,
    calls (device (diff_block bidx hc w).2) = calls (device w) ++ sets /\
    Forall (sends_block_keys (blocks (device w))) sets /\
    (length sets <= 1)%nat /\
    (forall hc', (diff_block bidx hc w).1 = Returned hc' ->
       hc' = hc || negb (bool_decide (sets = []))).
Proof.
  destruct (blocks (device w) !! bidx) as [block|] eqn:Hb.
  2:{ exists []. unfold diff_block. cbv beta iota delta [bind gets expect].
      rewrite Hb. simpl. rewrite app_nil_r.
      split_and!; try done; try lia. }
  pose proof (scan_block_ids (mem w) (m_buffer (loop w)) (m_state (loop w))
                block bidx) as Hids.
  destruct (scan (mem w) (m_buffer (loop w)) (m_state (loop w)) block bidx
                 (seq 0 (length (keys block)))) as [ds [|]] eqn:Hs.
  - rewrite (diff_block_run bidx hc w block ds Hb Hs).
    destruct (decide (ds = [])) as [->|Hne].
    + exists []. simpl. rewrite app_nil_r, orb_false_r.
      split_and!; try done; try lia; try congruence.
    + exists [call_setColors block ds].
      assert (Hsent : Forall (sends_block_keys (blocks (device w)))
                             [call_setColors block ds]).
      { constructor; [|done]. split_and!; try done.
        apply list_elem_of_lookup. by exists bidx. }
      unfold bind, device_setColors, raising, ret. simpl.
      destruct (setColors block ds (hw (device w))) as [[e|] hw']; simpl;
        (split_and!; try done; try lia).
      intros hc' [= <-]. by rewrite orb_true_r.
  - exists []. rewrite app_nil_r.
    pose proof (diff_keys_quiet block bidx (seq 0 (length (keys block)))
                  (with_directives [] w)) as Hq.
    pose proof (diff_keys_scan block bidx (seq 0 (length (keys block)))
                  (with_directives [] w)) as Hk.
    simpl in Hk. rewrite Hs in Hk. destruct Hk as [w' Hk].
    rewrite Hk in Hq. simpl in Hq.
    unfold diff_block. cbv beta iota delta [bind gets expect]. rewrite Hb.
    cbv beta iota delta [ret directives_clear modify].
    change (set_loop _ w) with (with_directives [] w). rewrite Hk. simpl.
    split_and!; try done; try lia.
Qed.

(** The loop over blocks, whatever the outcome. *)
Lemma diff_blocks_send idxs : forall hc (w : world D),
  exists sets,
    calls (device (for_fold idxs hc diff_block w).2)
      = calls (device w) ++ sets /\
    Forall (sends_block_keys (blocks (device w))) sets /\
    (length sets <= length idxs)%nat /\
    (forall hc', (for_fold idxs hc diff_block w).1 = Returned hc' ->
       hc' = hc || negb (bool_decide (sets = []))).
Proof.
  induction idxs as [|bidx idxs IH]; intros hc w.
  { exists []. simpl. rewrite app_nil_r, orb_false_r.
    split_and!; try done; try lia; try congruence. }
  destruct (diff_block_sends bidx hc w) as (s1 & Hc1 & Hf1 & Hl1 & Hr1).
  pose proof (preserves_diff_block (fun w => blocks (device w)) bidx hc
                ltac:(done) ltac:(done) w) as Hbs.
  cbn [for_fold]. unfold bind.
  destruct (diff_block bidx hc w) as [[hc1|e| |] w1]; simpl in *;
    try (exists s1; split_and!; try done; lia).
  destruct (IH hc1 w1) as (s2 & Hc2 & Hf2 & Hl2 & Hr2).
  exists (s1 ++ s2). rewrite Hbs in Hf2. split_and!.
  - by rewrite Hc2, Hc1, app_assoc.
  - by apply Forall_app.
  - rewrite length_app. lia.
  - intros hc' Hret. rewrite (Hr2 hc' Hret), (Hr1 hc1 eq_refl).
    destruct s1, s2; simpl; by rewrite ?orb_true_r, ?orb_false_r.
Qed.

(** Lines 144-172, whatever their outcome. *)
Lemma diff_and_send_shape (w1 : world D) :
  exists sets commit,
    calls (device (diff_and_send w1).2)
      = calls (device w1) ++ call_flush :: sets ++ commit /\
    Forall (sends_block_keys (blocks (device w1))) sets /\
    (length sets <= length (blocks (device w1)))%nat /\
    (commit = [] \/ commit = [call_commitColors] /\ sets <> []).
Proof.
  unfold diff_and_send.
  pose proof (preserves_flush (fun w => blocks (device w)) ltac:(done) w1)
    as Hb1.
  assert (Hc1 : calls (device (device_flush w1).2)
                = calls (device w1) ++ [call_flush]).
  { unfold device_flush, raising.
    by destruct (flush (hw (device w1))) as [r hw']. }
  unfold bind at 1.
  destruct (device_flush w1) as [[[]|e| |] w2]; simpl in Hb1, Hc1;
    try (exists [], []; cbn [snd]; rewrite Hc1; split_and!;
         [done|done|simpl; lia|by left]).
  unfold bind at 1, gets at 1.
  destruct (diff_blocks_send (seq 0 (length (blocks (device w2)))) false w2)
    as (sets & Hc2 & Hf2 & Hl2 & Hr2).
  pose proof (preserves_for_fold (fun w => blocks (device w))
                (seq 0 (length (blocks (device w2)))) diff_block
                (fun x acc =>
                   preserves_diff_block (fun w => blocks (device w)) x acc
                     ltac:(done) ltac:(done)) false w2) as Hb2.
  rewrite length_seq in Hl2. rewrite Hb1 in Hf2, Hl2.
  unfold bind at 1.
  destruct (for_fold _ false diff_block w2) as [[hc|e| |] w3];
    simpl in Hc2, Hr2, Hb2;
    try (exists sets, []; cbn [snd];
         rewrite Hc2, Hc1, app_nil_r, <- app_assoc;
         split_and!; [done|done|done|by left]).
  specialize (Hr2 hc eq_refl). simpl in Hr2. destruct hc.
  - assert (Hc3 : calls (device (device_commitColors w3).2)
                  = calls (device w3) ++ [call_commitColors]).
    { unfold device_commitColors, raising.
      by destruct (commitColors (hw (device w3))) as [r hw']. }
    exists sets, [call_commitColors].
    assert (Hne' : sets <> []) by (by intros ->).
    unfold bind.
    destruct (device_commitColors w3) as [[[]|e| |] w4]; simpl in Hc3;
      simpl; rewrite Hc3, Hc2, Hc1, <- !app_assoc;
      (split_and!; [done|done|done|by right]).
  - exists sets, []. simpl.
    rewrite Hc2, Hc1, app_nil_r, <- app_assoc.
    split_and!; [done|done|done|by left].
Qed.


Lemma render_calls ns (w : world D) :
  calls (device (render ns w).2) = calls (device w) \/
  exists w1, device w1 = device w /\
    calls (device (render ns w).2) = calls (device (diff_and_send w1).2).
Proof.
  pose proof (preserves_run_renderers device ns ltac:(done) w) as Hr.
  rewrite (render_unfold ns w).
  destruct (run_renderers ns w) as [[[]|e| |] w1]; simpl in Hr;
    try (left; cbn [snd]; by rewrite Hr).
  destruct (bool_decide (m_renderers (loop w) = []));
    [left; cbn [snd]; by rewrite Hr|].
  right. exists w1. split; [done|].
  by destruct (diff_and_send w1) as [[[]|e| |] w2].
Qed.

Lemma directives_reserve_bounds (bs : list KeyBlock) : forall acc,
  let cap := foldl (fun max block => Z.max max (Z.of_nat (length (keys block))))
                   acc bs in
  acc <= cap /\
  (forall block, block ∈ bs -> Z.of_nat (length (keys block)) <= cap) /\
  (cap = acc \/
   exists block, block ∈ bs /\ cap = Z.of_nat (length (keys block))).
Proof.
  induction bs as [|b bs IH]; intros acc; cbn [foldl].
  { cbv zeta. split_and!; [lia| |by left]. intros block Hin. by inversion Hin. }
  destruct (IH (Z.max acc (Z.of_nat (length (keys b))))) as (Hge & Hall & Hex).
  cbv zeta. split_and!.
  - lia.
  - intros block [->|Hin]%elem_of_cons; [lia|by apply Hall].
  - destruct Hex as [Heq|(block & Hin & Heq)].
    + destruct (Z.max_spec acc (Z.of_nat (length (keys b)))) as [[_ Hm]|[_ Hm]].
      * right. exists b. split; [by left|]. by rewrite Heq, Hm.
      * left. by rewrite Heq, Hm.
    + right. exists block. split; [by right|done].
Qed.

(** X11: the capacity the constructor reserves for [m_directives], the
    largest number of keys of a block (so that "no allocation happens in
    render()"), is enough: no directive list a tick hands to [setColors] is
    longer, whatever the outcome of the tick.  It is also the least such
    capacity, being zero or the number of keys of one of the blocks. *)
Theorem render_within_reserve ns (w : world D) :
  let cap := directives_reserve (device w) in
  Forall (fits_reserve cap)
    (drop (length (calls (device w))) (calls (device (render ns w).2))) /\
  (forall block, block ∈ blocks (device w) ->
     Z.of_nat (length (keys block)) <= cap) /\
  (cap = 0 \/
   exists block,
     block ∈ blocks (device w) /\ cap = Z.of_nat (length (keys block))).
Proof.
  cbv zeta. unfold directives_reserve.
  destruct (directives_reserve_bounds (blocks (device w)) 0)
    as (_ & Hall & Hex).
  split_and!; [|done|done].
  destruct (render_calls ns w) as [->|(w1 & Hdev & ->)].
  { by rewrite drop_all. }
  destruct (diff_and_send_shape w1) as (sets & commit & -> & Hsets & _ & Hcm).
  rewrite Hdev in Hsets. rewrite Hdev, drop_app_length.
  constructor; [done|]. apply Forall_app. split.
  - eapply Forall_impl; [exact Hsets|].
    intros [|block ds| | | |]; simpl; try done.
    intros (Hin & _ & Hsub). apply sublist_length in Hsub.
    rewrite length_fmap in Hsub. specialize (Hall block Hin). lia.
  - destruct Hcm as [->|[-> _]]; [done|]. by constructor.
Qed.

End TickCalls.

(** ** The initial read, whatever its outcome *)

Section ReadProtocol.

Context {D : Type} `{DeviceOps D}.

(** One pass of the loop over blocks, for a block the device has. *)
Lemma read_block_state_run bs state bidx block (w : world D) :
  bs !! bidx = Some block ->
  read_block_state bs state bidx w =
  match getColors block (hw (device w)) with
  | (inl e, d1) => (Raised e, record_call (call_getColors block) d1 w)
  | (inr colors, d1) =>
      for_each (seq 0 (length colors)) (fun idx =>
        let* c := expect (colors !! idx) in
        store_device_color state bidx idx c)
        (record_call (call_getColors block) d1 w)
  end.
Proof.
  intros Hb. unfold read_block_state.
  unfold bind at 1. unfold expect at 1. rewrite Hb. unfold ret at 1.
  unfold bind at 1. unfold device_getColors at 1.
  by destruct (getColors block (hw (device w))) as [[e|colors] d1].
Qed.

Lemma store_colors_device state bidx (colors : list ColorDirective) idxs
  (w : world D) :
  device (for_each idxs (fun idx =>
            let* c := expect (colors !! idx) in
            store_device_color state bidx idx c) w).2 = device w.
Proof.
  apply (preserves_for_each device). intros idx.
  unfold store_device_color. frame; by apply preserves_target_update.
Qed.

Lemma read_blocks_prefix bs state rest : forall first (w : world D),
  (forall k, rest !! k = bs !! (first + k)%nat) ->
  exists n,
    (n <= length rest)%nat /\
    calls (device (for_each (seq first (length rest))
                     (read_block_state bs state) w).2)
      = calls (device w) ++ (call_getColors <$> take n rest) /\
    ((for_each (seq first (length rest)) (read_block_state bs state) w).1
       = Returned tt -> n = length rest).
Proof.
  induction rest as [|block rest IH]; intros first w Hbs.
  { exists 0%nat. simpl. rewrite app_nil_r. done. }
  assert (Hb : bs !! first = Some block).
  { pose proof (Hbs 0%nat) as H0. simpl in H0. by rewrite Nat.add_0_r in H0. }
  cbn [length seq for_each]. unfold bind.
  rewrite (read_block_state_run bs state first block w Hb).
  destruct (getColors block (hw (device w))) as [[e|colors] d1].
  { exists 1%nat. simpl. split_and!; [lia|by rewrite ?take_0|done]. }
  pose proof (store_colors_device state first colors (seq 0 (length colors))
                (record_call (call_getColors block) d1 w)) as Hp.
  destruct (for_each (seq 0 (length colors)) _ _) as [[[]|e| |] w2];
    simpl in Hp;
    try (exists 1%nat; cbn [fst snd]; rewrite Hp; simpl; rewrite ?take_0;
         split_and!; [lia|done|done]).
  destruct (IH (S first) w2) as (n & Hn & Hcalls & Hret).
  { intros k. pose proof (Hbs (S k)) as Hk. simpl in Hk.
    replace (first + S k)%nat with (S first + k)%nat in Hk by lia. done. }
  exists (S n). split_and!.
  - simpl. lia.
  - rewrite Hcalls, Hp. simpl. by rewrite <- app_assoc.
  - intros Hr. by rewrite (Hret Hr).
Qed.


End ReadProtocol.

(** ** The colours of a block as the device answers them *)

Section ReplyLength.

Context {D : Type} `{DeviceOps D}.

Lemma get_injective rt bidx idx idx' r off :
  RenderTarget.get rt bidx idx = Some (Ptr r off) ->
  RenderTarget.get rt bidx idx' = Some (Ptr r off) -> idx = idx'.
Proof.
  unfold RenderTarget.get.
  destruct (RenderTarget.m_blocks rt !! bidx) as [[|r0 off0]|]; simpl; try done.
  intros [= -> Ho] [= Ho']. lia.
Qed.

Lemma target_update_fault target bidx idx g (w : world D) :
  RenderTarget.read (mem w) target bidx idx = None ->
  target_update target bidx idx g w = (Faulted, w).
Proof.
  intros Hn.
  cbv beta iota delta [target_update bind gets expect ret fault modify].
  by rewrite Hn.
Qed.

(** The loop over the colours received stops with a fault at the first
    index without a cell. *)
Lemma fill_cells_fault state bidx (colors : list ColorDirective) idxs :
  forall w : world D,
  (forall idx, idx ∈ idxs -> is_Some (colors !! idx)) ->
  (exists idx, idx ∈ idxs /\
               RenderTarget.read (mem w) state bidx idx = None) ->
  (for_each idxs (fun idx =>
     let* c := expect (colors !! idx) in
     store_device_color state bidx idx c) w).1 = Faulted.
Proof.
  induction idxs as [|i idxs IH]; intros w Hc (idx & Hin & Hnone).
  { by inversion Hin. }
  destruct (Hc i) as [c Hci]; [by left|].
  cbn [for_each]. unfold bind at 1. unfold bind at 1. unfold expect at 1.
  rewrite Hci. unfold ret at 1.
  destruct (RenderTarget.read (mem w) state bidx i) as [old|] eqn:Hread.
  - unfold RenderTarget.read in Hread.
    destruct (RenderTarget.get state bidx i) as [p|] eqn:Hp; [|done].
    simpl in Hread.
    destruct (store_device_color_run state bidx i c w p Hp)
      as (h1 & Hs1 & Hrun1); [by rewrite Hread|].
    rewrite Hrun1. apply IH.
    + intros j Hj. apply Hc. by right.
    + apply elem_of_cons in Hin as [->|Hin].
      { unfold RenderTarget.read in Hnone. rewrite Hp in Hnone.
        simpl in Hnone. congruence. }
      exists idx. split; [done|]. simpl.
      unfold RenderTarget.read in *.
      destruct (RenderTarget.get state bidx idx) as [q|]; [|done].
      simpl in *. apply eq_None_not_Some.
      rewrite (store_keeps_valid _ _ _ _ _ Hs1).
      by rewrite Hnone; intros [? ?].
  - unfold store_device_color. unfold bind at 1.
    by rewrite (target_update_fault _ _ _ _ _ Hread).
Qed.

(** X13: one pass of the initial read stores as many colours as the
    device answered for the block, not as many as the block has keys: the
    [k]-th colour received goes, opaque, into cell [k] of the block,
    whatever identifier it carries.  When every such cell exists, the pass
    returns and all other cells keep their contents; so after a short
    answer the remaining keys of the block hold what they held, and a long
    answer runs over into the cells that follow the block.  When one of
    these cells does not exist, the pass writes out of bounds. *)
Theorem read_block_state_follows_reply bs state bidx block colors d1
  (w : world D) :
  bs !! bidx = Some block ->
  getColors block (hw (device w)) = (inr colors, d1) ->
  let w1 := record_call (call_getColors block) d1 w in
  ((forall idx, (idx < length colors)%nat ->
      is_Some (RenderTarget.read (mem w) state bidx idx)) ->
   exists h',
     read_block_state bs state bidx w = (Returned tt, set_mem h' w1) /\
     (forall idx c, colors !! idx = Some c ->
        RenderTarget.read h' state bidx idx = Some (opaque c)) /\
     (forall q,
        (forall idx, (idx < length colors)%nat ->
           RenderTarget.get state bidx idx <> Some q) ->
        load h' q = load (mem w) q)) /\
  (forall idx, (idx < length colors)%nat ->
     RenderTarget.read (mem w) state bidx idx = None ->
     (read_block_state bs state bidx w).1 = Faulted).
Proof.
  intros Hb Hg. cbv zeta.
  rewrite (read_block_state_run bs state bidx block w Hb), Hg. split.
  - intros Hcells.
    destruct (fill_cells state bidx colors (seq 0 (length colors))
                (record_call (call_getColors block) d1 w))
      as (h' & Hrun & Hstored & Hframe & _).
    + apply NoDup_seq.
    + intros idx Hin. apply elem_of_seq in Hin. split.
      * apply lookup_lt_is_Some. lia.
      * destruct (Hcells idx ltac:(lia)) as [c Hc].
        unfold RenderTarget.read in Hc.
        destruct (RenderTarget.get state bidx idx) as [p|]; [|done].
        exists p. split; [done|]. by exists c.
    + intros idx idx' p Hin _ Hp Hp'. apply elem_of_seq in Hin.
      destruct (Hcells idx ltac:(lia)) as [c Hc].
      unfold RenderTarget.read in Hc. rewrite Hp in Hc. simpl in Hc.
      destruct p as [|r off]; [done|]. by eapply get_injective.
    + exists h'. split_and!.
      * exact Hrun.
      * intros idx c Hc. apply Hstored; [|done].
        apply elem_of_seq. apply lookup_lt_Some in Hc. lia.
      * intros q Hq. rewrite Hframe; [done|].
        intros idx Hin. apply Hq. apply elem_of_seq in Hin. lia.
  - intros idx Hlt Hnone. apply fill_cells_fault.
    + intros j Hj. apply elem_of_seq in Hj. apply lookup_lt_is_Some. lia.
    + exists idx. split; [|done]. apply elem_of_seq. lia.
Qed.

End ReplyLength.

Lemma read_block_state_follows_reply_witness :
  let state := m_state (loop (w_rote (numbered 9))) in
  let after := read_block_state sample_blocks state 0 (w_rote (numbered 9)) in
  after.1 = Returned tt /\
  RenderTarget.read (mem after.2) state 0 8 = Some (mkRGBA 8 0 0 255) /\
  RenderTarget.get state 0 8 = RenderTarget.get state 1 0 /\
  (read_block_state sample_blocks (m_state (loop (w_rote (numbered 17)))) 0
     (w_rote (numbered 17))).1 = Faulted.
Proof.
  cbv zeta.
  assert (Hg9 : getColors (mkBlock [10; 11; 12; 13; 14])
                  (hw (device (w_rote (numbered 9))))
                = (inr (numbered 9), mkRote (numbered 9)))
    by (vm_compute; reflexivity).
  assert (Hg17 : getColors (mkBlock [10; 11; 12; 13; 14])
                   (hw (device (w_rote (numbered 17))))
                 = (inr (numbered 17), mkRote (numbered 17)))
    by (vm_compute; reflexivity).
  destruct (read_block_state_follows_reply sample_blocks
              (m_state (loop (w_rote (numbered 9)))) 0
              (mkBlock [10; 11; 12; 13; 14]) (numbered 9)
              (mkRote (numbered 9)) (w_rote (numbered 9))
              eq_refl Hg9) as [Hok _].
  destruct (read_block_state_follows_reply sample_blocks
              (m_state (loop (w_rote (numbered 17)))) 0
              (mkBlock [10; 11; 12; 13; 14]) (numbered 17)
              (mkRote (numbered 17)) (w_rote (numbered 17))
              eq_refl Hg17) as [_ Hfault].
  destruct Hok as (h' & Hrun & Hstored & _).
  { intros idx Hlt.
    do 9 (destruct idx as [|idx]; [vm_compute; eauto|]).
    simpl in Hlt. lia. }
  rewrite Hrun. split_and!.
  - reflexivity.
  - exact (Hstored 8%nat (mkDirective 8 8 0 0) eq_refl).
  - vm_compute. reflexivity.
  - apply (Hfault 16%nat); [simpl; lia|vm_compute; reflexivity].
Defined.

(** ** [run] from start to exit, whatever happens *)

Section RunOutcome.

Context {D : Type} `{DeviceOps D}.

Lemma run_unfold (w : world D) :
  run w =
  match getDeviceState (m_state (loop w)) w with
  | (Returned _, w1) => run_periodic w1
  | (Raised (DeviceError _ what), w1) =>
      (Returned tt, set_errors (errors w1 ++ ["device error: " +:+ what]) w1)
  | (Raised (StdException what), w1) => (Raised (StdException what), w1)
  | (Faulted, w1) => (Faulted, w1)
  | (OutOfFuel, w1) => (OutOfFuel, w1)
  end.
Proof.
  unfold run. unfold bind at 1. unfold try_catch at 1.
  unfold bind at 1. unfold gets at 1. unfold bind at 1.
  by destruct (getDeviceState (m_state (loop w)) w)
    as [[[]|[code what|what]| |] w1].
Qed.

Lemma run_periodic_unfold (w : world D) :
  run_periodic w =
  match recovery (device_setTimeout 0 w).2 with
  | (Returned _, w2) => (Returned tt, w2)
  | (Raised e, w2) =>
      (Returned tt,
       set_errors (errors w2 ++ exit_lines e (errno (hw (device w2)))) w2)
  | (Faulted, w2) => (Faulted, w2)
  | (OutOfFuel, w2) => (OutOfFuel, w2)
  end.
Proof.
  destruct (recovery (device_setTimeout 0 w).2) as [[[]|e| |] w2] eqn:Hrec;
    try (by apply run_periodic_raised);
    unfold run_periodic; unfold bind at 1; unfold device_setTimeout at 1;
    simpl in Hrec; unfold try_catch; by rewrite Hrec.
Qed.

Lemma exit_lines_length e errno_now : (length (exit_lines e errno_now) <= 1)%nat.
Proof.
  destruct e as [code what|what]; simpl; [|lia]. case_decide; simpl; lia.
Qed.


End RunOutcome.

Section RunCalls.

Context {D : Type} `{DeviceOps D}.

Lemma appends_AnimationLoop_steps events :
  appends is_write (AnimationLoop_steps events).
Proof.
  induction events as [|ev rest IH]; simpl.
  { apply appends_quiet. by frame. }
  apply appends_bind; [apply appends_quiet; by frame|]. intros _.
  destruct ev as [ns|rs].
  - apply appends_bind; [apply appends_render|].
    intros [|]; [done|apply appends_quiet; by frame].
  - apply appends_bind; [|done].
    apply appends_quiet. by apply preserves_setRenderers.
Qed.

Lemma appends_attempt : appends is_write_or_resync attempt.
Proof.
  apply appends_try_catch.
  - apply appends_bind; [|intros _; apply appends_quiet; by frame].
    apply (appends_weaken is_write); [by intros []|].
    unfold AnimationLoop_run.
    apply appends_bind; [apply appends_quiet; by frame|].
    apply appends_AnimationLoop_steps.
  - intros [code what|what] h Hh; [|done]. injection Hh as <-.
    apply appends_bind.
    + intros w. unfold device_resync.
      destruct (resync (hw (device w))) as [ok hw'].
      exists [call_resync]. split; [done|]. by constructor.
    + intros [|]; apply appends_quiet; by frame.
Qed.

Lemma appends_recovery : appends is_write_or_resync recovery.
Proof.
  unfold recovery. apply appends_bind; [apply appends_quiet; by frame|].
  intros events. generalize (S (length events)) as fuel.
  induction fuel as [|fuel IH]; simpl.
  { by apply appends_quiet. }
  apply appends_bind; [apply appends_attempt|].
  intros [|]; [done|apply appends_quiet; by frame].
Qed.

(** What [run] invokes once the device state has been read. *)
Lemma run_periodic_calls (w : world D) :
  exists tail,
    calls (device (run_periodic w).2)
      = calls (device w) ++ call_setTimeout 0 :: tail /\
    Forall is_write_or_resync tail.
Proof.
  destruct (appends_recovery (device_setTimeout 0 w).2)
    as (tail & Hcalls & Htail).
  exists tail. split; [|done].
  rewrite (run_periodic_unfold w).
  destruct (recovery (device_setTimeout 0 w).2) as [[[]|e| |] w2];
    simpl in Hcalls; cbn [snd]; simpl; rewrite Hcalls;
    by rewrite <- app_assoc.
Qed.

(** X15: the operations [run] invokes on the device, whatever happens:
    first [getColors] on the device's blocks in order; only when all the
    blocks have been read, [setTimeout(0)], once; and after it nothing but
    the operations of the ticks ([flush], [setColors], [commitColors]) and
    [resync].  So [getColors] is never invoked again after the initial
    read, and no tick runs before the timeout is set. *)
Theorem run_call_protocol (w : world D) :
  let bs := blocks (device w) in
  exists n rest,
    (n <= length bs)%nat /\
    calls (device (run w).2)
      = calls (device w) ++ (call_getColors <$> take n bs) ++ rest /\
    (rest = [] \/
     n = length bs /\
     exists tail,
       rest = call_setTimeout 0 :: tail /\ Forall is_write_or_resync tail).
Proof.
  cbv zeta.
  destruct (read_blocks_prefix (blocks (device w)) (m_state (loop w))
              (blocks (device w)) 0 w ltac:(done))
    as (n & Hn & Hcalls & Hret).
  change (for_each _ _ w) with (getDeviceState (m_state (loop w)) w)
    in Hcalls, Hret.
  rewrite (run_unfold w).
  destruct (getDeviceState (m_state (loop w)) w)
    as [[[]|[code what|what]| |] w1]; simpl in Hcalls, Hret; cbn [snd];
    try (exists n, []; rewrite app_nil_r; simpl;
         split_and!; [done|done|by left]).
  destruct (run_periodic_calls w1) as (tail & Hper & Htail).
  exists n, (call_setTimeout 0 :: tail).
  split_and!; [done|by rewrite Hper, Hcalls, <- app_assoc|].
  right. split; [by apply Hret|by exists tail].
Qed.

End RunCalls.

(** ** Two ticks in a row *)

Section TwoTicks.

Context {D : Type} `{DeviceOps D}.

Lemma diff_calls_elem h buffer state bs : forall first k block,
  bs !! k = Some block ->
  block_directives h buffer state (first + k) block <> [] ->
  call_setColors block (block_directives h buffer state (first + k) block)
    ∈ diff_calls h buffer state first bs.
Proof.
  induction bs as [|b bs IH]; intros first k block Hk Hne; [done|].
  simpl. apply elem_of_app. destruct k as [|k]; simpl in Hk.
  - injection Hk as ->. left. rewrite Nat.add_0_r in *.
    by apply block_calls_spec.
  - right. replace (first + S k)%nat with (S first + k)%nat in * by lia.
    by apply IH.
Qed.

(** X16: [render] neither clears the scratch buffer nor copies the frame
    just sent into it: after the exchange the scratch buffer is the frame
    shown before.  So when a tick changes the colour of a key from [old] to
    [shown] and, on the next tick, no renderer paints that key, the next
    tick finds [old] in the scratch buffer, compares it with [shown] and
    sends the key back to [old]. *)
Theorem unpainted_change_is_sent_back ns1 ns2 (w : world D) b1 w1 b2 w2
  bidx block idx key old shown :
  let state := m_state (loop w) in
  let buffer := m_buffer (loop w) in
  m_renderers (loop w) <> [] ->
  render ns1 w = (Returned b1, w1) ->
  render ns2 w1 = (Returned b2, w2) ->
  blocks (device w) !! bidx = Some block -> keys block !! idx = Some key ->
  (forall b i b' i' q,
     RenderTarget.get state b i = Some q ->
     RenderTarget.get buffer b' i' <> Some q) ->
  (forall renderer view b i c,
     renderer ∈ m_renderers (loop w) -> (b, i, c) ∈ renderer ns2 view ->
     RenderTarget.get state b i <> RenderTarget.get state bidx idx) ->
  RenderTarget.read (mem w) state bidx idx = Some old ->
  RenderTarget.read (mem w1) (m_state (loop w1)) bidx idx = Some shown ->
  old <> shown ->
  m_buffer (loop w1) = state /\
  RenderTarget.read (mem w1) (m_buffer (loop w1)) bidx idx = Some old /\
  exists ds,
    call_setColors block ds
      ∈ drop (length (calls (device w1))) (calls (device w2)) /\
    mkDirective key (red old) (green old) (blue old) ∈ ds.
Proof.
  cbv zeta. intros Hne Hrun1 Hrun2 Hb Hkey Hdisj Hunp Hold Hshown Hdiff.
  destruct (render_returned ns1 w b1 w1 Hne Hrun1)
    as (wa & Hrend1 & Hsend1 & _ & Hloop1 & Hdev1).
  destruct (diff_and_send_returned wa w1 Hsend1)
    as (Hmem1 & Hrs1 & Hst1 & Hbuf1 & _ & _).
  rewrite Hloop1 in Hrs1, Hst1, Hbuf1.
  pose proof (preserves_render (fun w => blocks (device w)) ns1
                ltac:(done) ltac:(done) ltac:(done) w) as Hbs1.
  rewrite Hrun1 in Hbs1. simpl in Hbs1.
  unfold RenderTarget.read in Hold, Hshown.
  destruct (RenderTarget.get (m_state (loop w)) bidx idx) as [qs|] eqn:Hqs;
    [|done].
  rewrite Hst1 in Hshown.
  destruct (RenderTarget.get (m_buffer (loop w)) bidx idx) as [qb|] eqn:Hqb;
    [|done].
  simpl in Hold, Hshown.
  assert (Hold1 : load (mem w1) qs = Some old).
  { rewrite Hmem1. pose proof (run_renderers_frame ns1 w qs) as Hf.
    rewrite Hrend1 in Hf. simpl in Hf. rewrite Hf; [done|].
    intros renderer view b i c _ _. by eapply Hdisj. }
  assert (Hne1 : m_renderers (loop w1) <> []) by (by rewrite Hrs1).
  destruct (render_returned ns2 w1 b2 w2 Hne1 Hrun2)
    as (wb & Hrend2 & Hsend2 & _ & Hloop2 & Hdev2).
  destruct (diff_and_send_returned wb w2 Hsend2)
    as (_ & _ & _ & _ & Hcalls2 & _).
  cbv zeta in Hcalls2.
  rewrite Hloop2, Hdev2, Hst1, Hbuf1, Hbs1 in Hcalls2.
  assert (Hold2 : load (mem wb) qs = Some old).
  { pose proof (run_renderers_frame ns2 w1 qs) as Hf.
    rewrite Hrend2 in Hf. simpl in Hf. rewrite Hf; [done|].
    rewrite Hrs1, Hbuf1. intros renderer view b i c Hin Hp.
    by eapply Hunp. }
  assert (Hshown2 : load (mem wb) qb = Some shown).
  { pose proof (run_renderers_frame ns2 w1 qb) as Hf.
    rewrite Hrend2 in Hf. simpl in Hf. rewrite Hf; [done|].
    rewrite Hbuf1. intros renderer view b i c _ _ Hp.
    by eapply (Hdisj b i bidx idx qb). }
  split_and!.
  - done.
  - rewrite Hbuf1. unfold RenderTarget.read. by rewrite Hqs.
  - set (ds := block_directives (mem wb) (m_state (loop w))
                 (m_buffer (loop w)) bidx block).
    assert (Hin : mkDirective key (red old) (green old) (blue old) ∈ ds).
    { apply list_elem_of_omap. exists idx. split.
      - apply elem_of_seq. apply lookup_lt_Some in Hkey. lia.
      - unfold directive_for, RenderTarget.read.
        rewrite Hkey, Hqs, Hqb. simpl. rewrite Hold2, Hshown2. simpl.
        by rewrite decide_False. }
    exists ds. split; [|done].
    rewrite Hcalls2, drop_app_length.
    apply elem_of_cons. right. apply elem_of_app. left.
    apply (diff_calls_elem _ _ _ _ 0%nat bidx block Hb).
    intros Hnil. simpl in Hnil. fold ds in Hnil. subst ds.
    rewrite Hnil in Hin. by inversion Hin.
Qed.

End TwoTicks.

Lemma unpainted_change_is_sent_back_witness :
  let w1 := (render 1000000 w_flash).2 in
  let w2 := (render 2000000 w1).2 in
  m_buffer (loop w1) = m_state (loop w_flash) /\
  RenderTarget.read (mem w1) (m_buffer (loop w1)) 0 3 = Some black /\
  exists ds,
    call_setColors (mkBlock [10; 11; 12; 13; 14]) ds
      ∈ drop (length (calls (device w1))) (calls (device w2)) /\
    mkDirective 13 0 0 0 ∈ ds.
Proof.
  cbv zeta.
  set (w1 := (render 1000000 w_flash).2).
  set (w2 := (render 2000000 w1).2).
  assert (Hrun1 : render 1000000 w_flash = (Returned true, w1))
    by (vm_compute; reflexivity).
  assert (Hrun2 : render 2000000 w1 = (Returned true, w2))
    by (vm_compute; reflexivity).
  assert (Hstate : m_state (loop w_flash)
                   = target_in 0 (key_counts sample_blocks))
    by (vm_compute; reflexivity).
  assert (Hbuffer : m_buffer (loop w_flash)
                    = target_in 1 (key_counts sample_blocks))
    by (vm_compute; reflexivity).
  apply (unpainted_change_is_sent_back 1000000 2000000 w_flash true w1 true w2
           0%nat (mkBlock [10; 11; 12; 13; 14]) 3%nat 13 black red_color).
  - discriminate.
  - exact Hrun1.
  - exact Hrun2.
  - reflexivity.
  - reflexivity.
  - rewrite Hstate, Hbuffer. intros b i b' i' q Hs Hb.
    apply target_in_region in Hs as [off ->].
    apply target_in_region in Hb as [off' [=]].
  - intros renderer view b i c Hin Hp.
    apply list_elem_of_singleton in Hin. subst renderer.
    by inversion Hp.
  - vm_compute. reflexivity.
  - vm_compute. reflexivity.
  - discriminate.
Defined.
